(** * MLEM sequence generator: the masked reconstruction loss and the
      global-conditioned GRU decoder of [src/models/gen_models.py]

    Tensor entries are modelled as exact reals extended with the three
    non-finite IEEE values; rounding and overflow are left out.  Tensors are
    nested lists, batch axis first, as the source indexes them.  Every
    operation that can raise in Python returns a [result]. *)

From Stdlib Require Import String Ascii.
From Stdlib Require Import Reals Lra Lia ZArith Bool Arith List.
Import ListNotations.
Open Scope R_scope.

(** ** Errors *)

Inductive error : Type :=
| IndexError
| KeyError
| ShapeError
| NameError
| ValueError
| RuntimeError.

Inductive result (A : Type) : Type :=
| Ok (a : A)
| Err (e : error).
Arguments Ok {A} a.
Arguments Err {A} e.

Definition bind {A B : Type} (m : result A) (k : A -> result B) : result B :=
  match m with
  | Ok a => k a
  | Err e => Err e
  end.

Notation "x <- m ;; k" := (bind m (fun x => k))
  (at level 61, m at next level, right associativity).
Notation "' p <- m ;; k" := (bind m (fun x => match x with p => k end))
  (at level 61, p pattern, m at next level, right associativity).

Fixpoint mapM {A B : Type} (f : A -> result B) (l : list A) : result (list B) :=
  match l with
  | [] => Ok []
  | a :: l' => b <- f a ;; bs <- mapM f l' ;; Ok (b :: bs)
  end.

(** Pointwise combination of two lists of the same length. *)
Fixpoint zipM {A B C : Type} (f : A -> B -> result C)
  (xs : list A) (ys : list B) : result (list C) :=
  match xs, ys with
  | [], [] => Ok []
  | x :: xs', y :: ys' => c <- f x y ;; cs <- zipM f xs' ys' ;; Ok (c :: cs)
  | _, _ => Err ShapeError
  end.

(** ** Scalars *)

Inductive tnum : Type :=
| Fin (r : R)
| PInf
| NInf
| NaN.

Definition inf_of (positive : bool) : tnum := if positive then PInf else NInf.

Definition tneg (x : tnum) : tnum :=
  match x with
  | Fin r => Fin (- r)
  | PInf => NInf
  | NInf => PInf
  | NaN => NaN
  end.

Definition tadd (x y : tnum) : tnum :=
  match x, y with
  | NaN, _ | _, NaN => NaN
  | Fin a, Fin b => Fin (a + b)
  | PInf, NInf | NInf, PInf => NaN
  | PInf, _ | _, PInf => PInf
  | NInf, _ | _, NInf => NInf
  end.

Definition tsub (x y : tnum) : tnum := tadd x (tneg y).

(** An infinity of the given sign times the finite [r]. *)
Definition inf_times (positive : bool) (r : R) : tnum :=
  match total_order_T r 0 with
  | inleft (left _) => inf_of (negb positive)
  | inleft (right _) => NaN
  | inright _ => inf_of positive
  end.

Definition tmul (x y : tnum) : tnum :=
  match x, y with
  | NaN, _ | _, NaN => NaN
  | Fin a, Fin b => Fin (a * b)
  | PInf, Fin r | Fin r, PInf => inf_times true r
  | NInf, Fin r | Fin r, NInf => inf_times false r
  | PInf, PInf | NInf, NInf => PInf
  | PInf, NInf | NInf, PInf => NInf
  end.

(** Division of a float by an integer count, as in [sum / mask.sum()]:
    the count is never negative, and a zero count gives NaN or an
    infinity instead of raising. *)
Definition tdivn (x : tnum) (n : nat) : tnum :=
  match n with
  | O =>
      match x with
      | Fin r =>
          match total_order_T r 0 with
          | inleft (left _) => NInf
          | inleft (right _) => NaN
          | inright _ => PInf
          end
      | _ => x
      end
  | S _ =>
      match x with
      | Fin r => Fin (r / INR n)
      | _ => x
      end
  end.

(** [x != c] on an entry, for a finite constant [c]. *)
Definition tne (x : tnum) (c : R) : bool :=
  match x with
  | Fin r => if Req_dec_T r c then false else true
  | _ => true
  end.

(** A boolean promoted to a float, as when a mask multiplies a tensor. *)
Definition of_bool (b : bool) : tnum := if b then Fin 1 else Fin 0.

Definition tsum (l : list tnum) : tnum := fold_right tadd (Fin 0) l.

Definition count_true (l : list bool) : nat := length (filter (fun b => b) l).

(** Lifting of a real function with its values at the two infinities. *)
Definition lift1 (f : R -> R) (at_pinf at_ninf : tnum) (x : tnum) : tnum :=
  match x with
  | Fin r => Fin (f r)
  | PInf => at_pinf
  | NInf => at_ninf
  | NaN => NaN
  end.

Definition texp : tnum -> tnum := lift1 exp PInf (Fin 0).

Definition tln (x : tnum) : tnum :=
  match x with
  | Fin r =>
      match total_order_T r 0 with
      | inleft (left _) => NaN
      | inleft (right _) => NInf
      | inright _ => Fin (ln r)
      end
  | PInf => PInf
  | _ => NaN
  end.

Definition sigmoid_R (x : R) : R := 1 / (1 + exp (- x)).
Definition sigmoid : tnum -> tnum := lift1 sigmoid_R (Fin 1) (Fin 0).
Definition ttanh : tnum -> tnum := lift1 tanh (Fin 1) (Fin (-1)).

(** The error function, for the exact GELU that [nn.GELU()] computes. *)
Definition gauss (t : R) : R := exp (- (t * t)).

Lemma gauss_continuity : continuity gauss.
Proof.
  unfold gauss.
  apply (continuity_comp (fun t => - (t * t)) exp).
  - apply continuity_opp.
    apply continuity_mult; apply derivable_continuous, derivable_id.
  - apply derivable_continuous, derivable_exp.
Qed.

Lemma gauss_integrable (a b : R) : Riemann_integrable gauss a b.
Proof.
  destruct (Rle_dec a b) as [Hab | Hab].
  - apply continuity_implies_RiemannInt; [exact Hab | intros; apply gauss_continuity].
  - apply RiemannInt_P1, continuity_implies_RiemannInt;
      [lra | intros; apply gauss_continuity].
Qed.

Definition erf (x : R) : R := 2 / sqrt PI * RiemannInt (gauss_integrable 0 x).
Definition terf : tnum -> tnum := lift1 erf (Fin 1) (Fin (-1)).

(** [nn.GELU()]: x * 0.5 * (1 + erf(x / sqrt 2)). *)
Definition GELU (x : tnum) : tnum :=
  tmul (tmul x (Fin (1 / 2)))
       (tadd (Fin 1) (terf (tmul x (Fin (/ sqrt 2))))).

(** ** Tensors *)

Abbreviation tensor1 := (list tnum).
Abbreviation tensor2 := (list (list tnum)).
Abbreviation tensor3 := (list (list (list tnum))).

(** Broadcasting along one axis: equal extents combine pointwise, an extent
    of one is repeated, anything else is a shape error. *)
Definition bcast {A B C : Type} (f : A -> B -> result C)
  (xs : list A) (ys : list B) : result (list C) :=
  if Nat.eqb (length xs) (length ys) then zipM f xs ys
  else
    match xs, ys with
    | [x], _ => mapM (f x) ys
    | _, [y] => mapM (fun x => f x y) xs
    | _, _ => Err ShapeError
    end.

Definition ew1 {A B C : Type} (op : A -> B -> C)
  : list A -> list B -> result (list C) :=
  bcast (fun a b => Ok (op a b)).

Definition ew2 {A B C : Type} (op : A -> B -> C)
  : list (list A) -> list (list B) -> result (list (list C)) :=
  bcast (ew1 op).

(** Python indexing of one axis by a possibly negative integer. *)
Definition py_index {A : Type} (l : list A) (i : Z) : result A :=
  let n := Z.of_nat (length l) in
  let j := if (i <? 0)%Z then (i + n)%Z else i in
  if ((0 <=? j)%Z && (j <? n)%Z)%bool then
    match nth_error l (Z.to_nat j) with
    | Some a => Ok a
    | None => Err IndexError
    end
  else Err IndexError.

(** [t[:, :, i]].  The nested lists record the extent of the last axis only
    through the vectors they hold: on a tensor without any vector (an empty
    batch, or sequences without steps) every index is accepted here, while
    torch still checks it against the extent of the axis. *)
Definition select_last (t : tensor3) (i : Z) : result tensor2 :=
  mapM (mapM (fun v : tensor1 => py_index v i)) t.

(** [t[:, :, :-1]] *)
Definition drop_last3 (t : tensor3) : tensor3 := map (map (@removelast tnum)) t.

(** [t[:, 1:]] *)
Definition drop_first2 {A : Type} (t : list (list A)) : list (list A) :=
  map (@tl A) t.

(** [t.diff(1)] along the last axis. *)
Fixpoint diff1 (l : tensor1) : tensor1 :=
  match l with
  | a :: ((b :: _) as l') => tsub b a :: diff1 l'
  | _ => []
  end.

Definition sum_all (t : tensor2) : tnum := tsum (concat t).
Definition count_all (t : list (list bool)) : nat := count_true (concat t).
Definition mean (l : tensor1) : tnum := tdivn (tsum l) (length l).

(** [nn.MSELoss(reduction="none")] on one pair of entries. *)
Definition sqerr (a b : tnum) : tnum := tmul (tsub a b) (tsub a b).

Definition mul_mask (x : tnum) (b : bool) : tnum := tmul x (of_bool b).

(** The result of [t.squeeze(-1)] on a two-axis tensor: the last axis is
    removed when its extent is one, and the tensor is returned unchanged
    otherwise. *)
Inductive tensor12 : Type :=
| Rank1 (v : tensor1)
| Rank2 (m : tensor2).

Definition squeeze_last (m : tensor2) : tensor12 :=
  if forallb (fun row : tensor1 => Nat.eqb (length row) 1) m
  then Rank1 (concat m)
  else Rank2 m.

(** [nn.MSELoss(reduction="none")]: the operands are broadcast against each
    other; an operand with one axis less is aligned on the trailing axis. *)
Definition mse_fn (input target : tensor2) : result tensor2 :=
  ew2 sqerr input target.

Definition mse_fn12 (input : tensor2) (target : tensor12) : result tensor2 :=
  match target with
  | Rank2 m => mse_fn input m
  | Rank1 v => mse_fn input [v]
  end.

(** ** Python dictionaries, in insertion order *)

Definition dict (V : Type) : Type := list (string * V).

Fixpoint dict_get {V : Type} (d : dict V) (k : string) : result V :=
  match d with
  | [] => Err KeyError
  | (k', v) :: d' => if String.eqb k' k then Ok v else dict_get d' k
  end.

Fixpoint dict_set {V : Type} (d : dict V) (k : string) (v : V) : dict V :=
  match d with
  | [] => [(k, v)]
  | (k', v') :: d' =>
      if String.eqb k' k then (k', v) :: d' else (k', v') :: dict_set d' k v
  end.

Definition dict_update {V : Type} (d other : dict V) : dict V :=
  fold_left (fun acc kv => dict_set acc (fst kv) (snd kv)) other d.

Definition keys {V : Type} (d : dict V) : list string := map fst d.

Definition mem (k : string) (l : list string) : bool :=
  existsb (String.eqb k) l.

(** ** Configuration *)

Record ModelConf : Type := {
  features_emb_dim : nat;
  use_deltas : bool;
  delta_weight : R;
  mse_weight : R;
  CE_weight : R
}.

Record EmbeddingConf : Type := {
  emb_in : nat;
  emb_out : nat;
  max_value : nat
}.

Record DataConf : Type := {
  embeddings : dict EmbeddingConf;
  numeric_values : dict string
}.

Record PaddedBatch : Type := {
  payload : dict tensor2;
  seq_lens : list Z
}.

(** ** [nn.CrossEntropyLoss(reduction="mean", ...)] with class-index targets *)

Record CrossEntropyLoss : Type := {
  ignore_index : Z;
  label_smoothing : R
}.

(** The larger of two entries, as [max] orders floats: NaN wins over
    everything. *)
Definition tmax2 (x y : tnum) : tnum :=
  match x, y with
  | NaN, _ | _, NaN => NaN
  | PInf, _ | _, PInf => PInf
  | NInf, z | z, NInf => z
  | Fin a, Fin b => Fin (Rmax a b)
  end.

Definition tmax (v : tensor1) : tnum := fold_right tmax2 NInf v.

(** [log_softmax] along the class axis, computed as the kernel does: the
    largest score is subtracted before the exponentials are summed, so an
    infinite largest score turns the whole position into NaN. *)
Definition log_softmax (v : tensor1) : tensor1 :=
  let shifted := map (fun x => tsub x (tmax v)) v in
  let lse := tln (tsum (map texp shifted)) in
  map (fun x => tsub x lse) shifted.

(** The contribution of one position: nothing for an ignored target, the
    negative log-probability of the target class and the negated sum of all
    log-probabilities otherwise; a target outside the classes raises. *)
Definition ce_position (crit : CrossEntropyLoss) (logits : tensor1) (target : Z)
  : result (option (tnum * tnum)) :=
  if (target =? ignore_index crit)%Z then Ok None
  else if ((0 <=? target)%Z && (target <? Z.of_nat (length logits))%Z)%bool then
    let logp := log_softmax logits in
    Ok (Some (tneg (nth (Z.to_nat target) logp NaN), tneg (tsum logp)))
  else Err IndexError.

Definition somes {A : Type} (l : list (option A)) : list A :=
  flat_map (fun o => match o with Some a => [a] | None => [] end) l.

(** [logits] is B x T x C, the class scores of a position along the last
    axis (the source permutes them to B x C x T for the call), and [target]
    is B x T. *)
Definition cross_entropy (crit : CrossEntropyLoss)
  (logits : tensor3) (target : list (list Z)) : result tnum :=
  rows <- zipM (zipM (ce_position crit)) logits target ;;
  let parts := somes (concat rows) in
  let valid := length parts in
  let n_classes := length (hd [] (concat logits)) in
  let nll := tdivn (tsum (map fst parts)) valid in
  if Rlt_dec 0 (label_smoothing crit) then
    let smooth := tdivn (tsum (map snd parts)) valid in
    Ok (tadd (tmul (Fin (1 - label_smoothing crit)) nll)
             (tmul smooth (Fin (label_smoothing crit / INR n_classes))))
  else Ok nll.

(** [t.long()]: truncation toward zero. *)
Definition trunc_R (r : R) : Z :=
  if Rle_dec 0 r then Int_part r else (- Int_part (- r))%Z.

Definition long1 (x : tnum) : Z :=
  match x with
  | Fin r => trunc_R r
  | _ => (- 2 ^ 63)%Z
  end.

Definition long (t : tensor2) : list (list Z) := map (map long1) t.

(** [t.float()] keeps the values. *)
Definition float (t : tensor2) : tensor2 := t.

(** ** EmbeddingPredictor *)

Module EmbeddingPredictor.

Record t : Type := {
  model_conf : ModelConf;
  data_conf : DataConf;
  criterion : CrossEntropyLoss;
  emb_names : list string;
  num_embeds : nat;
  categorical_len : nat
}.

Definition init (model_conf : ModelConf) (data_conf : DataConf) : t :=
  let emb_names := keys (embeddings data_conf) in
  let num_embeds := length emb_names in
  {| model_conf := model_conf;
     data_conf := data_conf;
     criterion := {| ignore_index := 0; label_smoothing := 0 |};
     emb_names := emb_names;
     num_embeds := num_embeds;
     categorical_len := (num_embeds * features_emb_dim model_conf)%nat |}.

Fixpoint loss_items (self : t) (items : dict tensor3)
  (padded_batch : PaddedBatch) (embed_losses : dict tnum) : result (dict tnum) :=
  match items with
  | [] => Ok embed_losses
  | (name, dist) :: rest =>
      values <- dict_get (payload padded_batch) name ;;
      let shifted_labels := drop_first2 (long values) in
      l <- cross_entropy (criterion self) dist shifted_labels ;;
      loss_items self rest padded_batch (dict_set embed_losses name l)
  end.

Definition loss (self : t) (embedding_distribution : dict tensor3)
  (padded_batch : PaddedBatch) : result (dict tnum) :=
  loss_items self embedding_distribution padded_batch [].

End EmbeddingPredictor.

(** ** BaseMixin *)

(** What the loss reads of the feature processor, whose class lives in the
    preprocessors module: the names of the embedded (categorical) features. *)
Record FeatureProcessor : Type := {
  processor_emb_names : list string
}.

(** The dictionary that [SeqGen.forward] returns. *)
Record Output : Type := {
  out_x : tensor3;
  out_time_steps : tensor2;
  out_pred : tensor3;
  out_input_batch : PaddedBatch;
  out_emb_dist : dict tensor3;
  out_latent : tensor2
}.

Module BaseMixin.

Record t : Type := {
  model_conf : ModelConf;
  data_conf : DataConf;
  processor : FeatureProcessor;
  all_numeric_size : nat;
  input_dim : nat;
  embedding_predictor : EmbeddingPredictor.t;
  ce_fn : CrossEntropyLoss
}.

(** The constructor, with the feature processor it builds passed in. *)
Definition init (model_conf : ModelConf) (data_conf : DataConf)
  (processor : FeatureProcessor) : t :=
  let all_emb_size :=
    (features_emb_dim model_conf * length (embeddings data_conf))%nat in
  let all_numeric_size := length (numeric_values data_conf) in
  {| model_conf := model_conf;
     data_conf := data_conf;
     processor := processor;
     all_numeric_size := all_numeric_size;
     input_dim :=
       (all_emb_size + all_numeric_size
        + (if use_deltas model_conf then 1 else 0))%nat;
     embedding_predictor := EmbeddingPredictor.init model_conf data_conf;
     ce_fn := {| ignore_index := 0; label_smoothing := 15 / 100 |} |}.

(** The masked squared error of one feature against its predicted channel,
    averaged per sequence and then over the batch. *)
Definition masked_mse_mean (gt_val pred_val : tensor2) : result tnum :=
  mse_loss <- mse_fn gt_val pred_val ;;
  let mask := map (map (fun x => tne x 0)) gt_val in
  masked_mse <- ew2 mul_mask mse_loss mask ;;
  let counts :=
    map count_true (map (map (fun b : bool => negb (Bool.eqb b false))) mask) in
  ratio <- ew1 tdivn (map tsum masked_mse) counts ;;
  Ok (mean ratio).

(** The body of the numeric-feature loop for one payload entry that is not
    an embedding name. *)
Definition mse_feature (pred : tensor3) (values : tensor2)
  (num_val_feature : Z) : result tnum :=
  let gt_val := drop_first2 (float values) in
  pred_val <- select_last pred (- num_val_feature) ;;
  masked_mse_mean gt_val pred_val.

Fixpoint mse_loop (self : t) (pred : tensor3) (items : dict tensor2)
  (total_mse_loss : tnum) (num_val_feature : Z) : result tnum :=
  match items with
  | [] => Ok total_mse_loss
  | (key, values) :: rest =>
      if negb (mem key (processor_emb_names (processor self))) then
        term <- mse_feature pred values num_val_feature ;;
        mse_loop self pred rest (tadd total_mse_loss term)
                 (num_val_feature - 1)%Z
      else mse_loop self pred rest total_mse_loss num_val_feature
  end.

(** The delta branch: one average over the whole batch. *)
Definition delta_loss (time_steps : tensor2) (pred_delta : tensor12)
  : result tnum :=
  let gt_delta := map diff1 time_steps in
  delta_mse <- mse_fn12 gt_delta pred_delta ;;
  let mask := map (map (fun x => tne x (-1))) time_steps in
  delta_masked <- ew2 mul_mask delta_mse (drop_first2 mask) ;;
  let valid :=
    map (map (fun b : bool => negb (Bool.eqb b false))) (drop_first2 mask) in
  Ok (tdivn (sum_all delta_masked) (count_all valid)).

(** [torch.sum(torch.cat([v.unsqueeze(0) for v in values]))]: an empty
    list cannot be concatenated, [torch.cat] raises [ValueError] for it
    ([RuntimeError] in older releases of the library). *)
Definition sum_cat (values : list tnum) : result tnum :=
  match values with
  | [] => Err ValueError
  | _ => Ok (tsum values)
  end.

(** The trailing delta channel is split off the prediction when deltas
    are in use. *)
Definition split_delta (self : t) (output : Output)
  : result (option tensor12 * tensor3 * tensor3) :=
  let gt_embedding := map (@tl tensor1) (out_x output) in
  let pred := out_pred output in
  if use_deltas (model_conf self) then
    pd <- select_last pred (-1) ;;
    Ok (Some (squeeze_last pd), drop_last3 pred, drop_last3 gt_embedding)
  else Ok (None, pred, gt_embedding).

Definition delta_branch (self : t) (output : Output)
  (pred_delta : option tensor12) : result tnum :=
  if use_deltas (model_conf self) then
    match pred_delta with
    | Some pd => delta_loss (out_time_steps output) pd
    | None => Err NameError
    end
  else Ok (Fin 0).

Definition loss (self : t) (output : Output) : result (dict tnum) :=
  let mc := model_conf self in
  '(pred_delta, pred, gt_embedding) <- split_delta self output ;;
  (* MSE *)
  total_mse_loss <-
    mse_loop self pred (payload (out_input_batch output)) (Fin 0)
             (Z.of_nat (all_numeric_size self)) ;;
  (* DELTA MSE *)
  delta_mse <- delta_branch self output pred_delta ;;
  (* CROSS ENTROPY *)
  cross_entropy_losses <-
    EmbeddingPredictor.loss (embedding_predictor self)
      (out_emb_dist output) (out_input_batch output) ;;
  total_ce_loss <- sum_cat (map snd cross_entropy_losses) ;;
  let losses_dict :=
    [("total_mse_loss"%string, total_mse_loss);
     ("total_CE_loss"%string, total_ce_loss);
     ("delta_loss"%string, tmul (Fin (delta_weight mc)) delta_mse)] in
  let losses_dict := dict_update losses_dict cross_entropy_losses in
  mse_entry <- dict_get losses_dict "total_mse_loss"%string ;;
  let total_loss :=
    tadd (tadd (tmul (Fin (mse_weight mc)) mse_entry)
               (tmul (Fin (CE_weight mc)) total_ce_loss))
         (tmul (Fin (delta_weight mc)) delta_mse) in
  Ok (dict_set losses_dict "total_loss"%string total_loss).

End BaseMixin.

(** ** [nn.Linear] *)

Record Linear : Type := {
  in_features : nat;
  out_features : nat;
  weight : tensor2;
  lin_bias : option tensor1
}.

Definition dot (u v : tensor1) : tnum :=
  tsum (map (fun p => tmul (fst p) (snd p)) (combine u v)).

Definition affine (l : Linear) (row : tensor1) : tensor1 :=
  match lin_bias l with
  | Some b => map (fun p => tadd (dot row (fst p)) (snd p)) (combine (weight l) b)
  | None => map (dot row) (weight l)
  end.

Definition Linear_forward (l : Linear) (x : tensor2) : result tensor2 :=
  mapM (fun row : tensor1 =>
          if Nat.eqb (length row) (in_features l)
          then Ok (affine l row) else Err ShapeError) x.

(** The shapes that the constructor of [nn.Linear] gives its parameters. *)
Definition Linear_shaped (l : Linear) (n_in n_out : nat) (has_bias : bool) : Prop :=
  in_features l = n_in /\ out_features l = n_out /\
  length (weight l) = n_out /\
  Forall (fun w => length w = n_in) (weight l) /\
  match lin_bias l with
  | Some b => has_bias = true /\ length b = n_out
  | None => has_bias = false
  end.

(** ** [torch.chunk] along the last axis of a two-axis tensor *)

Definition chunk_sizes (chunks n : nat) : list nat :=
  let size := ((n + chunks - 1) / chunks)%nat in
  if Nat.eqb size 0 then repeat 0%nat chunks
  else
    let k := ((n + size - 1) / size)%nat in
    repeat size (k - 1) ++ [(n - size * (k - 1))%nat].

Fixpoint split_sizes {A : Type} (sizes : list nat) (row : list A) : list (list A) :=
  match sizes with
  | [] => []
  | s :: sizes' => firstn s row :: split_sizes sizes' (skipn s row)
  end.

Definition chunk (chunks : nat) (t : tensor2) : list tensor2 :=
  let sizes := chunk_sizes chunks (length (hd [] t)) in
  map (fun k => map (fun row => nth k (split_sizes sizes row) []) t)
      (seq 0 (length sizes)).

(** Tuple unpacking into three names. *)
Definition unpack3 {A : Type} (l : list A) : result (A * A * A) :=
  match l with
  | [a; b; c] => Ok (a, b, c)
  | _ => Err ValueError
  end.

(** [torch.cat([a, b], dim=-1)] *)
Definition cat_last (a b : tensor2) : result tensor2 :=
  zipM (fun u v : tensor1 => Ok (u ++ v)) a b.

Definition zeros2 (rows cols : nat) : tensor2 := repeat (repeat (Fin 0) cols) rows.

(** ** GRUCell *)

Module GRUCell.

Record t : Type := {
  input_size : nat;
  hidden_size : nat;
  bias : bool;
  x2h : Linear;
  h2h : Linear;
  mix_global : Linear
}.

(** What [__init__] establishes, whatever values [reset_parameters] draws. *)
Definition built (self : t) (global_hidden_size : nat) : Prop :=
  Linear_shaped (x2h self) (input_size self) (3 * hidden_size self) (bias self) /\
  Linear_shaped (h2h self) (hidden_size self) (3 * hidden_size self) (bias self) /\
  Linear_shaped (mix_global self) (hidden_size self + global_hidden_size)
                (hidden_size self) true.

Definition forward (self : t) (input global_hidden : tensor2)
  (hx : option tensor2) : result tensor2 :=
  let hx :=
    match hx with
    | Some h => h
    | None => zeros2 (length input) (hidden_size self)
    end in
  cat <- cat_last global_hidden hx ;;
  mixed <- Linear_forward (mix_global self) cat ;;
  let hx := map (map GELU) mixed in
  x_t <- Linear_forward (x2h self) input ;;
  h_t <- Linear_forward (h2h self) hx ;;
  '(x_reset, x_upd, x_new) <- unpack3 (chunk 3 x_t) ;;
  '(h_reset, h_upd, h_new) <- unpack3 (chunk 3 h_t) ;;
  s_reset <- ew2 tadd x_reset h_reset ;;
  let reset_gate := map (map sigmoid) s_reset in
  s_upd <- ew2 tadd x_upd h_upd ;;
  let update_gate := map (map sigmoid) s_upd in
  rh <- ew2 tmul reset_gate h_new ;;
  s_new <- ew2 tadd x_new rh ;;
  let new_gate := map (map ttanh) s_new in
  keep <- ew2 tmul update_gate hx ;;
  let one_minus := map (map (fun u => tsub (Fin 1) u)) update_gate in
  fresh <- ew2 tmul one_minus new_gate ;;
  ew2 tadd keep fresh.

End GRUCell.

(** ** DecoderGRU *)

Definition list_get {A : Type} (l : list A) (i : nat) : result A :=
  match nth_error l i with
  | Some a => Ok a
  | None => Err IndexError
  end.

(** [l[i] = a] on a Python list. *)
Fixpoint list_set {A : Type} (l : list A) (i : nat) (a : A) : result (list A) :=
  match l, i with
  | [], _ => Err IndexError
  | _ :: l', O => Ok (a :: l')
  | x :: l', S i' => r <- list_set l' i' a ;; Ok (x :: r)
  end.

(** [input[:, t, :]] *)
Definition at_step (input : tensor3) (t : nat) : result tensor2 :=
  mapM (fun s : tensor2 => list_get s t) input.

(** [torch.cat(outs, dim=1)] of the per-step outputs, each unsqueezed to
    B x 1 x H; for no step at all [torch.cat] raises [ValueError]
    ([RuntimeError] in older releases of the library). *)
Fixpoint cat_steps (outs : list tensor2) : result tensor3 :=
  match outs with
  | [] => Err ValueError
  | [o] => Ok (map (fun row => [row]) o)
  | o :: outs' =>
      rest <- cat_steps outs' ;;
      zipM (fun row (r : tensor2) => Ok (row :: r)) o rest
  end.

Module DecoderGRU.

Record t : Type := {
  input_size : nat;
  hidden_size : nat;
  global_hidden_size : nat;
  num_layers : nat;
  bias : bool;
  rnn_cell_list : list GRUCell.t
}.

(** The layer loop of one timestep.  [hidden_l] is the Python variable of
    that name: unbound until a cell has run. *)
Fixpoint layer_loop (self : t) (input : tensor3) (global_hidden : tensor2)
  (t_ : nat) (layers : list nat) (hidden : list tensor2)
  (hidden_l : option tensor2) : result (list tensor2 * option tensor2) :=
  match layers with
  | [] => Ok (hidden, hidden_l)
  | layer :: rest =>
      cell <- list_get (rnn_cell_list self) layer ;;
      inp <-
        (if Nat.eqb layer 0 then at_step input t_
         else list_get hidden (layer - 1)) ;;
      h_prev <- list_get hidden layer ;;
      h_new <- GRUCell.forward cell inp global_hidden (Some h_prev) ;;
      hidden <- list_set hidden layer h_new ;;
      hidden <- list_set hidden layer h_new ;;
      layer_loop self input global_hidden t_ rest hidden (Some h_new)
  end.

Fixpoint time_loop (self : t) (input : tensor3) (global_hidden : tensor2)
  (steps : list nat) (hidden : list tensor2) (hidden_l : option tensor2)
  (outs : list tensor2) : result (list tensor2) :=
  match steps with
  | [] => Ok outs
  | t_ :: rest =>
      '(hidden, hidden_l) <-
        layer_loop self input global_hidden t_ (seq 0 (num_layers self))
                   hidden hidden_l ;;
      match hidden_l with
      | Some h => time_loop self input global_hidden rest hidden hidden_l
                            (outs ++ [h])
      | None => Err NameError
      end
  end.

Definition forward (self : t) (input : tensor3) (global_hidden : tensor2)
  (hx : option (list tensor2)) : result tensor3 :=
  let h0 :=
    match hx with
    | None => repeat (zeros2 (length input) (hidden_size self)) (num_layers self)
    | Some h => h
    end in
  hidden <- mapM (fun layer => list_get h0 layer) (seq 0 (num_layers self)) ;;
  outs <- time_loop self input global_hidden
            (seq 0 (length (hd [] input))) hidden None [] ;;
  cat_steps outs.

End DecoderGRU.

(** ** L2Normalization *)

(** Division of two entries.  Zeros carry no sign in this model: a zero
    divisor counts as +0. *)
Definition tdiv (x y : tnum) : tnum :=
  match x, y with
  | NaN, _ | _, NaN => NaN
  | Fin a, Fin b =>
      if Req_dec_T b 0 then
        match total_order_T a 0 with
        | inleft (left _) => NInf
        | inleft (right _) => NaN
        | inright _ => PInf
        end
      else Fin (a / b)
  | Fin _, PInf | Fin _, NInf => Fin 0
  | PInf, Fin b => if Rlt_dec b 0 then NInf else PInf
  | NInf, Fin b => if Rlt_dec b 0 then PInf else NInf
  | _, _ => NaN
  end.

Definition tsqrt (x : tnum) : tnum :=
  match x with
  | Fin r => if Rlt_dec r 0 then NaN else Fin (sqrt r)
  | PInf => PInf
  | _ => NaN
  end.

(** [torch.norm(x, dim=1)] of a two-axis tensor: the Euclidean norm of
    every row. *)
Definition norm_dim1 (x : tensor2) : tensor1 :=
  map (fun row : tensor1 => tsqrt (tsum (map (fun v => tmul v v) row))) x.

(** [v.view(-1, 1)] *)
Definition view_column (v : tensor1) : tensor2 := map (fun a => [a]) v.

Module L2Normalization.

(** The argument is a two-axis tensor, a batch of vectors. *)
Definition forward (x : tensor2) : result tensor2 :=
  ew2 tdiv x (view_column (norm_dim1 x)).

End L2Normalization.

(** ** The constructor of DecoderGRU *)

(** [new_cell l i h g b] stands for the call [GRUCell(i, h, g, b)] that
    builds the cell of layer [l]; which parameter values it draws is left
    open. *)
Definition DecoderGRU_init
  (new_cell : nat -> nat -> nat -> nat -> bool -> GRUCell.t)
  (input_size hidden_size global_hidden_size num_layers : nat) (bias : bool)
  : DecoderGRU.t :=
  let first := new_cell 0%nat input_size hidden_size global_hidden_size bias in
  let rest :=
    map (fun l => new_cell l hidden_size hidden_size global_hidden_size bias)
        (seq 1 (num_layers - 1)) in
  {| DecoderGRU.input_size := input_size;
     DecoderGRU.hidden_size := hidden_size;
     DecoderGRU.global_hidden_size := global_hidden_size;
     DecoderGRU.num_layers := num_layers;
     DecoderGRU.bias := bias;
     DecoderGRU.rnn_cell_list := first :: rest |}.

(** ** The classification heads of EmbeddingPredictor *)

(** [enumerate(l)] *)
Definition enumerate {A : Type} (l : list A) : list (nat * A) :=
  combine (seq 0 (length l)) l.

(** [nn.Linear] on a three-axis tensor: the map is applied to every vector
    of the last axis. *)
Definition Linear_forward3 (l : Linear) (x : tensor3) : result tensor3 :=
  mapM (Linear_forward l) x.

(** [init_embed_predictors]: one linear map from [features_emb_dim] to the
    feature's [max_value] per embedding name.  [new_linear name n_in n_out]
    stands for the call [nn.Linear(n_in, n_out)] made for [name]; which
    parameter values it draws is left open. *)
Fixpoint init_embed_predictors_loop (self : EmbeddingPredictor.t)
  (new_linear : string -> nat -> nat -> Linear) (names : list string)
  (embed_predictors : dict Linear) : result (dict Linear) :=
  match names with
  | [] => Ok embed_predictors
  | name :: rest =>
      conf <- dict_get (embeddings (EmbeddingPredictor.data_conf self)) name ;;
      let vocab_size := max_value conf in
      init_embed_predictors_loop self new_linear rest
        (dict_set embed_predictors name
           (new_linear name
              (features_emb_dim (EmbeddingPredictor.model_conf self)) vocab_size))
  end.

Definition init_embed_predictors (self : EmbeddingPredictor.t)
  (new_linear : string -> nat -> nat -> Linear) : result (dict Linear) :=
  init_embed_predictors_loop self new_linear (EmbeddingPredictor.emb_names self) [].

(** [v[:categorical_len].view(num_embeds, features_emb_dim)] on one vector
    of the last axis: the view needs exactly [num_embeds * features_emb_dim]
    entries. *)
Definition view_groups (n d : nat) (v : tensor1) : result (list tensor1) :=
  if Nat.eqb (length v) (n * d)
  then Ok (map (fun i => firstn d (skipn (i * d) v)) (seq 0 n))
  else Err ShapeError.

(** The loop of [forward] over [enumerate(self.emb_names)]. *)
Fixpoint forward_loop (self : EmbeddingPredictor.t) (embed_predictors : dict Linear)
  (resized_x : list (list (list tensor1))) (items : list (nat * string))
  (embeddings_distribution : dict tensor3) : result (dict tensor3) :=
  match items with
  | [] => Ok embeddings_distribution
  | (i, name) :: rest =>
      head <- dict_get embed_predictors name ;;
      slice <-
        (if Nat.ltb i (EmbeddingPredictor.num_embeds self)
         then mapM (mapM (fun groups : list tensor1 => list_get groups i)) resized_x
         else Err IndexError) ;;
      dist <- Linear_forward3 head slice ;;
      forward_loop self embed_predictors resized_x rest
        (dict_set embeddings_distribution name dist)
  end.

(** [EmbeddingPredictor.forward], the module dictionary of the heads passed
    along with the predictor. *)
Definition EmbeddingPredictor_forward (self : EmbeddingPredictor.t)
  (embed_predictors : dict Linear) (x_recon : tensor3) : result (dict tensor3) :=
  resized_x <-
    mapM (mapM (fun v : tensor1 =>
                  view_groups (EmbeddingPredictor.num_embeds self)
                    (features_emb_dim (EmbeddingPredictor.model_conf self))
                    (firstn (EmbeddingPredictor.categorical_len self) v)))
         x_recon ;;
  forward_loop self embed_predictors resized_x
    (enumerate (EmbeddingPredictor.emb_names self)) [].

(** ** SeqGen *)

Module SeqGen.

(** The block of [forward] that follows the feature processor: when deltas
    are in use, the time to the next event is appended as one more channel
    to every vector of [x], with 0 for the last event of a sequence. *)
Definition append_deltas (model_conf : ModelConf) (x : tensor3)
  (time_steps : tensor2) : result tensor3 :=
  if use_deltas model_conf then
    let gt_delta := map diff1 time_steps in
    delta_feature <- cat_last gt_delta (zeros2 (length x) 1) ;;
    zipM cat_last x (map view_column delta_feature)
  else Ok x.

End SeqGen.

(** * Specifications and sample inputs *)

(** The definitions below restate the specification position by position
    and fix the concrete inputs the lemmas are evaluated on. *)

(** The three entries the breakdown starts with. *)
Definition base_entries (mc : ModelConf) (mse ce_total delta : tnum) : dict tnum :=
  [("total_mse_loss"%string, mse);
   ("total_CE_loss"%string, ce_total);
   ("delta_loss"%string, tmul (Fin (delta_weight mc)) delta)].

(** The weighted sum, in the order the source adds it up. *)
Definition weighted_total (mc : ModelConf) (mse ce_total delta : tnum) : tnum :=
  tadd (tadd (tmul (Fin (mse_weight mc)) mse)
             (tmul (Fin (CE_weight mc)) ce_total))
       (tmul (Fin (delta_weight mc)) delta).

(** The blocks of one call of the loss and the values they produced. *)
Record loss_run (self : BaseMixin.t) (output : Output) : Type := {
  run_pred_delta : option tensor12;
  run_pred : tensor3;
  run_gt_embedding : tensor3;
  run_mse : tnum;
  run_delta : tnum;
  run_ce : dict tnum;
  run_split :
    BaseMixin.split_delta self output
    = Ok (run_pred_delta, run_pred, run_gt_embedding);
  run_mse_ok :
    BaseMixin.mse_loop self run_pred (payload (out_input_batch output)) (Fin 0)
      (Z.of_nat (BaseMixin.all_numeric_size self)) = Ok run_mse;
  run_delta_ok : BaseMixin.delta_branch self output run_pred_delta = Ok run_delta;
  run_ce_ok :
    EmbeddingPredictor.loss (BaseMixin.embedding_predictor self)
      (out_emb_dist output) (out_input_batch output) = Ok run_ce;
  run_ce_nonempty : run_ce <> []
}.
Arguments run_pred_delta {self output} _.
Arguments run_pred {self output} _.
Arguments run_mse {self output} _.
Arguments run_delta {self output} _.
Arguments run_ce {self output} _.

Definition run_entries {self : BaseMixin.t} {output : Output}
  (r : loss_run self output) : dict tnum :=
  dict_update
    (base_entries (BaseMixin.model_conf self) (run_mse r)
       (tsum (map snd (run_ce r))) (run_delta r))
    (run_ce r).

(** The masked delta loss of a call: the value of [delta_mse] after the
    delta block. *)
Definition masked_delta_loss (self : BaseMixin.t) (output : Output) : result tnum :=
  sp <- BaseMixin.split_delta self output ;;
  BaseMixin.delta_branch self output (fst (fst sp)).

(** The numeric loss of a call: the value of [total_mse_loss] after the loop. *)
Definition numeric_loss (self : BaseMixin.t) (output : Output) : result tnum :=
  sp <- BaseMixin.split_delta self output ;;
  BaseMixin.mse_loop self (snd (fst sp)) (payload (out_input_batch output))
    (Fin 0) (Z.of_nat (BaseMixin.all_numeric_size self)).

Definition delta_conf : ModelConf :=
  {| features_emb_dim := 1; use_deltas := true;
     delta_weight := 2; mse_weight := 1; CE_weight := 1 |}.

Definition one_cat_data : DataConf :=
  {| embeddings := [("cat"%string, {| emb_in := 1; emb_out := 2; max_value := 2 |})];
     numeric_values := [] |}.

Definition delta_model : BaseMixin.t :=
  BaseMixin.init delta_conf one_cat_data {| processor_emb_names := ["cat"%string] |}.

(** One sequence of two events at times 0 and 1; every prediction is 0. *)
Definition delta_output : Output :=
  {| out_x := [[[Fin 0; Fin 0]; [Fin 0; Fin 0]]];
     out_time_steps := [[Fin 0; Fin 1]];
     out_pred := [[[Fin 0; Fin 0]]];
     out_input_batch :=
       {| payload := [("cat"%string, [[Fin 1; Fin 1]])]; seq_lens := [2%Z] |};
     out_emb_dist := [("cat"%string, [[[Fin 0; Fin 0]]])];
     out_latent := [[Fin 0]] |}.

(** The sum of the per-feature cross-entropies of a call: the value of
    [total_ce_loss]. *)
Definition categorical_loss (self : BaseMixin.t) (output : Output) : result tnum :=
  ce <- EmbeddingPredictor.loss (BaseMixin.embedding_predictor self)
          (out_emb_dist output) (out_input_batch output) ;;
  BaseMixin.sum_cat (map snd ce).

(** A model without deltas whose only categorical feature is named
    [total_mse_loss]. *)
Definition plain_conf : ModelConf :=
  {| features_emb_dim := 1; use_deltas := false;
     delta_weight := 1; mse_weight := 1; CE_weight := 1 |}.

Definition clash_data : DataConf :=
  {| embeddings :=
       [("total_mse_loss"%string, {| emb_in := 1; emb_out := 2; max_value := 2 |})];
     numeric_values := [] |}.

Definition clash_model : BaseMixin.t :=
  BaseMixin.init plain_conf clash_data
    {| processor_emb_names := ["total_mse_loss"%string] |}.

Definition clash_output : Output :=
  {| out_x := [[[Fin 0]; [Fin 0]]];
     out_time_steps := [[Fin 0; Fin 1]];
     out_pred := [[[Fin 0]]];
     out_input_batch :=
       {| payload := [("total_mse_loss"%string, [[Fin 1; Fin 1]])];
          seq_lens := [2%Z] |};
     out_emb_dist := [("total_mse_loss"%string, [[[Fin 0; Fin 0]]])];
     out_latent := [[Fin 0]] |}.

(** One categorical feature, one position, logits 0 and ln 2, label 1. *)
Definition skew_model : BaseMixin.t :=
  BaseMixin.init plain_conf one_cat_data {| processor_emb_names := ["cat"%string] |}.

Definition skew_output : Output :=
  {| out_x := [[[Fin 0]; [Fin 0]]];
     out_time_steps := [[Fin 0; Fin 1]];
     out_pred := [[[Fin 0]]];
     out_input_batch :=
       {| payload := [("cat"%string, [[Fin 1; Fin 1]])]; seq_lens := [2%Z] |};
     out_emb_dist := [("cat"%string, [[[Fin 0; Fin (ln 2)]]])];
     out_latent := [[Fin 0]] |}.

Definition map2 {A B C : Type} (f : A -> B -> C) (xs : list A) (ys : list B) : list C :=
  map (fun p => f (fst p) (snd p)) (combine xs ys).

(** Every vector of the prediction has [D] channels. *)
Definition width3 (D : nat) (pred : tensor3) : Prop :=
  Forall (Forall (fun v : tensor1 => length v = D)) pred.

(** The column of channel [c]. *)
Definition channel (c : nat) (pred : tensor3) : tensor2 :=
  map (map (fun v : tensor1 => nth c v NaN)) pred.

(** The average of one sequence: masked squared errors over the number of
    unmasked positions. *)
Definition seq_average (gt pr : tensor1) : tnum :=
  let mask := map (fun x => tne x 0) gt in
  tdivn (tsum (map2 mul_mask (map2 sqerr gt pr) mask)) (count_true mask).

(** The payload entries whose key is not an embedding name, in payload
    order. *)
Definition numeric_items (self : BaseMixin.t) (items : dict tensor2) : dict tensor2 :=
  filter (fun kv => negb (mem (fst kv)
                            (processor_emb_names (BaseMixin.processor self))))
         items.

(** The entries paired with a counter that starts at [n] and goes down by
    one per entry. *)
Fixpoint countdown {A : Type} (n : Z) (items : list A) : list (Z * A) :=
  match items with
  | [] => []
  | x :: rest => (n, x) :: countdown (n - 1) rest
  end.

(** One step of the accumulation: the feature is compared with the channel
    at index [- counter] of the prediction. *)
Definition add_feature (pred : tensor3) (acc : result tnum)
  (entry : Z * (string * tensor2)) : result tnum :=
  total <- acc ;;
  pred_val <- select_last pred (- fst entry) ;;
  term <- BaseMixin.masked_mse_mean (drop_first2 (float (snd (snd entry)))) pred_val ;;
  Ok (tadd total term).

(** The loss of one numeric feature in the words of the specification,
    position by position: for sequence [b] and target step [t + 1], the
    squared error between the ground truth at [t + 1] and channel [c] of the
    prediction at [t], zeroed where that ground truth is 0; per sequence the
    sum is divided by the number of non-zero ground truths, and the
    per-sequence values are averaged over the batch. *)
Definition numeric_feature_loss (pred : tensor3) (values : tensor2) (c : nat) : tnum :=
  mean
    (map (fun b =>
            let row := nth b values [] in
            let p := nth b pred [] in
            let steps := seq 0 (length row - 1) in
            let valid t := tne (nth (S t) row NaN) 0 in
            let err t := sqerr (nth (S t) row NaN) (nth c (nth t p []) NaN) in
            tdivn (tsum (map (fun t => mul_mask (err t) (valid t)) steps))
                  (count_true (map valid steps)))
         (seq 0 (length values))).

(** The sum over the numeric entries of the payload, the k-th compared with
    channel [D - (N - k)]. *)
Definition numeric_loss_spec (pred : tensor3) (numeric : dict tensor2)
  (D N : nat) : tnum :=
  tsum (map (fun p => numeric_feature_loss pred (snd (snd p)) (D - (N - fst p)))
            (combine (seq 0 (length numeric)) numeric)).

(** The payload tensor has one more step per sequence than the prediction. *)
Definition one_step_longer (values : tensor2) (pred : tensor3) : Prop :=
  Forall2 (fun (row : tensor1) (p : tensor2) => length row = S (length p)) values pred.

(** A model with one categorical and one numeric feature, no deltas; one
    sequence whose amounts are 1 and 3, the prediction for the second event
    being 1. *)
Definition amount_data : DataConf :=
  {| embeddings := [("cat"%string, {| emb_in := 1; emb_out := 2; max_value := 2 |})];
     numeric_values := [("amount"%string, "Identity"%string)] |}.

Definition amount_model : BaseMixin.t :=
  BaseMixin.init plain_conf amount_data {| processor_emb_names := ["cat"%string] |}.

Definition amount_output : Output :=
  {| out_x := [[[Fin 0; Fin 1]; [Fin 0; Fin 3]]];
     out_time_steps := [[Fin 0; Fin 1]];
     out_pred := [[[Fin 0; Fin 1]]];
     out_input_batch :=
       {| payload := [("cat"%string, [[Fin 1; Fin 1]]);
                      ("amount"%string, [[Fin 1; Fin 3]])];
          seq_lens := [2%Z] |};
     out_emb_dist := [("cat"%string, [[[Fin 0; Fin 0]]])];
     out_latent := [[Fin 0]] |}.

(** The mask of the delta loss written position by position: entry [i] of a
    sequence is read off the raw time-step at position [i + 1]. *)
Definition next_step_mask (time_steps : tensor2) : list (list bool) :=
  map (fun row : tensor1 =>
         map (fun i => tne (nth (S i) row NaN) (-1)) (seq 0 (length row - 1)))
      time_steps.

(** Every sequence of time-steps is one longer than its predicted deltas. *)
Definition deltas_fit (time_steps pred_delta : tensor2) : Prop :=
  Forall2 (fun row p : tensor1 => length row = S (length p)) time_steps pred_delta.

(** One numeric feature whose only sequence is padded after the first event. *)
Definition padded_output : Output :=
  {| out_x := [[[Fin 0; Fin 1]; [Fin 0; Fin 0]]];
     out_time_steps := [[Fin 0; Fin (-1)]];
     out_pred := [[[Fin 0; Fin 1]]];
     out_input_batch :=
       {| payload := [("cat"%string, [[Fin 1; Fin 0]]);
                      ("amount"%string, [[Fin 1; Fin 0]])];
          seq_lens := [1%Z] |};
     out_emb_dist := [("cat"%string, [[[Fin 0; Fin 0]]])];
     out_latent := [[Fin 0]] |}.

(** The delta loss in the words of the specification: over the positions
    [(b, i)] whose raw time-step at [i + 1] is not -1, the sum of the squared
    errors between the difference of the time-steps at [i + 1] and [i] and
    the trailing scalar of the prediction at [i], divided by the number of
    those positions. *)
Definition fused_delta_average (time_steps : tensor2) (pred : tensor3) : tnum :=
  let terms :=
    flat_map (fun b =>
                let row := nth b time_steps [] in
                let p := nth b pred [] in
                map (fun i =>
                       (tne (nth (S i) row NaN) (-1),
                        sqerr (tsub (nth (S i) row NaN) (nth i row NaN))
                              (last (nth i p []) NaN)))
                    (seq 0 (length row - 1)))
             (seq 0 (length time_steps)) in
  let valid := filter fst terms in
  tdivn (tsum (map snd valid)) (length valid).

(** Two sequences of two events each, with time differences 1 and 2, both
    predicted exactly. *)
Definition pair_output : Output :=
  {| out_x := [[[Fin 0; Fin 1]; [Fin 0; Fin 0]]; [[Fin 0; Fin 2]; [Fin 0; Fin 0]]];
     out_time_steps := [[Fin 0; Fin 1]; [Fin 0; Fin 2]];
     out_pred := [[[Fin 0; Fin 1]]; [[Fin 0; Fin 2]]];
     out_input_batch :=
       {| payload := [("cat"%string, [[Fin 1; Fin 1]; [Fin 1; Fin 1]])];
          seq_lens := [2%Z; 2%Z] |};
     out_emb_dist := [("cat"%string, [[[Fin 0; Fin 0]]; [[Fin 0; Fin 0]]])];
     out_latent := [[Fin 0]; [Fin 0]] |}.

(** One row of the batch in the words of the specification. *)
Definition cell_row (self : GRUCell.t) (input global_context previous_hidden : tensor1)
  : tensor1 :=
  let H := GRUCell.hidden_size self in
  let h_mix := map GELU (affine (GRUCell.mix_global self)
                                (global_context ++ previous_hidden)) in
  let x_t := affine (GRUCell.x2h self) input in
  let h_t := affine (GRUCell.h2h self) h_mix in
  let x_reset := firstn H x_t in
  let x_update := firstn H (skipn H x_t) in
  let x_candidate := firstn H (skipn H (skipn H x_t)) in
  let h_reset := firstn H h_t in
  let h_update := firstn H (skipn H h_t) in
  let h_candidate := firstn H (skipn H (skipn H h_t)) in
  let reset := map2 (fun a b => sigmoid (tadd a b)) x_reset h_reset in
  let update := map2 (fun a b => sigmoid (tadd a b)) x_update h_update in
  let candidate :=
    map2 (fun a b => ttanh (tadd a b)) x_candidate (map2 tmul reset h_candidate) in
  map2 tadd (map2 tmul update h_mix)
            (map2 tmul (map (fun u => tsub (Fin 1) u) update) candidate).

(** A cell with one input, one hidden and one global unit. *)
Definition unit_cell : GRUCell.t :=
  {| GRUCell.input_size := 1; GRUCell.hidden_size := 1; GRUCell.bias := true;
     GRUCell.x2h :=
       {| in_features := 1; out_features := 3;
          weight := [[Fin 1]; [Fin 1]; [Fin 1]];
          lin_bias := Some [Fin 0; Fin 0; Fin 0] |};
     GRUCell.h2h :=
       {| in_features := 1; out_features := 3;
          weight := [[Fin 1]; [Fin 1]; [Fin 1]];
          lin_bias := Some [Fin 0; Fin 0; Fin 0] |};
     GRUCell.mix_global :=
       {| in_features := 2; out_features := 1;
          weight := [[Fin 1; Fin 1]];
          lin_bias := Some [Fin 0] |} |}.

(** Replacing position [k] of a list. *)
Definition list_upd {A : Type} (l : list A) (k : nat) (a : A) : list A :=
  firstn k l ++ a :: skipn (S k) l.

(** A decoder of one layer with the unit cell. *)
Definition unit_decoder : DecoderGRU.t :=
  {| DecoderGRU.input_size := 1; DecoderGRU.hidden_size := 1;
     DecoderGRU.global_hidden_size := 1; DecoderGRU.num_layers := 1;
     DecoderGRU.bias := true; DecoderGRU.rnn_cell_list := [unit_cell] |}.

Definition finite (x : tnum) : Prop :=
  match x with Fin _ => True | _ => False end.

(** The valid flag and the squared delta error of every position of one
    sequence. *)
Definition delta_terms (row : tensor1) (p : tensor2) : list (bool * tnum) :=
  map (fun i =>
         (tne (nth (S i) row NaN) (-1),
          sqerr (tsub (nth (S i) row NaN) (nth i row NaN)) (last (nth i p []) NaN)))
      (seq 0 (length row - 1)).

Section Recurrence.
Variables (self : DecoderGRU.t) (input : tensor3) (global_context : tensor2).
Variable h0 : list tensor2.

(** One timestep in the words of the specification: the cell of layer [l]
    receives the input of the step when [l = 0] and the output of layer
    [l - 1] at the same step otherwise; its previous-hidden argument is
    [prev l], the state the same layer had before the step. *)
Fixpoint layer_out (prev : nat -> result tensor2) (x : result tensor2) (l : nat)
  : result tensor2 :=
  cell <- list_get (DecoderGRU.rnn_cell_list self) l ;;
  inp <- match l with O => x | S l' => layer_out prev x l' end ;;
  p <- prev l ;;
  GRUCell.forward cell inp global_context (Some p).

(** The state of layer [l] after step [t]. *)
Fixpoint hidden_at (t l : nat) {struct t} : result tensor2 :=
  layer_out (match t with O => list_get h0 | S t' => hidden_at t' end)
            (at_step input t) l.

(** The state of a layer before step [t]: the initial state, or what the
    layer returned at step [t - 1]. *)
Definition hidden_before (t : nat) : nat -> result tensor2 :=
  match t with O => list_get h0 | S t' => hidden_at t' end.
End Recurrence.

(** The sum of the squares of a list of reals. *)
Definition sum_squares (rs : list R) : R := fold_right (fun r acc => r * r + acc) 0 rs.

(** One row divided by its own norm. *)
Definition unit_row (row : tensor1) : tensor1 :=
  let n := tsqrt (tsum (map (fun v => tmul v v) row)) in
  map (fun v => tdiv v n) row.

(** A model with one numeric feature and no categorical one, and a batch of
    one sequence of two events for it. *)
Definition numeric_data : DataConf :=
  {| embeddings := [];
     numeric_values := [("amount"%string, "Identity"%string)] |}.

Definition numeric_model : BaseMixin.t :=
  BaseMixin.init plain_conf numeric_data {| processor_emb_names := [] |}.

Definition numeric_output : Output :=
  {| out_x := [[[Fin 1]; [Fin 3]]];
     out_time_steps := [[Fin 0; Fin 1]];
     out_pred := [[[Fin 1]]];
     out_input_batch :=
       {| payload := [("amount"%string, [[Fin 1; Fin 3]])]; seq_lens := [2%Z] |};
     out_emb_dist := [];
     out_latent := [[Fin 0]] |}.

(** Some vector of the prediction exists, so that its width is observable. *)
Definition has_vector (pred : tensor3) : Prop :=
  exists s, In s pred /\ s <> [].

(** A payload with one numeric entry more than [numeric_model] configures. *)
Definition surplus_items : dict tensor2 :=
  [("amount"%string, [[Fin 1; Fin 3]]); ("balance"%string, [[Fin 2; Fin 5]])].

(** A model configured with two numeric features. *)
Definition two_numeric_data : DataConf :=
  {| embeddings := [];
     numeric_values := [("amount"%string, "Identity"%string);
                        ("balance"%string, "Identity"%string)] |}.

Definition two_numeric_model : BaseMixin.t :=
  BaseMixin.init plain_conf two_numeric_data {| processor_emb_names := [] |}.

(** A value that is not below zero: a real at least 0, +inf, or NaN. *)
Definition not_negative (x : tnum) : Prop :=
  match x with
  | Fin r => 0 <= r
  | NInf => False
  | _ => True
  end.

(** A non-finite prediction at the padded second target of a sequence. *)
Definition poisoned_pred : tensor3 := [[[Fin 1]; [NaN]]].
Definition poisoned_values : tensor2 := [[Fin 1; Fin 1; Fin 0]].

(** Two payloads with the same keys in the same order whose tensors agree
    from the second event of every sequence on. *)
Definition same_after_first (p p' : dict tensor2) : Prop :=
  Forall2 (fun kv kv' : string * tensor2 =>
             fst kv = fst kv' /\ drop_first2 (snd kv) = drop_first2 (snd kv'))
          p p'.

(** The output dictionary with another payload in its input batch. *)
Definition with_payload (output : Output) (p : dict tensor2) : Output :=
  {| out_x := out_x output;
     out_time_steps := out_time_steps output;
     out_pred := out_pred output;
     out_input_batch :=
       {| payload := p; seq_lens := seq_lens (out_input_batch output) |};
     out_emb_dist := out_emb_dist output;
     out_latent := out_latent output |}.

(** The label that the cross-entropy of a feature meets at step [t] of
    sequence [b]: the payload value of the next event, truncated. *)
Definition label_at (values : tensor2) (b t : nat) : Z :=
  long1 (nth (S t) (nth b values []) NaN).

(** A batch for [delta_model] whose categorical labels after the first
    event are all padding. *)
Definition padding_batch : PaddedBatch :=
  {| payload := [("cat"%string, [[Fin 1; Fin 0]])]; seq_lens := [1%Z] |}.

(** A batch for [delta_model] with the label 2 where two classes exist. *)
Definition overflow_batch : PaddedBatch :=
  {| payload := [("cat"%string, [[Fin 1; Fin 2]])]; seq_lens := [2%Z] |}.

(** A batch of [B] vectors of width [W]. *)
Definition shape2 (B W : nat) (t : tensor2) : Prop :=
  length t = B /\ Forall (fun v : tensor1 => length v = W) t.

(** A batch of [B] sequences of [T] vectors of width [W]. *)
Definition shape3 (B T W : nat) (t : tensor3) : Prop :=
  length t = B /\ Forall (shape2 T W) t.

(** What [GRUCell.__init__] establishes of the cell it returns: the sizes
    it was called with and linear maps of the matching shapes. *)
Definition GRUCell_constructor
  (new_cell : nat -> nat -> nat -> nat -> bool -> GRUCell.t) : Prop :=
  forall l i h g b,
    GRUCell.input_size (new_cell l i h g b) = i
    /\ GRUCell.hidden_size (new_cell l i h g b) = h
    /\ GRUCell.bias (new_cell l i h g b) = b
    /\ GRUCell.built (new_cell l i h g b) g.

(** A linear map whose parameters are all zero. *)
Definition zero_linear (n_in n_out : nat) (has_bias : bool) : Linear :=
  {| in_features := n_in;
     out_features := n_out;
     weight := repeat (repeat (Fin 0) n_in) n_out;
     lin_bias := if has_bias then Some (repeat (Fin 0) n_out) else None |}.

(** A cell whose parameters are all zero. *)
Definition zero_cell (l i h g : nat) (b : bool) : GRUCell.t :=
  {| GRUCell.input_size := i;
     GRUCell.hidden_size := h;
     GRUCell.bias := b;
     GRUCell.x2h := zero_linear i (3 * h) b;
     GRUCell.h2h := zero_linear h (3 * h) b;
     GRUCell.mix_global := zero_linear (h + g) h true |}.

(** A two-layer decoder of zero parameters, and two inputs of one sequence
    of two steps that differ in the second step only. *)
Definition zero_decoder : DecoderGRU.t := DecoderGRU_init zero_cell 1 2 1 2 true.
Definition steps_12 : tensor3 := [[[Fin 1]; [Fin 2]]].
Definition steps_13 : tensor3 := [[[Fin 1]; [Fin 3]]].

(** A two-layer decoder all of whose weights and biases are 1, and an
    initial state for its two layers on a batch of one sequence. *)
Definition ones_linear (n_in n_out : nat) (has_bias : bool) : Linear :=
  {| in_features := n_in;
     out_features := n_out;
     weight := repeat (repeat (Fin 1) n_in) n_out;
     lin_bias := if has_bias then Some (repeat (Fin 1) n_out) else None |}.

Definition ones_cell (l i h g : nat) (b : bool) : GRUCell.t :=
  {| GRUCell.input_size := i;
     GRUCell.hidden_size := h;
     GRUCell.bias := b;
     GRUCell.x2h := ones_linear i (3 * h) b;
     GRUCell.h2h := ones_linear h (3 * h) b;
     GRUCell.mix_global := ones_linear (h + g) h true |}.

Definition ones_decoder : DecoderGRU.t := DecoderGRU_init ones_cell 1 2 1 2 true.

Definition two_layer_state : list tensor2 :=
  [[[Fin 1; Fin (-1)]]; [[Fin 2; Fin 0]]].

(** What [nn.Linear(n_in, n_out)] establishes of the map it returns. *)
Definition Linear_constructor (new_linear : string -> nat -> nat -> Linear) : Prop :=
  forall name n_in n_out, Linear_shaped (new_linear name n_in n_out) n_in n_out true.

(** The block of channels that belongs to the categorical feature at
    position [i]: [d] channels from channel [i * d] on. *)
Definition feature_block (d i : nat) (v : tensor1) : tensor1 :=
  firstn d (skipn (i * d) v).

(** A linear map of zero parameters for every head. *)
Definition zero_head (name : string) (n_in n_out : nat) : Linear :=
  zero_linear n_in n_out true.

(** Two categorical features of embedding width 1, with 2 and 3 classes. *)
Definition two_cat_data : DataConf :=
  {| embeddings :=
       [("kind"%string, {| emb_in := 1; emb_out := 2; max_value := 2 |});
        ("code"%string, {| emb_in := 2; emb_out := 3; max_value := 3 |})];
     numeric_values := [] |}.

(** The channel that [SeqGen.forward] appends at step [t] of a sequence
    with time-steps [row]: the difference to the next time-step, 0 at the
    last step. *)
Definition delta_channel (row : tensor1) (t : nat) : tnum :=
  if Nat.ltb (S t) (length row)
  then tsub (nth (S t) row NaN) (nth t row NaN)
  else Fin 0.

(** [x] with the delta channel appended, position by position. *)
Definition with_delta_channel (x : tensor3) (time_steps : tensor2) : tensor3 :=
  map (fun b =>
         map (fun t => nth t (nth b x []) [] ++ [delta_channel (nth b time_steps []) t])
             (seq 0 (length (nth b x []))))
      (seq 0 (length x)).

(** A configuration with deltas and a batch of one sequence of two events. *)
Definition two_events_x : tensor3 := [[[Fin 5]; [Fin 6]]].
Definition two_events_times : tensor2 := [[Fin 1; Fin 4]].

(** The payload of a batch fits a configuration and a prediction of [B]
    sequences of [T] steps: every categorical feature is present with [B]
    sequences of [T + 1] events, and every label after the first event is
    the padding 0 or a class below the feature's [max_value]. *)
Definition labels_fit (dc : DataConf) (batch : PaddedBatch) (B T : nat) : Prop :=
  forall name conf,
    In (name, conf) (embeddings dc) ->
    exists values,
      dict_get (payload batch) name = Ok values
      /\ length values = B
      /\ Forall (fun row : tensor1 =>
                   length row = S T
                   /\ Forall (fun x => (0 <= long1 x < Z.of_nat (max_value conf))%Z)
                             (tl row))
                values.

(** A batch for [two_cat_data]: one sequence of two events. *)
Definition two_cat_batch : PaddedBatch :=
  {| payload := [("kind"%string, [[Fin 1; Fin 1]]); ("code"%string, [[Fin 2; Fin 0]])];
     seq_lens := [2%Z] |}.

(** A batch for [skew_model] whose only categorical feature is padding
    after the first event. *)
Definition padding_output : Output :=
  {| out_x := [[[Fin 0]; [Fin 0]]];
     out_time_steps := [[Fin 0; Fin 1]];
     out_pred := [[[Fin 0]]];
     out_input_batch := padding_batch;
     out_emb_dist := [("cat"%string, [[[Fin 0; Fin 0]]])];
     out_latent := [[Fin 0]] |}.

(** ** The losses over the reals *)

(** Tensors all of whose entries are finite. *)
Definition lift2 (m : list (list R)) : tensor2 := map (map Fin) m.
Definition lift3 (t : list (list (list R))) : tensor3 := map (map (map Fin)) t.

Definition sum_R (l : list R) : R := fold_right Rplus 0 l.

(** The target steps of a sequence that are kept: step [t] has its target
    at position [t + 1], and it is kept when that target is not the padding
    value. *)
Definition kept_steps (pad : R) (row : list R) : list nat :=
  filter (fun t => if Req_dec_T (nth (S t) row 0) pad then false else true)
         (seq 0 (length row - 1)).


(** One sequence of one numeric feature: the squared errors between the
    target at [t + 1] and channel [c] of the prediction at [t], summed over
    the targets that are not 0 and divided by their number. *)
Definition seq_loss_R (row : list R) (p : list (list R)) (c : nat) : R :=
  sum_R (map (fun t => (nth (S t) row 0 - nth c (nth t p []) 0)²)
             (kept_steps 0 row))
  / INR (length (kept_steps 0 row)).

(** One numeric feature: the average of the sequences. *)
Definition feature_loss_R (pred : list (list (list R))) (values : list (list R))
  (c : nat) : R :=
  sum_R (map (fun b => seq_loss_R (nth b values []) (nth b pred []) c)
             (seq 0 (length values)))
  / INR (length values).

(** The sum over the numeric features, the k-th read against channel
    [D - (N - k)]. *)
Definition numeric_loss_R (pred : list (list (list R)))
  (numeric : dict (list (list R))) (D N : nat) : R :=
  sum_R (map (fun p => feature_loss_R pred (snd (snd p)) (D - (N - fst p)))
             (combine (seq 0 (length numeric)) numeric)).

(** A model with one categorical and two numeric features, no deltas, and a
    batch of two sequences of three events: the last amount of the first
    sequence and the second amount of the second are padding, as is the last
    balance of the first sequence. *)
Definition masked_data : DataConf :=
  {| embeddings := [("cat"%string, {| emb_in := 1; emb_out := 2; max_value := 2 |})];
     numeric_values := [("amount"%string, "Identity"%string);
                        ("balance"%string, "Identity"%string)] |}.

Definition masked_model : BaseMixin.t :=
  BaseMixin.init plain_conf masked_data {| processor_emb_names := ["cat"%string] |}.

Definition masked_pred : list (list (list R)) :=
  [[[0; 1; 2]; [0; 3; 1]]; [[0; 2; 2]; [0; 1; 4]]].

Definition masked_numeric : dict (list (list R)) :=
  [("amount"%string, [[1; 3; 0]; [2; 0; 5]]);
   ("balance"%string, [[4; 4; 0]; [1; 5; 2]])].

Definition masked_output : Output :=
  {| out_x := lift3 [[[0; 1; 4]; [0; 3; 4]; [0; 0; 0]];
                     [[0; 2; 1]; [0; 0; 5]; [0; 5; 2]]];
     out_time_steps := lift2 [[0; 1; 2]; [0; 1; 2]];
     out_pred := lift3 masked_pred;
     out_input_batch :=
       {| payload :=
            ("cat"%string, lift2 [[1; 1; 1]; [1; 1; 1]])
            :: map (fun kv => (fst kv, lift2 (snd kv))) masked_numeric;
          seq_lens := [3%Z; 3%Z] |};
     out_emb_dist := [("cat"%string, lift3 [[[0; 0]; [0; 0]]; [[0; 0]; [0; 0]]])];
     out_latent := [[Fin 0]; [Fin 0]] |}.

(** The channel that the Python index [- n] reads in a vector of [D]
    channels: counted from the end for a positive [n], from the front
    otherwise. *)
Definition indexed_channel (D : nat) (n : Z) : nat :=
  if (0 <? n)%Z then (D - Z.to_nat n)%nat else Z.to_nat (- n).

(** The per-feature losses of the numeric entries added up, the k-th entry
    read against the channel at index [- (n - k)]. *)
Definition countdown_loss (pred : tensor3) (numeric : dict tensor2)
  (D : nat) (n : Z) : tnum :=
  tsum (map (fun p =>
               numeric_feature_loss pred (snd (snd p))
                 (indexed_channel D (n - Z.of_nat (fst p))))
            (combine (seq 0 (length numeric)) numeric)).

(** The batch of [masked_output] without its amounts: the balance is the
    only numeric entry of the payload, while the model configures two. *)
Definition balance_output : Output :=
  {| out_x := out_x masked_output;
     out_time_steps := out_time_steps masked_output;
     out_pred := out_pred masked_output;
     out_input_batch :=
       {| payload :=
            [("cat"%string, lift2 [[1; 1; 1]; [1; 1; 1]]);
             ("balance"%string, lift2 [[4; 4; 0]; [1; 5; 2]])];
          seq_lens := [3%Z; 3%Z] |};
     out_emb_dist := out_emb_dist masked_output;
     out_latent := out_latent masked_output |}.

(** The squared delta errors of one sequence at the kept positions: over
    the steps [i] whose time-step at [i + 1] is not -1, the difference
    between the elapsed time and the predicted delta, squared. *)
Definition delta_errors_R (row p : list R) : list R :=
  map (fun i => (nth (S i) row 0 - nth i row 0 - nth i p 0)²)
      (kept_steps (-1) row).

(** The delta loss: one average over the kept positions of the batch. *)
Definition delta_loss_R (time_steps pred_delta : list (list R)) : R :=
  let terms := concat (map2 delta_errors_R time_steps pred_delta) in
  sum_R terms / INR (length terms).

(** A model with deltas, one categorical and two numeric features: four
    predicted channels; one sequence of two events. *)
Definition layout_model : BaseMixin.t :=
  BaseMixin.init delta_conf masked_data {| processor_emb_names := ["cat"%string] |}.

Definition layout_output : Output :=
  {| out_x := [[[Fin 0; Fin 1; Fin 2; Fin 1]; [Fin 0; Fin 3; Fin 5; Fin 0]]];
     out_time_steps := [[Fin 0; Fin 1]];
     out_pred := [[[Fin 0; Fin 1; Fin 2; Fin 3]]];
     out_input_batch :=
       {| payload := [("cat"%string, [[Fin 1; Fin 1]]);
                      ("amount"%string, [[Fin 1; Fin 3]]);
                      ("balance"%string, [[Fin 2; Fin 5]])];
          seq_lens := [2%Z] |};
     out_emb_dist := [("cat"%string, [[[Fin 0; Fin 0]]])];
     out_latent := [[Fin 0]] |}.

(** The sum of the exponentials of a list of finite scores. *)
Definition sum_exp (rs : list R) : R := fold_right (fun r acc => exp r + acc) 0 rs.

(** * Properties *)

(** ** The error monad *)

Lemma bind_ok {A B : Type} (m : result A) (k : A -> result B) (b : B) :
  bind m k = Ok b -> exists a, m = Ok a /\ k a = Ok b.
Proof. destruct m as [a | e]; simpl; intros H; [eauto | discriminate]. Qed.

Tactic Notation "inv_bind" hyp(H) "as" ident(a) ident(Ha) :=
  apply bind_ok in H; destruct H as (a & Ha & H).

Lemma mapM_ok_length {A B : Type} (f : A -> result B) (l : list A) (r : list B) :
  mapM f l = Ok r -> length r = length l.
Proof.
  revert r; induction l as [| a l IH]; simpl; intros r H.
  - inversion H; reflexivity.
  - inv_bind H as b Hb. inv_bind H as bs Hbs. inversion H; subst; simpl.
    f_equal; eauto.
Qed.

Lemma mapM_pure {A B : Type} (f : A -> B) (l : list A) :
  mapM (fun a => Ok (f a)) l = Ok (map f l).
Proof. induction l as [| a l IH]; simpl; [reflexivity | rewrite IH; reflexivity]. Qed.

Lemma mapM_ext_in {A B : Type} (f g : A -> result B) (l : list A) :
  (forall a, In a l -> f a = g a) -> mapM f l = mapM g l.
Proof.
  induction l as [| a l IH]; simpl; intros H; [reflexivity |].
  rewrite (H a) by auto. rewrite IH by auto. reflexivity.
Qed.

Lemma zipM_pure {A B C : Type} (f : A -> B -> C) (xs : list A) (ys : list B) :
  length xs = length ys ->
  zipM (fun a b => Ok (f a b)) xs ys = Ok (map (fun p => f (fst p) (snd p)) (combine xs ys)).
Proof.
  revert ys; induction xs as [| x xs IH]; intros [| y ys]; simpl; intros H;
    try discriminate; [reflexivity |].
  rewrite IH by lia. reflexivity.
Qed.

Lemma zipM_ok_length {A B C : Type} (f : A -> B -> result C) xs ys r :
  zipM f xs ys = Ok r -> length xs = length ys /\ length r = length xs.
Proof.
  revert ys r; induction xs as [| x xs IH]; intros [| y ys] r; simpl; intros H;
    try discriminate.
  - inversion H; auto.
  - inv_bind H as c Hc. inv_bind H as cs Hcs. inversion H; subst; simpl.
    destruct (IH _ _ Hcs); split; congruence.
Qed.

(** ** Dictionaries *)

Lemma dict_get_set_same {V : Type} (d : dict V) (k : string) (v : V) :
  dict_get (dict_set d k v) k = Ok v.
Proof.
  induction d as [| [k' v'] d IH]; simpl.
  - rewrite String.eqb_refl; reflexivity.
  - destruct (String.eqb k' k) eqn:E; simpl; rewrite E; auto.
Qed.

Lemma dict_get_set_other {V : Type} (d : dict V) (k k' : string) (v : V) :
  k <> k' -> dict_get (dict_set d k v) k' = dict_get d k'.
Proof.
  intros Hne. induction d as [| [k0 v0] d IH]; simpl.
  - destruct (String.eqb k k') eqn:E; [apply String.eqb_eq in E; contradiction | reflexivity].
  - destruct (String.eqb k0 k) eqn:E; simpl.
    + apply String.eqb_eq in E; subst k0.
      destruct (String.eqb k k') eqn:E'; [apply String.eqb_eq in E'; contradiction | reflexivity].
    + rewrite IH; reflexivity.
Qed.

Lemma keys_dict_set_in {V : Type} (d : dict V) (k k' : string) (v : V) :
  In k' (keys (dict_set d k v)) <-> k' = k \/ In k' (keys d).
Proof.
  induction d as [| [k0 v0] d IH]; simpl.
  - intuition.
  - destruct (String.eqb k0 k) eqn:E; simpl.
    + apply String.eqb_eq in E; subst. intuition.
    + rewrite IH. intuition.
Qed.

Lemma dict_get_in_keys {V : Type} (d : dict V) (k : string) :
  In k (keys d) <-> exists v, dict_get d k = Ok v.
Proof.
  induction d as [| [k0 v0] d IH]; simpl.
  - split; [tauto | intros [v H]; discriminate].
  - destruct (String.eqb k0 k) eqn:E.
    + apply String.eqb_eq in E. split; eauto.
    + rewrite IH. split; [intros [H | H] | ]; try tauto.
      subst. rewrite String.eqb_refl in E; discriminate.
Qed.

Lemma dict_update_get_notin {V : Type} (other d : dict V) (k : string) :
  ~ In k (keys other) -> dict_get (dict_update d other) k = dict_get d k.
Proof.
  unfold dict_update. revert d.
  induction other as [| [k0 v0] other IH]; simpl; intros d Hn; [reflexivity |].
  rewrite IH by tauto. apply dict_get_set_other. tauto.
Qed.

Lemma keys_dict_update_in {V : Type} (other d : dict V) (k : string) :
  In k (keys (dict_update d other)) <-> In k (keys d) \/ In k (keys other).
Proof.
  unfold dict_update. revert d.
  induction other as [| [k0 v0] other IH]; simpl; intros d; [tauto |].
  rewrite IH, keys_dict_set_in. intuition.
Qed.

(** ** The shape of the full model loss *)

Lemma sum_cat_ok (values : list tnum) (v : tnum) :
  BaseMixin.sum_cat values = Ok v <-> values <> [] /\ v = tsum values.
Proof.
  destruct values; simpl; split.
  - discriminate.
  - intros [H _]; congruence.
  - intros H; inversion H; split; [discriminate | reflexivity].
  - intros [_ ->]; reflexivity.
Qed.

Lemma loss_of_run (self : BaseMixin.t) (output : Output) (r : loss_run self output) :
  BaseMixin.loss self output =
  (mse_entry <- dict_get (run_entries r) "total_mse_loss"%string ;;
   Ok (dict_set (run_entries r) "total_loss"%string
         (weighted_total (BaseMixin.model_conf self) mse_entry
            (tsum (map snd (run_ce r))) (run_delta r)))).
Proof.
  unfold BaseMixin.loss.
  rewrite (run_split _ _ r); simpl.
  rewrite (run_mse_ok _ _ r); simpl.
  rewrite (run_delta_ok _ _ r); simpl.
  rewrite (run_ce_ok _ _ r); simpl.
  pose proof (run_ce_nonempty _ _ r) as Hne.
  assert (Hs : BaseMixin.sum_cat (map snd (run_ce r)) = Ok (tsum (map snd (run_ce r)))).
  { apply sum_cat_ok. split; [| reflexivity]. destruct (run_ce r); [congruence | discriminate]. }
  rewrite Hs; reflexivity.
Qed.

Lemma loss_run_of_ok (self : BaseMixin.t) (output : Output) (d : dict tnum) :
  BaseMixin.loss self output = Ok d -> inhabited (loss_run self output).
Proof.
  unfold BaseMixin.loss. intros H.
  inv_bind H as sp Hsp. destruct sp as [[pd pred] gt].
  inv_bind H as mse Hmse. inv_bind H as delta Hdelta.
  inv_bind H as ce Hce. inv_bind H as ce_total Htotal.
  apply sum_cat_ok in Htotal. destruct Htotal as [Hne _].
  assert (Hne' : ce <> []) by (intros ->; apply Hne; reflexivity).
  exact (inhabits (Build_loss_run self output pd pred gt mse delta ce
                     Hsp Hmse Hdelta Hce Hne')).
Qed.

(** ** Evaluating on concrete reals *)

Ltac real_dec :=
  repeat match goal with
  | |- context [Req_dec_T ?a ?b] =>
      destruct (Req_dec_T a b); try (exfalso; lra)
  | |- context [total_order_T ?a ?b] =>
      destruct (total_order_T a b) as [[? | ?] | ?]; try (exfalso; lra)
  | |- context [Rlt_dec ?a ?b] =>
      destruct (Rlt_dec a b); try (exfalso; lra)
  | |- context [Rle_dec ?a ?b] =>
      destruct (Rle_dec a b); try (exfalso; lra)
  end.

Lemma Int_part_IZR (z : Z) : Int_part (IZR z) = z.
Proof.
  unfold Int_part.
  assert (H : (z + 1)%Z = up (IZR z)).
  { apply tech_up; rewrite plus_IZR; lra. }
  rewrite <- H. lia.
Qed.

Lemma trunc_R_IZR (z : Z) : trunc_R (IZR z) = z.
Proof.
  unfold trunc_R. destruct (Rle_dec 0 (IZR z)) as [H | H].
  - apply Int_part_IZR.
  - rewrite <- opp_IZR, Int_part_IZR. lia.
Qed.

Lemma ln_2_pos : 0 < ln 2.
Proof. rewrite <- ln_1. apply ln_increasing; lra. Qed.

(** ** The per-feature cross-entropy entries *)

Lemma loss_items_keys (self : EmbeddingPredictor.t) (items : dict tensor3)
  (batch : PaddedBatch) (acc r : dict tnum) :
  EmbeddingPredictor.loss_items self items batch acc = Ok r ->
  forall k, In k (keys r) <-> In k (keys acc) \/ In k (keys items).
Proof.
  revert acc r. induction items as [| [name dist] items IH]; simpl; intros acc r H k.
  - inversion H; subst. tauto.
  - inv_bind H as values Hv. inv_bind H as l Hl.
    rewrite (IH _ _ H k), keys_dict_set_in. intuition.
Qed.

Lemma embedding_loss_keys (self : EmbeddingPredictor.t) (dists : dict tensor3)
  (batch : PaddedBatch) (r : dict tnum) :
  EmbeddingPredictor.loss self dists batch = Ok r ->
  forall k, In k (keys r) <-> In k (keys dists).
Proof.
  intros H k. rewrite (loss_items_keys _ _ _ _ _ H k). simpl. tauto.
Qed.

Lemma run_masked_delta (self : BaseMixin.t) (output : Output)
  (r : loss_run self output) :
  masked_delta_loss self output = Ok (run_delta r).
Proof.
  unfold masked_delta_loss. rewrite (run_split _ _ r); simpl.
  apply (run_delta_ok _ _ r).
Qed.

Lemma run_numeric (self : BaseMixin.t) (output : Output)
  (r : loss_run self output) :
  numeric_loss self output = Ok (run_mse r).
Proof.
  unfold numeric_loss. rewrite (run_split _ _ r); simpl.
  apply (run_mse_ok _ _ r).
Qed.

Lemma run_entries_get_base (self : BaseMixin.t) (output : Output)
  (r : loss_run self output) (k : string) :
  ~ In k (keys (out_emb_dist output)) ->
  dict_get (run_entries r) k =
  dict_get (base_entries (BaseMixin.model_conf self) (run_mse r)
              (tsum (map snd (run_ce r))) (run_delta r)) k.
Proof.
  intros Hn. unfold run_entries. apply dict_update_get_notin.
  rewrite (embedding_loss_keys _ _ _ _ (run_ce_ok _ _ r)). exact Hn.
Qed.

Lemma run_entries_keys (self : BaseMixin.t) (output : Output)
  (r : loss_run self output) (k : string) :
  In k (keys (run_entries r)) <->
  In k ["total_mse_loss"; "total_CE_loss"; "delta_loss"]%string
  \/ In k (keys (out_emb_dist output)).
Proof.
  unfold run_entries. rewrite keys_dict_update_in.
  rewrite (embedding_loss_keys _ _ _ _ (run_ce_ok _ _ r)). reflexivity.
Qed.

Lemma loss_of_run_ok (self : BaseMixin.t) (output : Output)
  (r : loss_run self output) :
  exists mse_entry,
    dict_get (run_entries r) "total_mse_loss"%string = Ok mse_entry /\
    BaseMixin.loss self output =
    Ok (dict_set (run_entries r) "total_loss"%string
          (weighted_total (BaseMixin.model_conf self) mse_entry
             (tsum (map snd (run_ce r))) (run_delta r))).
Proof.
  assert (Hin : In "total_mse_loss"%string (keys (run_entries r))).
  { apply run_entries_keys. left. simpl. auto. }
  apply dict_get_in_keys in Hin. destruct Hin as [v Hv].
  exists v. split; [exact Hv |].
  rewrite (loss_of_run _ _ r), Hv. reflexivity.
Qed.

(** ** A small model with deltas: one categorical feature, no numeric one *)

Lemma delta_output_split :
  BaseMixin.split_delta delta_model delta_output
  = Ok (Some (Rank1 [Fin 0]), [[[Fin 0]]], [[[Fin 0]]]).
Proof. reflexivity. Qed.

Lemma delta_output_delta :
  BaseMixin.delta_branch delta_model delta_output (Some (Rank1 [Fin 0])) = Ok (Fin 1).
Proof.
  unfold BaseMixin.delta_branch, BaseMixin.delta_loss. simpl.
  unfold tne. real_dec. simpl.
  unfold sum_all, count_all; simpl. do 2 f_equal. lra.
Qed.

Lemma delta_output_ce :
  exists v,
    EmbeddingPredictor.loss (BaseMixin.embedding_predictor delta_model)
      (out_emb_dist delta_output) (out_input_batch delta_output)
    = Ok [("cat"%string, v)].
Proof.
  unfold EmbeddingPredictor.loss. simpl.
  rewrite trunc_R_IZR. unfold cross_entropy. simpl.
  real_dec; eexists; reflexivity.
Qed.

Lemma delta_output_loss :
  exists d,
    BaseMixin.loss delta_model delta_output = Ok d /\
    dict_get d "delta_loss"%string = Ok (Fin 2).
Proof.
  destruct delta_output_ce as [v Hv].
  assert (Hne : [("cat"%string, v)] <> []) by discriminate.
  pose (r := Build_loss_run delta_model delta_output _ _ _ (Fin 0) _ _
               delta_output_split eq_refl delta_output_delta Hv Hne).
  eexists. split.
  - rewrite (loss_of_run _ _ r). reflexivity.
  - simpl. f_equal. f_equal. lra.
Qed.

(** ** C2: the entries of the breakdown *)

(** C2, as the code has it: whenever the full model loss returns a
    breakdown, the entries [total_mse_loss], [total_CE_loss], [delta_loss],
    [total_loss] and one entry per categorical feature are present, whatever
    the mixing weights are; and, when no categorical feature is itself named
    [delta_loss], the [delta_loss] entry is [delta_weight] times the masked
    delta loss, not the unweighted value. *)
Theorem loss_breakdown_entries (self : BaseMixin.t) (output : Output) (d : dict tnum) :
  BaseMixin.loss self output = Ok d ->
  (forall k,
      In k ["total_mse_loss"; "total_CE_loss"; "delta_loss"; "total_loss"]%string
      \/ In k (keys (out_emb_dist output)) ->
      exists v, dict_get d k = Ok v)
  /\ (~ In "delta_loss"%string (keys (out_emb_dist output)) ->
      exists delta,
        masked_delta_loss self output = Ok delta /\
        dict_get d "delta_loss"%string
        = Ok (tmul (Fin (delta_weight (BaseMixin.model_conf self))) delta)).
Proof.
  intros H. destruct (loss_run_of_ok _ _ _ H) as [r].
  destruct (loss_of_run_ok _ _ r) as (mse_entry & _ & Hd).
  rewrite Hd in H. inversion H; subst d; clear H. split.
  - intros k Hk. apply dict_get_in_keys.
    apply keys_dict_set_in. rewrite run_entries_keys.
    simpl in Hk. simpl. intuition.
  - intros Hn. exists (run_delta r). split; [apply run_masked_delta |].
    rewrite dict_get_set_other by discriminate.
    rewrite run_entries_get_base by exact Hn. reflexivity.
Qed.

Lemma loss_breakdown_entries_witness :
  exists d,
    BaseMixin.loss delta_model delta_output = Ok d /\
    ((forall k,
         In k ["total_mse_loss"; "total_CE_loss"; "delta_loss"; "total_loss"]%string
         \/ In k (keys (out_emb_dist delta_output)) ->
         exists v, dict_get d k = Ok v)
     /\ (~ In "delta_loss"%string (keys (out_emb_dist delta_output)) ->
         exists delta,
           masked_delta_loss delta_model delta_output = Ok delta /\
           dict_get d "delta_loss"%string
           = Ok (tmul (Fin (delta_weight (BaseMixin.model_conf delta_model))) delta))).
Proof.
  destruct delta_output_loss as (d & Hd & _).
  exists d. split; [exact Hd |].
  exact (loss_breakdown_entries delta_model delta_output d Hd).
Defined.

(** C2 as stated fails: with [delta_weight = 2] the masked delta loss of the
    call is 1 and the [delta_loss] entry is 2. *)
Lemma delta_entry_unweighted_counterexample :
  exists d delta entry,
    BaseMixin.loss delta_model delta_output = Ok d /\
    masked_delta_loss delta_model delta_output = Ok delta /\
    dict_get d "delta_loss"%string = Ok entry /\
    entry <> delta.
Proof.
  destruct delta_output_loss as (d & Hd & He).
  exists d, (Fin 1), (Fin 2). repeat split; try assumption.
  - unfold masked_delta_loss. rewrite delta_output_split. simpl.
    apply delta_output_delta.
  - intros E. inversion E. lra.
Qed.

(** ** C6: the weighted total *)

Lemma run_categorical (self : BaseMixin.t) (output : Output)
  (r : loss_run self output) :
  categorical_loss self output = Ok (tsum (map snd (run_ce r))).
Proof.
  unfold categorical_loss. rewrite (run_ce_ok _ _ r); simpl.
  apply sum_cat_ok. split; [| reflexivity].
  pose proof (run_ce_nonempty _ _ r). destruct (run_ce r); [congruence | discriminate].
Qed.

(** When no categorical feature is named [total_mse_loss], the total is the
    weighted sum of the three component losses. *)
Lemma total_loss_weighted (self : BaseMixin.t) (output : Output) (d : dict tnum) :
  BaseMixin.loss self output = Ok d ->
  ~ In "total_mse_loss"%string (keys (out_emb_dist output)) ->
  exists numeric ce_total delta,
    numeric_loss self output = Ok numeric /\
    categorical_loss self output = Ok ce_total /\
    masked_delta_loss self output = Ok delta /\
    dict_get d "total_loss"%string
    = Ok (weighted_total (BaseMixin.model_conf self) numeric ce_total delta).
Proof.
  intros H Hn. destruct (loss_run_of_ok _ _ _ H) as [r].
  destruct (loss_of_run_ok _ _ r) as (mse_entry & Hm & Hd).
  rewrite Hd in H. inversion H; subst d; clear H.
  exists (run_mse r), (tsum (map snd (run_ce r))), (run_delta r).
  repeat split.
  - apply run_numeric.
  - apply run_categorical.
  - apply run_masked_delta.
  - rewrite dict_get_set_same.
    rewrite run_entries_get_base in Hm by exact Hn. simpl in Hm.
    inversion Hm; reflexivity.
Qed.

(** On finite scores the subtraction of the largest one cancels:
    [log_softmax] is the score minus the logarithm of the sum of the
    exponentials. *)
Lemma tmax_finite (rs : list R) (r : R) :
  tmax (map Fin (r :: rs)) = Fin (fold_right Rmax r rs).
Proof.
  revert r. induction rs as [| a rs IH]; intros r.
  - reflexivity.
  - change (tmax (map Fin (r :: a :: rs)))
      with (tmax2 (Fin r) (tmax (map Fin (a :: rs)))).
    rewrite IH. cbn [tmax2 fold_right]. f_equal.
    clear IH. revert r a. induction rs as [| b rs IH]; intros r a.
    + cbn [fold_right]. apply Rmax_comm.
    + cbn [fold_right]. rewrite <- (IH r b), <- (IH a b).
      rewrite !Rmax_assoc. f_equal. apply Rmax_comm.
Qed.

Lemma tsum_exp_shifted (rs : list R) (m : R) :
  tsum (map texp (map (fun x => tsub x (Fin m)) (map Fin rs)))
  = Fin (sum_exp rs * exp (- m)).
Proof.
  induction rs as [| r rs IH].
  - cbn. f_equal. lra.
  - unfold tsum in *. cbn [map fold_right]. rewrite IH.
    unfold sum_exp. cbn [fold_right tsub tneg tadd texp lift1]. f_equal.
    rewrite exp_plus. lra.
Qed.

Lemma sum_exp_pos (rs : list R) : rs <> [] -> 0 < sum_exp rs.
Proof.
  assert (H0 : forall l, 0 <= sum_exp l).
  { induction l as [| a l IH]; [unfold sum_exp; cbn [fold_right]; lra |].
    change (sum_exp (a :: l)) with (exp a + sum_exp l).
    pose proof (exp_pos a). lra. }
  destruct rs as [| r rs]; [congruence |]. intros _.
  change (sum_exp (r :: rs)) with (exp r + sum_exp rs).
  pose proof (exp_pos r). pose proof (H0 rs). lra.
Qed.

Lemma log_softmax_finite (rs : list R) :
  rs <> [] ->
  log_softmax (map Fin rs) = map (fun r => Fin (r - ln (sum_exp rs))) rs.
Proof.
  intros Hne. unfold log_softmax. cbv zeta.
  assert (Hm : exists m, tmax (map Fin rs) = Fin m).
  { destruct rs as [| r0 rs0]; [congruence |]. eexists. apply tmax_finite. }
  destruct Hm as [m Hm]. rewrite Hm, tsum_exp_shifted.
  pose proof (sum_exp_pos rs Hne) as Hpos. pose proof (exp_pos (- m)) as Hexp.
  assert (Hprod : 0 < sum_exp rs * exp (- m)) by (apply Rmult_lt_0_compat; assumption).
  unfold tln. destruct (total_order_T (sum_exp rs * exp (- m)) 0) as [[Hlt | Heq] | Hgt];
    [exfalso; lra | exfalso; lra |].
  rewrite !map_map. apply map_ext. intros r.
  cbn [tsub tneg tadd]. f_equal.
  rewrite ln_mult by assumption. rewrite ln_exp. lra.
Qed.

#[global] Arguments log_softmax : simpl never.

Ltac finite_softmax rs :=
  let H := fresh in
  pose proof (log_softmax_finite rs ltac:(discriminate)) as H;
  cbn [map] in H; rewrite H; clear H.

(** The cross-entropy of one position with two equal logits. *)
Lemma cross_entropy_even (crit : CrossEntropyLoss) :
  ignore_index crit = 0%Z -> label_smoothing crit = 0 ->
  cross_entropy crit [[[Fin 0; Fin 0]]] [[1%Z]] = Ok (Fin (ln 2)).
Proof.
  intros Hi Hs. unfold cross_entropy, ce_position. cbn.
  rewrite Hi, Hs. cbn.
  finite_softmax [0; 0].
  unfold sum_exp. cbn [nth fold_right tneg tsum tadd]. rewrite exp_0.
  real_dec. simpl. do 2 f_equal.
  replace (1 + (1 + 0)) with 2 by lra. lra.
Qed.

Lemma clash_output_ce :
  EmbeddingPredictor.loss (BaseMixin.embedding_predictor clash_model)
    (out_emb_dist clash_output) (out_input_batch clash_output)
  = Ok [("total_mse_loss"%string, Fin (ln 2))].
Proof.
  unfold EmbeddingPredictor.loss. simpl.
  rewrite trunc_R_IZR.
  rewrite cross_entropy_even by reflexivity. reflexivity.
Qed.

Definition clash_run : loss_run clash_model clash_output.
Proof.
  refine (Build_loss_run clash_model clash_output None [[[Fin 0]]] [[[Fin 0]]]
            (Fin 0) (Fin 0) [("total_mse_loss"%string, Fin (ln 2))]
            eq_refl eq_refl eq_refl clash_output_ce _).
  discriminate.
Defined.

(** C6 at the failing input: the numeric loss of the call is 0, its
    cross-entropy sum is ln 2 and its delta loss is 0, so the weighted sum is
    ln 2; the returned total is 2 ln 2, because the cross-entropy of the
    feature named [total_mse_loss] has replaced the numeric entry that the
    total reads back. *)
Theorem total_loss_name_clash :
  exists d,
    BaseMixin.loss clash_model clash_output = Ok d /\
    numeric_loss clash_model clash_output = Ok (Fin 0) /\
    categorical_loss clash_model clash_output = Ok (Fin (ln 2 + 0)) /\
    masked_delta_loss clash_model clash_output = Ok (Fin 0) /\
    weighted_total plain_conf (Fin 0) (Fin (ln 2 + 0)) (Fin 0)
    = Fin (1 * 0 + 1 * (ln 2 + 0) + 1 * 0) /\
    dict_get d "total_loss"%string = Ok (Fin (1 * ln 2 + 1 * (ln 2 + 0) + 1 * 0)) /\
    1 * ln 2 + 1 * (ln 2 + 0) + 1 * 0 <> 1 * 0 + 1 * (ln 2 + 0) + 1 * 0.
Proof.
  eexists. split; [rewrite (loss_of_run _ _ clash_run); reflexivity |].
  repeat split.
  - apply (run_categorical _ _ clash_run).
  - pose proof ln_2_pos. lra.
Qed.

(** ** C1: which criterion the full model loss applies *)

(** The constructor configures two criteria: the smoothed one of the model
    and the plain one of the classification heads. *)
Lemma init_criteria (mc : ModelConf) (dc : DataConf) (p : FeatureProcessor) :
  BaseMixin.ce_fn (BaseMixin.init mc dc p)
  = {| ignore_index := 0; label_smoothing := 15 / 100 |}
  /\ EmbeddingPredictor.criterion
       (BaseMixin.embedding_predictor (BaseMixin.init mc dc p))
     = {| ignore_index := 0; label_smoothing := 0 |}.
Proof. split; reflexivity. Qed.

Lemma mse_loop_processor (self self' : BaseMixin.t) (pred : tensor3)
  (items : dict tensor2) (total : tnum) (n : Z) :
  BaseMixin.processor self = BaseMixin.processor self' ->
  BaseMixin.mse_loop self pred items total n
  = BaseMixin.mse_loop self' pred items total n.
Proof.
  intros Hp. revert total n.
  induction items as [| [key values] items IH]; simpl; intros total n; [reflexivity |].
  rewrite Hp. destruct (negb _); [| apply IH].
  destruct (BaseMixin.mse_feature pred values n); simpl; [apply IH | reflexivity].
Qed.

(** The loss never reads [ce_fn]: two models that differ in nothing else
    return the same breakdown. *)
Lemma loss_ignores_ce_fn (self self' : BaseMixin.t) (output : Output) :
  BaseMixin.model_conf self = BaseMixin.model_conf self' ->
  BaseMixin.processor self = BaseMixin.processor self' ->
  BaseMixin.all_numeric_size self = BaseMixin.all_numeric_size self' ->
  BaseMixin.embedding_predictor self = BaseMixin.embedding_predictor self' ->
  BaseMixin.loss self output = BaseMixin.loss self' output.
Proof.
  intros Hm Hp Hn He.
  unfold BaseMixin.loss, BaseMixin.split_delta, BaseMixin.delta_branch.
  rewrite Hm, Hn, He.
  destruct (use_deltas (BaseMixin.model_conf self')); simpl.
  - destruct (select_last (out_pred output) (-1)); simpl; [| reflexivity].
    rewrite (mse_loop_processor self self') by exact Hp. reflexivity.
  - rewrite (mse_loop_processor self self') by exact Hp. reflexivity.
Qed.

(** Every entry that the classification heads' loss returns is the
    cross-entropy under the heads' own criterion. *)
Lemma loss_items_entry (self : EmbeddingPredictor.t) (items : dict tensor3)
  (batch : PaddedBatch) (acc r : dict tnum) (name : string) (dist : tensor3) :
  EmbeddingPredictor.loss_items self items batch acc = Ok r ->
  NoDup (keys items) -> In (name, dist) items ->
  exists values,
    dict_get (payload batch) name = Ok values /\
    dict_get r name
    = cross_entropy (EmbeddingPredictor.criterion self) dist
        (drop_first2 (long values)).
Proof.
  revert acc r. induction items as [| [n0 d0] items IH]; simpl; intros acc r H Hnd Hin.
  - contradiction.
  - inv_bind H as values Hv. inv_bind H as l Hl.
    inversion Hnd as [| ? ? Hnotin Hnd']; subst.
    destruct Hin as [Heq | Hin].
    + inversion Heq; subst n0 d0. exists values. split; [exact Hv |].
      assert (Hget : forall items' acc' r',
                 EmbeddingPredictor.loss_items self items' batch acc' = Ok r' ->
                 ~ In name (keys items') ->
                 dict_get r' name = dict_get acc' name).
      { clear. induction items' as [| [n1 d1] items' IH']; simpl; intros acc' r' H' Hn'.
        - inversion H'; reflexivity.
        - inv_bind H' as values' Hv'. inv_bind H' as l' Hl'.
          rewrite (IH' _ _ H') by tauto.
          apply dict_get_set_other. tauto. }
      rewrite (Hget _ _ _ H Hnotin), dict_get_set_same. symmetry; exact Hl.
    + eapply IH; eauto.
Qed.

Lemma ln_3_pos : 0 < ln 3.
Proof. rewrite <- ln_1. apply ln_increasing; lra. Qed.

Lemma skew_plain :
  cross_entropy {| ignore_index := 0; label_smoothing := 0 |}
    [[[Fin 0; Fin (ln 2)]]] [[1%Z]]
  = Ok (Fin (ln 3 - ln 2)).
Proof.
  unfold cross_entropy, ce_position. cbn.
  finite_softmax [0; ln 2].
  unfold sum_exp. cbn [nth fold_right tneg tsum tadd Pos.to_nat Pos.iter_op].
  rewrite exp_0, exp_ln by lra.
  replace (1 + (2 + 0)) with 3 by lra.
  real_dec. simpl. do 2 f_equal. lra.
Qed.

Lemma skew_smoothed :
  cross_entropy {| ignore_index := 0; label_smoothing := 15 / 100 |}
    [[[Fin 0; Fin (ln 2)]]] [[1%Z]]
  = Ok (Fin (ln 3 - 925 / 1000 * ln 2)).
Proof.
  unfold cross_entropy, ce_position. cbn.
  finite_softmax [0; ln 2].
  unfold sum_exp. cbn [nth fold_right tneg tsum tadd Pos.to_nat Pos.iter_op].
  rewrite exp_0, exp_ln by lra.
  replace (1 + (2 + 0)) with 3 by lra.
  real_dec. simpl. do 2 f_equal. lra.
Qed.

Lemma skew_output_ce :
  EmbeddingPredictor.loss (BaseMixin.embedding_predictor skew_model)
    (out_emb_dist skew_output) (out_input_batch skew_output)
  = Ok [("cat"%string, Fin (ln 3 - ln 2))].
Proof.
  unfold EmbeddingPredictor.loss. simpl.
  rewrite trunc_R_IZR.
  change (cross_entropy _ _ _) with
    (cross_entropy {| ignore_index := 0; label_smoothing := 0 |}
       [[[Fin 0; Fin (ln 2)]]] [[1%Z]]).
  rewrite skew_plain. reflexivity.
Qed.

Definition skew_run : loss_run skew_model skew_output.
Proof.
  refine (Build_loss_run skew_model skew_output None [[[Fin 0]]] [[[Fin 0]]]
            (Fin 0) (Fin 0) [("cat"%string, Fin (ln 3 - ln 2))]
            eq_refl eq_refl eq_refl skew_output_ce _).
  discriminate.
Defined.

(** C1 at the failing input: the entry that the full model loss returns for
    the categorical feature is the plain cross-entropy ln 3 - ln 2 of the
    heads' criterion, while the model's own criterion, with label smoothing
    0.15, gives ln 3 - 0.925 ln 2 on the same logits and labels. *)
Theorem loss_entry_not_smoothed :
  exists d,
    BaseMixin.loss skew_model skew_output = Ok d /\
    dict_get d "cat"%string = Ok (Fin (ln 3 - ln 2)) /\
    cross_entropy
      (EmbeddingPredictor.criterion (BaseMixin.embedding_predictor skew_model))
      [[[Fin 0; Fin (ln 2)]]] [[1%Z]] = Ok (Fin (ln 3 - ln 2)) /\
    cross_entropy (BaseMixin.ce_fn skew_model)
      [[[Fin 0; Fin (ln 2)]]] [[1%Z]] = Ok (Fin (ln 3 - 925 / 1000 * ln 2)) /\
    ln 3 - ln 2 <> ln 3 - 925 / 1000 * ln 2.
Proof.
  eexists. split; [rewrite (loss_of_run _ _ skew_run); reflexivity |].
  split; [reflexivity |].
  split; [exact skew_plain |].
  split; [exact skew_smoothed |].
  pose proof ln_2_pos. lra.
Qed.

(** ** Pointwise operations on tensors of equal shape *)

Lemma map2_length {A B C : Type} (f : A -> B -> C) xs ys :
  length xs = length ys -> length (map2 f xs ys) = length xs.
Proof.
  intros H. unfold map2. rewrite length_map, length_combine. lia.
Qed.

Lemma map2_cons {A B C : Type} (f : A -> B -> C) x xs y ys :
  map2 f (x :: xs) (y :: ys) = f x y :: map2 f xs ys.
Proof. reflexivity. Qed.

Lemma map2_nth {A B C : Type} (f : A -> B -> C) xs ys (da : A) (db : B) :
  length xs = length ys ->
  map2 f xs ys = map (fun i => f (nth i xs da) (nth i ys db)) (seq 0 (length xs)).
Proof.
  revert ys. induction xs as [| x xs IH]; intros [| y ys] H; simpl in H;
    try discriminate; [reflexivity |].
  rewrite map2_cons. simpl. f_equal.
  rewrite <- seq_shift, map_map. apply IH. lia.
Qed.

Lemma map_nth_seq {A : Type} (l : list A) (d : A) :
  l = map (fun i => nth i l d) (seq 0 (length l)).
Proof.
  induction l as [| a l IH]; simpl; [reflexivity |].
  f_equal. rewrite <- seq_shift, map_map. exact IH.
Qed.

Lemma ew1_same {A B C : Type} (op : A -> B -> C) xs ys :
  length xs = length ys -> ew1 op xs ys = Ok (map2 op xs ys).
Proof.
  intros H. unfold ew1, bcast. rewrite H, Nat.eqb_refl.
  apply zipM_pure. exact H.
Qed.

Lemma zipM_Forall2 {A B C : Type} (f : A -> B -> result C) (g : A -> B -> C) xs ys :
  Forall2 (fun x y => f x y = Ok (g x y)) xs ys ->
  zipM f xs ys = Ok (map2 g xs ys).
Proof.
  induction 1 as [| x y xs ys Hxy _ IH]; simpl; [reflexivity |].
  rewrite Hxy; simpl. rewrite IH; reflexivity.
Qed.

Lemma ew2_same {A B C : Type} (op : A -> B -> C) xs ys :
  Forall2 (fun x y => length x = length y) xs ys ->
  ew2 op xs ys = Ok (map2 (map2 op) xs ys).
Proof.
  intros H. unfold ew2, bcast.
  rewrite (Forall2_length H), Nat.eqb_refl.
  apply zipM_Forall2.
  induction H as [| x y xs ys Hxy _ IH]; constructor; auto using ew1_same.
Qed.

Lemma Forall2_map_l {A B C : Type} (P : C -> B -> Prop) (f : A -> C) xs ys :
  Forall2 (fun x y => P (f x) y) xs ys -> Forall2 P (map f xs) ys.
Proof. induction 1; simpl; constructor; auto. Qed.

Lemma Forall2_map_r {A B C : Type} (P : A -> C -> Prop) (f : B -> C) xs ys :
  Forall2 (fun x y => P x (f y)) xs ys -> Forall2 P xs (map f ys).
Proof. induction 1; simpl; constructor; auto. Qed.

Lemma Forall2_map2_l {A B C D : Type} (P : C -> D -> Prop) (f : A -> B -> C)
  xs ys (zs : list D) :
  length xs = length ys ->
  (forall i x y z, nth_error xs i = Some x -> nth_error ys i = Some y ->
                   nth_error zs i = Some z -> P (f x y) z) ->
  length xs = length zs ->
  Forall2 P (map2 f xs ys) zs.
Proof.
  revert ys zs. induction xs as [| x xs IH]; intros [| y ys] [| z zs] H1 H H2;
    simpl in *; try discriminate; [constructor |].
  rewrite map2_cons. constructor.
  - apply (H 0%nat); reflexivity.
  - apply IH; try lia. intros i; apply (H (S i)).
Qed.

Lemma Forall2_refl_in {A : Type} (P : A -> A -> Prop) (l : list A) :
  (forall a, In a l -> P a a) -> Forall2 P l l.
Proof.
  induction l as [| a l IH]; intros H; constructor; [apply H; left; reflexivity |].
  apply IH. intros; apply H; right; assumption.
Qed.

(** ** Scalar facts *)

Lemma tadd_comm (x y : tnum) : tadd x y = tadd y x.
Proof. destruct x, y; simpl; try reflexivity. f_equal; lra. Qed.

Lemma tadd_assoc (x y z : tnum) : tadd x (tadd y z) = tadd (tadd x y) z.
Proof. destruct x, y, z; simpl; try reflexivity. f_equal; lra. Qed.

Lemma tadd_0_l (x : tnum) : tadd (Fin 0) x = x.
Proof. destruct x; simpl; try reflexivity. f_equal; lra. Qed.

Lemma tadd_0_r (x : tnum) : tadd x (Fin 0) = x.
Proof. rewrite tadd_comm. apply tadd_0_l. Qed.

Lemma tadd_NaN_l (x : tnum) : tadd NaN x = NaN.
Proof. reflexivity. Qed.

Lemma tadd_NaN_r (x : tnum) : tadd x NaN = NaN.
Proof. destruct x; reflexivity. Qed.

Lemma tdivn_NaN (n : nat) : tdivn NaN n = NaN.
Proof. destruct n; reflexivity. Qed.

Lemma tsum_cons (a : tnum) (l : tensor1) : tsum (a :: l) = tadd a (tsum l).
Proof. reflexivity. Qed.

Lemma tsum_In_NaN (l : tensor1) : In NaN l -> tsum l = NaN.
Proof.
  induction l as [| a l IH]; intros H; [contradiction |].
  rewrite tsum_cons. destruct H as [-> | H]; [reflexivity |].
  rewrite IH by assumption. apply tadd_NaN_r.
Qed.

Lemma tsum_app (l1 l2 : tensor1) : tsum (l1 ++ l2) = tadd (tsum l1) (tsum l2).
Proof.
  induction l1 as [| a l1 IH].
  - symmetry; apply tadd_0_l.
  - rewrite <- app_comm_cons, !tsum_cons, IH. apply tadd_assoc.
Qed.

Lemma fold_left_tadd (l : tensor1) (a : tnum) :
  fold_left tadd l a = tadd a (tsum l).
Proof.
  revert a. induction l as [| x l IH]; intros a.
  - symmetry; apply tadd_0_r.
  - simpl fold_left. rewrite IH, tsum_cons. symmetry. apply tadd_assoc.
Qed.

Lemma mul_mask_true (x : tnum) : mul_mask x true = x.
Proof.
  destruct x; simpl; try reflexivity.
  - f_equal; lra.
  - unfold inf_times. real_dec. reflexivity.
  - unfold inf_times. real_dec. reflexivity.
Qed.

Lemma mul_mask_false_fin (r : R) : mul_mask (Fin r) false = Fin 0.
Proof. simpl. f_equal; lra. Qed.

(** A masked-out entry contributes zero, or NaN when it is not finite. *)
Lemma mul_mask_false (x : tnum) : mul_mask x false = Fin 0 \/ mul_mask x false = NaN.
Proof.
  destruct x; simpl; auto.
  - left; f_equal; lra.
  - right. unfold inf_times. real_dec. reflexivity.
  - right. unfold inf_times. real_dec. reflexivity.
Qed.

Lemma tsum_zero_or_nan (l : tensor1) :
  Forall (fun x => x = Fin 0 \/ x = NaN) l -> tsum l = Fin 0 \/ tsum l = NaN.
Proof.
  induction 1 as [| x l Hx _ IH]; [left; reflexivity |].
  rewrite tsum_cons.
  destruct Hx as [-> | ->], IH as [-> | ->]; simpl; auto.
  left; f_equal; lra.
Qed.

Lemma tdivn_zero_count (x : tnum) : x = Fin 0 \/ x = NaN -> tdivn x 0 = NaN.
Proof. intros [-> | ->]; simpl; [real_dec; reflexivity | reflexivity]. Qed.

Lemma tne_false_iff (x : tnum) (c : R) : tne x c = false <-> x = Fin c.
Proof.
  destruct x; simpl; try (split; discriminate).
  destruct (Req_dec_T r c) as [-> | Hn]; split; intros H; try reflexivity;
    try discriminate. inversion H; contradiction.
Qed.

Lemma negb_eqb_false (b : bool) : negb (Bool.eqb b false) = b.
Proof. destruct b; reflexivity. Qed.

Lemma map_negb_eqb_false (l : list bool) :
  map (fun b : bool => negb (Bool.eqb b false)) l = l.
Proof.
  induction l as [| b l IH]; simpl; [reflexivity |].
  rewrite negb_eqb_false, IH; reflexivity.
Qed.

Lemma map_map_negb_eqb_false (t : list (list bool)) :
  map (map (fun b : bool => negb (Bool.eqb b false))) t = t.
Proof.
  induction t as [| l t IH]; simpl; [reflexivity |].
  rewrite map_negb_eqb_false, IH; reflexivity.
Qed.

(** ** The numeric-feature loss on a well-shaped batch *)

Lemma py_index_neg {A : Type} (v : list A) (n : nat) (d : A) :
  (1 <= n <= length v)%nat ->
  py_index v (- Z.of_nat n) = Ok (nth (length v - n) v d).
Proof.
  intros H. unfold py_index.
  assert (Hlt : (- Z.of_nat n <? 0)%Z = true) by (apply Z.ltb_lt; lia).
  rewrite Hlt.
  assert (Hr : ((0 <=? - Z.of_nat n + Z.of_nat (length v))%Z
                && (- Z.of_nat n + Z.of_nat (length v) <? Z.of_nat (length v))%Z)%bool
               = true).
  { apply andb_true_iff; split; [apply Z.leb_le | apply Z.ltb_lt]; lia. }
  rewrite Hr.
  replace (Z.to_nat (- Z.of_nat n + Z.of_nat (length v))) with (length v - n)%nat by lia.
  destruct (nth_error v (length v - n)) as [a |] eqn:E.
  - f_equal. symmetry. apply nth_error_nth. exact E.
  - apply nth_error_None in E. lia.
Qed.

Lemma mapM_pure_in {A B : Type} (f : A -> result B) (g : A -> B) (l : list A) :
  (forall a, In a l -> f a = Ok (g a)) -> mapM f l = Ok (map g l).
Proof.
  intros H. rewrite (mapM_ext_in f (fun a => Ok (g a))) by exact H.
  apply mapM_pure.
Qed.

Lemma select_last_trailing (D n : nat) (pred : tensor3) :
  width3 D pred -> (1 <= n <= D)%nat ->
  select_last pred (- Z.of_nat n) = Ok (channel (D - n) pred).
Proof.
  intros Hw Hn. unfold select_last, channel.
  apply mapM_pure_in. intros s Hs.
  apply mapM_pure_in. intros v Hv.
  unfold width3 in Hw. rewrite Forall_forall in Hw.
  specialize (Hw s Hs). rewrite Forall_forall in Hw. specialize (Hw v Hv).
  rewrite (py_index_neg v n NaN) by lia. rewrite Hw. reflexivity.
Qed.

Lemma py_index_front {A : Type} (v : list A) (j : nat) (d : A) :
  (j < length v)%nat -> py_index v (Z.of_nat j) = Ok (nth j v d).
Proof.
  intros H. unfold py_index.
  assert (Hge : (Z.of_nat j <? 0)%Z = false) by (apply Z.ltb_ge; lia).
  rewrite Hge.
  assert (Hr : ((0 <=? Z.of_nat j)%Z && (Z.of_nat j <? Z.of_nat (length v))%Z)%bool
               = true).
  { apply andb_true_iff; split; [apply Z.leb_le | apply Z.ltb_lt]; lia. }
  rewrite Hr, Nat2Z.id.
  destruct (nth_error v j) as [a |] eqn:E.
  - f_equal. symmetry. apply nth_error_nth. exact E.
  - apply nth_error_None in E. lia.
Qed.

Lemma select_last_front (D j : nat) (pred : tensor3) :
  width3 D pred -> (j < D)%nat ->
  select_last pred (Z.of_nat j) = Ok (channel j pred).
Proof.
  intros Hw Hj. unfold select_last, channel.
  apply mapM_pure_in. intros s Hs.
  apply mapM_pure_in. intros v Hv.
  unfold width3 in Hw. rewrite Forall_forall in Hw.
  specialize (Hw s Hs). rewrite Forall_forall in Hw. specialize (Hw v Hv).
  apply py_index_front. lia.
Qed.

(** The channel read by the index [- n], for every [n] that a vector of
    [D] channels admits. *)
Lemma select_last_indexed (D : nat) (n : Z) (pred : tensor3) :
  width3 D pred -> (- Z.of_nat D < n <= Z.of_nat D)%Z ->
  select_last pred (- n) = Ok (channel (indexed_channel D n) pred).
Proof.
  intros Hw Hn. unfold indexed_channel.
  destruct (0 <? n)%Z eqn:E.
  - apply Z.ltb_lt in E.
    replace n with (Z.of_nat (Z.to_nat n)) at 1 by lia.
    apply (select_last_trailing D (Z.to_nat n)); [exact Hw | lia].
  - apply Z.ltb_ge in E.
    replace (- n)%Z with (Z.of_nat (Z.to_nat (- n))) at 1 by lia.
    apply (select_last_front D (Z.to_nat (- n))); [exact Hw | lia].
Qed.

Lemma map2_map_r {A B C D : Type} (f : A -> C -> D) (g : B -> C) xs (ys : list B) :
  map2 f xs (map g ys) = map2 (fun x y => f x (g y)) xs ys.
Proof.
  revert ys. induction xs as [| x xs IH]; intros [| y ys]; simpl; try reflexivity.
  rewrite !map2_cons, IH. reflexivity.
Qed.

Lemma map2_map2_l {A B C D E : Type} (f : C -> D -> E) (g : A -> B -> C)
  (xs : list A) (ys : list B) (zs : list D) :
  map2 f (map2 g xs ys) zs
  = map (fun p => f (g (fst (fst p)) (snd (fst p))) (snd p))
        (combine (combine xs ys) zs).
Proof.
  revert ys zs. induction xs as [| x xs IH]; intros [| y ys] [| z zs];
    simpl; try reflexivity.
  rewrite !map2_cons. simpl. f_equal. apply IH.
Qed.

Lemma mse_feature_rows (pred : tensor3) (values : tensor2) (n : Z)
  (pred_val : tensor2) :
  select_last pred (- n) = Ok pred_val ->
  Forall2 (fun row p => length (tl row) = length p) values pred_val ->
  BaseMixin.mse_feature pred values n
  = Ok (mean (map2 seq_average (drop_first2 values) pred_val)).
Proof.
  intros Hsel Hshape. unfold BaseMixin.mse_feature, BaseMixin.masked_mse_mean, float.
  rewrite Hsel; simpl.
  assert (Hgp : Forall2 (fun g p : tensor1 => length g = length p)
                        (drop_first2 values) pred_val).
  { unfold drop_first2. apply Forall2_map_l. exact Hshape. }
  unfold mse_fn. rewrite (ew2_same sqerr _ _ Hgp); simpl.
  rewrite map_map_negb_eqb_false.
  set (gt := drop_first2 values) in *.
  assert (Hlen : length gt = length pred_val) by (apply (Forall2_length Hgp)).
  assert (Hmask : Forall2 (fun x y => length x = length y)
                    (map2 (map2 sqerr) gt pred_val)
                    (map (map (fun x => tne x 0)) gt)).
  { apply Forall2_map_r.
    apply Forall2_map2_l; [exact Hlen | | reflexivity].
    intros i g p g' Hg Hp Hg'. rewrite Hg in Hg'. inversion Hg'; subst g'.
    rewrite length_map. apply map2_length.
    clear - Hgp Hg Hp. revert i Hg Hp.
    induction Hgp as [| x y xs ys Hxy _ IH]; intros [| i]; simpl; intros Hg Hp;
      try discriminate.
    - inversion Hg; inversion Hp; subst; exact Hxy.
    - eapply IH; eauto. }
  rewrite (ew2_same mul_mask _ _ Hmask); simpl.
  rewrite ew1_same.
  2:{ rewrite !length_map, map2_length.
      - rewrite map2_length by exact Hlen. reflexivity.
      - apply (Forall2_length Hmask). }
  simpl. do 2 f_equal.
  clear Hmask Hsel Hshape. unfold seq_average.
  revert pred_val Hgp Hlen. induction gt as [| g gt IH]; intros [| p ps] Hgp Hlen;
    simpl in Hlen; try discriminate; [reflexivity |].
  inversion Hgp; subst. unfold map2 in *. simpl. f_equal.
  apply IH; [assumption | lia].
Qed.

(** ** The numeric loop as a fold over the entries it processes *)

Lemma fold_add_feature_err (pred : tensor3) (l : list (Z * (string * tensor2)))
  (e : error) :
  fold_left (add_feature pred) l (Err e) = Err e.
Proof. induction l as [| x l IH]; simpl; [reflexivity | exact IH]. Qed.

Lemma countdown_nth {A : Type} (items : list A) (n : Z) (k : nat) (x : A) :
  nth_error items k = Some x ->
  nth_error (countdown n items) k = Some ((n - Z.of_nat k)%Z, x).
Proof.
  revert n k. induction items as [| y items IH]; intros n [| k]; simpl;
    try discriminate.
  - intros H; inversion H. do 2 f_equal. lia.
  - intros H. rewrite (IH (n - 1)%Z k H). do 2 f_equal. lia.
Qed.

Lemma mse_loop_fold (self : BaseMixin.t) (pred : tensor3)
  (items : dict tensor2) (total : tnum) (n : Z) :
  BaseMixin.mse_loop self pred items total n
  = fold_left (add_feature pred) (countdown n (numeric_items self items)) (Ok total).
Proof.
  revert total n. induction items as [| [key values] items IH]; intros total n;
    simpl; [reflexivity |].
  destruct (negb (mem key _)) eqn:E; simpl; [| apply IH].
  unfold BaseMixin.mse_feature.
  destruct (select_last pred (- n)) as [pv | e]; simpl;
    [| symmetry; apply fold_add_feature_err].
  destruct (BaseMixin.masked_mse_mean _ pv) as [term | e]; simpl;
    [apply IH | symmetry; apply fold_add_feature_err].
Qed.

(** ** C4: the numeric-feature loss *)

Lemma nth_nil {A : Type} (n : nat) (d : A) : nth n [] d = d.
Proof. destruct n; reflexivity. Qed.

Lemma nth_tl {A : Type} (l : list A) (t : nat) (d : A) :
  nth t (tl l) d = nth (S t) l d.
Proof. destruct l; simpl; [apply nth_nil | reflexivity]. Qed.

Lemma nth_map_in {A B : Type} (f : A -> B) (l : list A) (n : nat) (d : A) (d' : B) :
  (n < length l)%nat -> nth n (map f l) d' = f (nth n l d).
Proof.
  intros H. rewrite (nth_indep _ d' (f d)) by (rewrite length_map; exact H).
  apply map_nth.
Qed.

Lemma seq_average_index (row : tensor1) (p : tensor2) (c : nat) :
  length row = S (length p) ->
  seq_average (tl row) (map (fun v : tensor1 => nth c v NaN) p)
  = tdivn (tsum (map (fun t =>
                        mul_mask (sqerr (nth (S t) row NaN) (nth c (nth t p []) NaN))
                                 (tne (nth (S t) row NaN) 0))
                     (seq 0 (length row - 1))))
          (count_true (map (fun t => tne (nth (S t) row NaN) 0)
                           (seq 0 (length row - 1)))).
Proof.
  intros Hlen. unfold seq_average.
  assert (Htl : length (tl row) = (length row - 1)%nat) by (destruct row; simpl; lia).
  assert (Hp : length (tl row) = length (map (fun v : tensor1 => nth c v NaN) p)).
  { rewrite length_map. lia. }
  f_equal.
  - f_equal.
    rewrite (map2_nth mul_mask _ _ NaN false).
    2:{ rewrite length_map, map2_length; [reflexivity | exact Hp]. }
    rewrite map2_length, Htl by exact Hp.
    apply map_ext_in. intros t Ht. apply in_seq in Ht.
    rewrite (map2_nth sqerr _ _ NaN NaN) by exact Hp.
    rewrite (nth_map_in (fun x => tne x 0) (tl row) t NaN false) by lia.
    rewrite (nth_map_in _ (seq 0 (length (tl row))) t 0%nat NaN)
      by (rewrite length_seq; lia).
    rewrite seq_nth by lia. simpl Nat.add.
    rewrite (nth_map_in (fun v : tensor1 => nth c v NaN) p t [] NaN) by lia.
    rewrite !nth_tl. reflexivity.
  - f_equal.
    rewrite (map_nth_seq (map (fun x => tne x 0) (tl row)) false) at 1.
    rewrite length_map, Htl.
    apply map_ext_in. intros t Ht. apply in_seq in Ht.
    rewrite (nth_map_in (fun x => tne x 0) (tl row) t NaN false) by lia.
    rewrite nth_tl. reflexivity.
Qed.

Lemma mse_feature_channel (c : nat) (n : Z) (pred : tensor3) (values : tensor2) :
  select_last pred (- n) = Ok (channel c pred) -> one_step_longer values pred ->
  BaseMixin.mse_feature pred values n
  = Ok (numeric_feature_loss pred values c).
Proof.
  intros Hsel Hs.
  rewrite (mse_feature_rows pred values n (channel c pred)).
  - f_equal. unfold numeric_feature_loss. f_equal.
    assert (Hlen : length (drop_first2 values) = length (channel c pred)).
    { unfold drop_first2, channel. rewrite !length_map. apply (Forall2_length Hs). }
    rewrite (map2_nth seq_average _ _ [] []) by exact Hlen.
    unfold drop_first2 at 2. rewrite length_map.
    apply map_ext_in. intros b Hb. apply in_seq in Hb.
    unfold drop_first2, channel.
    pose proof (Forall2_length Hs) as HL.
    rewrite (nth_map_in (@tl tnum) values b [] []) by lia.
    rewrite (nth_map_in _ pred b [] []) by lia.
    apply seq_average_index.
    clear - Hs Hb. destruct Hb as [_ Hb]. simpl in Hb. unfold one_step_longer in Hs.
    revert b Hb. induction Hs as [| row p vs ps Hrp _ IH]; intros b Hb; simpl in Hb;
      [lia |].
    destruct b as [| b]; simpl; [exact Hrp | apply IH; lia].
  - exact Hsel.
  - unfold channel. apply Forall2_map_r.
    eapply Forall2_impl; [| exact Hs].
    intros row p H. simpl in H. rewrite length_map.
    destruct row; simpl in *; lia.
Qed.

Lemma mse_feature_spec (D n : nat) (pred : tensor3) (values : tensor2) :
  width3 D pred -> (1 <= n <= D)%nat -> one_step_longer values pred ->
  BaseMixin.mse_feature pred values (Z.of_nat n)
  = Ok (numeric_feature_loss pred values (D - n)).
Proof.
  intros Hw Hn Hs. apply mse_feature_channel; [| exact Hs].
  apply select_last_trailing; assumption.
Qed.

Lemma mse_feature_indexed (D : nat) (n : Z) (pred : tensor3) (values : tensor2) :
  width3 D pred -> (- Z.of_nat D < n <= Z.of_nat D)%Z ->
  one_step_longer values pred ->
  BaseMixin.mse_feature pred values n
  = Ok (numeric_feature_loss pred values (indexed_channel D n)).
Proof.
  intros Hw Hn Hs. apply mse_feature_channel; [| exact Hs].
  apply select_last_indexed; assumption.
Qed.

Lemma countdown_combine {A : Type} (items : list A) (n : Z) (s : nat) :
  countdown (n - Z.of_nat s) items
  = map (fun p => ((n - Z.of_nat (fst p))%Z, snd p))
        (combine (seq s (length items)) items).
Proof.
  revert s. induction items as [| x items IH]; intros s; simpl; [reflexivity |].
  f_equal. rewrite <- IH. f_equal. lia.
Qed.

Lemma add_feature_ok (pred : tensor3) (a : tnum) (entry : Z * (string * tensor2)) :
  add_feature pred (Ok a) entry
  = (term <- BaseMixin.mse_feature pred (snd (snd entry)) (fst entry) ;;
     Ok (tadd a term)).
Proof.
  unfold add_feature, BaseMixin.mse_feature. simpl.
  destruct (select_last pred (- fst entry)); reflexivity.
Qed.

Lemma fold_add_feature_ok (pred : tensor3) (term : Z * (string * tensor2) -> tnum)
  (l : list (Z * (string * tensor2))) (a : tnum) :
  (forall entry, In entry l ->
     BaseMixin.mse_feature pred (snd (snd entry)) (fst entry) = Ok (term entry)) ->
  fold_left (add_feature pred) l (Ok a) = Ok (tadd a (tsum (map term l))).
Proof.
  revert a. induction l as [| entry l IH]; intros a H.
  - simpl. rewrite tadd_0_r. reflexivity.
  - change (fold_left (add_feature pred) (entry :: l) (Ok a))
      with (fold_left (add_feature pred) l (add_feature pred (Ok a) entry)).
    rewrite add_feature_ok.
    rewrite (H entry (or_introl eq_refl)). simpl bind.
    rewrite IH by (intros; apply H; right; assumption).
    simpl map. rewrite tsum_cons, tadd_assoc. reflexivity.
Qed.

(** The fold over the numeric entries adds up the per-feature losses. *)
Lemma numeric_fold_spec (pred : tensor3) (numeric : dict tensor2) (D N : nat) :
  width3 D pred ->
  (length numeric <= N <= D)%nat ->
  Forall (fun kv => one_step_longer (snd kv) pred) numeric ->
  fold_left (add_feature pred) (countdown (Z.of_nat N) numeric) (Ok (Fin 0))
  = Ok (numeric_loss_spec pred numeric D N).
Proof.
  intros Hw Hn Hshape.
  replace (Z.of_nat N) with (Z.of_nat N - Z.of_nat 0)%Z by lia.
  rewrite countdown_combine.
  rewrite (fold_add_feature_ok pred
             (fun entry => numeric_feature_loss pred (snd (snd entry))
                             (D - Z.to_nat (fst entry)))).
  - rewrite tadd_0_l. unfold numeric_loss_spec. f_equal. f_equal.
    rewrite map_map. apply map_ext_in. intros [k kv] Hin. simpl.
    apply in_combine_l in Hin. apply in_seq in Hin.
    f_equal. lia.
  - intros entry Hin. apply in_map_iff in Hin.
    destruct Hin as ([k kv] & <- & Hin). simpl.
    pose proof (in_combine_l _ _ _ _ Hin) as Hk. apply in_seq in Hk.
    pose proof (in_combine_r _ _ _ _ Hin) as Hkv.
    rewrite Forall_forall in Hshape. specialize (Hshape kv Hkv).
    replace (Z.of_nat N - Z.of_nat k)%Z with (Z.of_nat (N - k)) by lia.
    rewrite (mse_feature_spec D (N - k)) by (try assumption; lia).
    rewrite Nat2Z.id. reflexivity.
Qed.

(** *** The same loss over finite entries *)















(** The value on that batch: the amounts give (4 + 16) / 2, the balances
    (4 + 13 / 2) / 2. *)
Lemma masked_output_loss :
  numeric_loss_R masked_pred masked_numeric 3 2 = 61 / 4.
Proof.
  unfold numeric_loss_R, feature_loss_R, seq_loss_R, kept_steps. cbn.
  real_dec. cbn. unfold Rsqr. field.
Qed.

(** The value of the loss on [amount_output]: (3 - 1)^2 over one valid
    position. *)
Lemma amount_numeric_loss : numeric_loss amount_model amount_output = Ok (Fin 4).
Proof.
  unfold numeric_loss. cbn [BaseMixin.split_delta amount_model BaseMixin.init
    BaseMixin.model_conf plain_conf use_deltas bind fst snd].
  rewrite mse_loop_fold.
  rewrite (numeric_fold_spec _ _ 2 1); [| repeat constructor | simpl; lia
                                        | repeat constructor].
  f_equal.
  unfold numeric_loss_spec, numeric_feature_loss, mean. simpl.
  unfold tne. real_dec. simpl. f_equal. lra.
Qed.

(** ** C8: which channel each numeric feature is compared with *)

(** The loop from any counter value [n] that keeps every index within the
    prediction. *)
Lemma mse_loop_channels (self : BaseMixin.t) (pred : tensor3)
  (items : dict tensor2) (total : tnum) (D : nat) (n : Z) :
  let numeric := numeric_items self items in
  width3 D pred ->
  (n <= Z.of_nat D)%Z ->
  (Z.of_nat (length numeric) <= n + Z.of_nat D)%Z ->
  Forall (fun kv => one_step_longer (snd kv) pred) numeric ->
  BaseMixin.mse_loop self pred items total n
  = Ok (tadd total (countdown_loss pred numeric D n)).
Proof.
  intros numeric Hw Hn Hlen Hshape.
  rewrite mse_loop_fold. fold numeric.
  replace n with (n - Z.of_nat 0)%Z at 1 by lia.
  rewrite countdown_combine.
  rewrite (fold_add_feature_ok pred
             (fun entry => numeric_feature_loss pred (snd (snd entry))
                             (indexed_channel D (fst entry)))).
  - unfold countdown_loss. rewrite map_map. reflexivity.
  - intros entry Hin. apply in_map_iff in Hin.
    destruct Hin as ([k kv] & <- & Hin). cbn [fst snd].
    pose proof (in_combine_l _ _ _ _ Hin) as Hk. apply in_seq in Hk.
    pose proof (in_combine_r _ _ _ _ Hin) as Hkv.
    rewrite Forall_forall in Hshape.
    apply (mse_feature_indexed D); [exact Hw | lia | apply Hshape; exact Hkv].
Qed.

(** C8: the numeric loop of the full model loss processes exactly the
    payload entries whose key is not an embedding name, in payload order,
    with a counter that starts at [N = all_numeric_size], which the
    constructor sets to the configured number of numeric features, and goes
    down by one per processed entry.  On a batch whose tensors fit the
    delta-stripped prediction of [D] channels, the loss is the sum over
    those entries of the masked mean of the k-th entry against the single
    channel that the Python index [-(N - k)] reads: channel [D - (N - k)],
    the (N - k)-th from the end, while [k < N], whatever the number of
    entries iterated; and channel [k - N] from the front for an entry beyond
    the configured count. *)
Theorem numeric_loop_countdown (self : BaseMixin.t) (output : Output) :
  let N := Z.of_nat (BaseMixin.all_numeric_size self) in
  let numeric := numeric_items self (payload (out_input_batch output)) in
  numeric_loss self output
  = (sp <- BaseMixin.split_delta self output ;;
     fold_left (add_feature (snd (fst sp))) (countdown N numeric) (Ok (Fin 0)))
  /\ (forall k entry,
         nth_error numeric k = Some entry ->
         nth_error (countdown N numeric) k = Some ((N - Z.of_nat k)%Z, entry))
  /\ (forall pred_delta pred gt_embedding (D : nat),
         BaseMixin.split_delta self output = Ok (pred_delta, pred, gt_embedding) ->
         width3 D pred ->
         (N <= Z.of_nat D)%Z ->
         (Z.of_nat (length numeric) <= N + Z.of_nat D)%Z ->
         Forall (fun kv => one_step_longer (snd kv) pred) numeric ->
         numeric_loss self output = Ok (countdown_loss pred numeric D N))
  /\ (forall D k : nat,
         (k < BaseMixin.all_numeric_size self <= D)%nat ->
         indexed_channel D (N - Z.of_nat k)
         = (D - (BaseMixin.all_numeric_size self - k))%nat)
  /\ (forall D k : nat,
         (BaseMixin.all_numeric_size self <= k)%nat ->
         indexed_channel D (N - Z.of_nat k)
         = (k - BaseMixin.all_numeric_size self)%nat)
  /\ (forall mc dc p,
         BaseMixin.all_numeric_size (BaseMixin.init mc dc p)
         = length (numeric_values dc)).
Proof.
  intros N numeric. split; [| split; [| split; [| split; [| split]]]].
  - unfold numeric_loss.
    destruct (BaseMixin.split_delta self output) as [sp | e]; simpl; [| reflexivity].
    apply mse_loop_fold.
  - intros k entry. apply countdown_nth.
  - intros pred_delta pred gt_embedding D Hsplit Hw Hn Hlen Hshape.
    unfold numeric_loss. rewrite Hsplit. cbn [bind fst snd].
    fold N. rewrite (mse_loop_channels self pred _ (Fin 0) D N Hw Hn Hlen Hshape).
    fold numeric. rewrite tadd_0_l. reflexivity.
  - intros D k Hk. unfold indexed_channel.
    assert (E : (0 <? N - Z.of_nat k)%Z = true) by (apply Z.ltb_lt; lia).
    rewrite E. lia.
  - intros D k Hk. unfold indexed_channel.
    assert (E : (0 <? N - Z.of_nat k)%Z = false) by (apply Z.ltb_ge; lia).
    rewrite E. lia.
  - reflexivity.
Qed.

(** Two numeric features are configured and the payload carries only the
    balance: it is read against channel 1 of the three, the second from the
    end, where the amount is predicted. *)
Lemma numeric_loop_countdown_witness :
  numeric_loss masked_model balance_output
  = Ok (countdown_loss (lift3 masked_pred)
          [("balance"%string, lift2 [[4; 4; 0]; [1; 5; 2]])] 3 2)
  /\ indexed_channel 3 (2 - Z.of_nat 0) = 1%nat.
Proof.
  pose proof (numeric_loop_countdown masked_model balance_output) as H.
  destruct H as (_ & _ & Hloss & Hback & _).
  split.
  - apply (Hloss None (lift3 masked_pred)
             (map (@tl tensor1) (out_x balance_output)) 3%nat).
    + reflexivity.
    + repeat constructor.
    + cbn. lia.
    + cbn. lia.
    + repeat constructor.
  - apply (Hback 3%nat 0%nat). cbn. lia.
Defined.

(** ** C9: a mask without valid positions *)

Lemma zipM_In {A B C : Type} (f : A -> B -> result C) xs ys r :
  zipM f xs ys = Ok r ->
  forall c, In c r -> exists x y, In x xs /\ In y ys /\ f x y = Ok c.
Proof.
  revert ys r. induction xs as [| x xs IH]; intros [| y ys] r H c Hc; simpl in H;
    try discriminate.
  - inversion H; subst. contradiction.
  - inv_bind H as c0 Hc0. inv_bind H as cs Hcs. inversion H; subst.
    destruct Hc as [<- | Hc].
    + exists x, y. simpl; auto.
    + destruct (IH _ _ Hcs c Hc) as (x' & y' & Hx & Hy & Hf).
      exists x', y'. simpl; auto.
Qed.

Lemma mapM_In {A B : Type} (f : A -> result B) l r :
  mapM f l = Ok r -> forall b, In b r -> exists a, In a l /\ f a = Ok b.
Proof.
  revert r. induction l as [| a l IH]; intros r H b Hb; simpl in H.
  - inversion H; subst. contradiction.
  - inv_bind H as b0 Hb0. inv_bind H as bs Hbs. inversion H; subst.
    destruct Hb as [<- | Hb].
    + exists a. simpl; auto.
    + destruct (IH _ Hbs b Hb) as (a' & Ha & Hf). exists a'. simpl; auto.
Qed.

(** Every entry of a broadcast result combines an entry of each operand. *)
Lemma bcast_In {A B C : Type} (f : A -> B -> result C) xs ys r :
  bcast f xs ys = Ok r ->
  forall c, In c r -> exists x y, In x xs /\ In y ys /\ f x y = Ok c.
Proof.
  unfold bcast. intros H c Hc.
  destruct (Nat.eqb (length xs) (length ys)); [eapply zipM_In; eauto |].
  destruct xs as [| x [| x' xs]].
  - destruct ys as [| y [| y' ys]]; try discriminate.
    simpl in H. inversion H; subst. contradiction.
  - destruct (mapM_In _ _ _ H c Hc) as (y & Hy & Hf).
    exists x, y. simpl; auto.
  - destruct ys as [| y [| y' ys]]; try discriminate.
    destruct (mapM_In _ _ _ H c Hc) as (x0 & Hx & Hf).
    exists x0, y. simpl; auto.
Qed.

Lemma count_true_all_false (l : list bool) :
  Forall (fun b => b = false) l -> count_true l = 0%nat.
Proof.
  induction 1 as [| b l Hb _ IH]; [reflexivity |].
  subst b. exact IH.
Qed.

Lemma ew2_mul_mask_all_false (x : tensor2) (mask : list (list bool)) (r : tensor2) :
  ew2 mul_mask x mask = Ok r ->
  Forall (Forall (fun b => b = false)) mask ->
  Forall (fun e => e = Fin 0 \/ e = NaN) (concat r).
Proof.
  intros H Hm. apply Forall_forall. intros e He.
  apply in_concat in He. destruct He as (row & Hrow & He).
  destruct (bcast_In _ _ _ _ H row Hrow) as (xr & mr & _ & Hmr & Hf).
  destruct (bcast_In _ _ _ _ Hf e He) as (a & b & _ & Hb & Hab).
  rewrite Forall_forall in Hm. specialize (Hm mr Hmr).
  rewrite Forall_forall in Hm. rewrite (Hm b Hb) in Hab.
  inversion Hab. apply mul_mask_false.
Qed.

(** ** The delta mask position by position *)

Lemma drop_first_mask_row (row : tensor1) :
  tl (map (fun x => tne x (-1)) row)
  = map (fun i => tne (nth (S i) row NaN) (-1)) (seq 0 (length row - 1)).
Proof.
  destruct row as [| x row]; [reflexivity |].
  simpl. rewrite Nat.sub_0_r.
  rewrite (map_nth_seq (map (fun x => tne x (-1)) row) false) at 1.
  rewrite length_map. apply map_ext_in. intros i Hi. apply in_seq in Hi.
  apply (nth_map_in (fun x => tne x (-1)) row i NaN false). lia.
Qed.

Lemma drop_first_mask (time_steps : tensor2) :
  drop_first2 (map (map (fun x => tne x (-1))) time_steps)
  = next_step_mask time_steps.
Proof.
  unfold drop_first2, next_step_mask. rewrite map_map.
  apply map_ext. intros row. apply drop_first_mask_row.
Qed.

Lemma delta_loss_unfold (time_steps : tensor2) (pred_delta : tensor12) :
  BaseMixin.delta_loss time_steps pred_delta
  = (delta_mse <- mse_fn12 (map diff1 time_steps) pred_delta ;;
     delta_masked <- ew2 mul_mask delta_mse (next_step_mask time_steps) ;;
     Ok (tdivn (sum_all delta_masked) (count_all (next_step_mask time_steps)))).
Proof.
  unfold BaseMixin.delta_loss.
  rewrite map_map_negb_eqb_false, drop_first_mask. reflexivity.
Qed.

(** ** C9, continued *)

Lemma mean_In_NaN (l : tensor1) : In NaN l -> mean l = NaN.
Proof. intros H. unfold mean. rewrite (tsum_In_NaN l H). apply tdivn_NaN. Qed.

(** A sequence whose shifted ground truth is all zero has the average NaN. *)
Lemma padded_sequence_average (row : tensor1) (p : tensor2) (c : nat) :
  Forall (fun x => x = Fin 0) (tl row) ->
  let steps := seq 0 (length row - 1) in
  let valid t := tne (nth (S t) row NaN) 0 in
  let err t := sqerr (nth (S t) row NaN) (nth c (nth t p []) NaN) in
  tdivn (tsum (map (fun t => mul_mask (err t) (valid t)) steps))
        (count_true (map valid steps)) = NaN.
Proof.
  intros Hz steps valid err.
  assert (Hv : forall t, In t steps -> valid t = false).
  { intros t Ht. apply in_seq in Ht. unfold valid. apply tne_false_iff.
    rewrite <- nth_tl. rewrite Forall_forall in Hz. apply Hz.
    apply nth_In. destruct row; simpl in *; lia. }
  rewrite count_true_all_false.
  2:{ apply Forall_forall. intros b Hb. apply in_map_iff in Hb.
      destruct Hb as (t & <- & Ht). auto. }
  apply tdivn_zero_count. apply tsum_zero_or_nan.
  apply Forall_forall. intros x Hx. apply in_map_iff in Hx.
  destruct Hx as (t & <- & Ht). rewrite (Hv t Ht). apply mul_mask_false.
Qed.

Lemma numeric_feature_loss_padded (pred : tensor3) (values : tensor2) (c b : nat)
  (row : tensor1) :
  nth_error values b = Some row ->
  Forall (fun x => x = Fin 0) (tl row) ->
  numeric_feature_loss pred values c = NaN.
Proof.
  intros Hb Hz. unfold numeric_feature_loss. apply mean_In_NaN.
  apply in_map_iff. exists b. split.
  - rewrite (nth_error_nth _ _ _ Hb).
    apply (padded_sequence_average row (nth b pred []) c Hz).
  - apply in_seq. split; [lia |]. simpl.
    apply nth_error_Some. rewrite Hb. discriminate.
Qed.

Lemma diff1_length (l : tensor1) : length (diff1 l) = (length l - 1)%nat.
Proof.
  induction l as [| a [| b l] IH]; try reflexivity.
  change (diff1 (a :: b :: l)) with (tsub b a :: diff1 (b :: l)).
  simpl length in *. rewrite IH. lia.
Qed.

Lemma diff1_nth (row : tensor1) (i : nat) :
  (S i < length row)%nat ->
  nth i (diff1 row) NaN = tsub (nth (S i) row NaN) (nth i row NaN).
Proof.
  revert i. induction row as [| a [| b row] IH]; intros i Hi; simpl in Hi; try lia.
  change (diff1 (a :: b :: row)) with (tsub b a :: diff1 (b :: row)).
  destruct i as [| i]; [reflexivity |].
  cbn [nth]. rewrite IH by (simpl; lia). reflexivity.
Qed.

(** With a prediction of matching shape the delta block always returns. *)
Lemma delta_loss_same_shape (time_steps pred_delta : tensor2) :
  deltas_fit time_steps pred_delta ->
  BaseMixin.delta_loss time_steps (Rank2 pred_delta)
  = Ok (tdivn (sum_all (map2 (map2 mul_mask)
                          (map2 (map2 sqerr) (map diff1 time_steps) pred_delta)
                          (next_step_mask time_steps)))
              (count_all (next_step_mask time_steps))).
Proof.
  intros Hlen. rewrite delta_loss_unfold. unfold mse_fn12, mse_fn.
  assert (Hgp : Forall2 (fun g p : tensor1 => length g = length p)
                        (map diff1 time_steps) pred_delta).
  { apply Forall2_map_l. eapply Forall2_impl; [| exact Hlen].
    intros row p H. simpl in H. rewrite diff1_length. lia. }
  rewrite (ew2_same sqerr _ _ Hgp); simpl.
  assert (Hmask : Forall2 (fun (x : tensor1) (y : list bool) => length x = length y)
                    (map2 (map2 sqerr) (map diff1 time_steps) pred_delta)
                    (next_step_mask time_steps)).
  { unfold next_step_mask. apply Forall2_map_r.
    clear Hgp. induction Hlen as [| row p rows ps Hrp _ IH]; simpl; constructor.
    - simpl. rewrite length_map, length_seq, map2_length;
        rewrite diff1_length; lia.
    - exact IH. }
  rewrite (ew2_same mul_mask _ _ Hmask); simpl. reflexivity.
Qed.

(** ** C10: what the delta mask reads *)









(** The value on those sequences: (0 + 1 + 4) / 3. *)
Lemma padded_delta_value :
  delta_loss_R [[0; 1; -1]; [0; 2; 5]] [[1; 0]; [1; 1]] = 5 / 3.
Proof.
  unfold delta_loss_R, delta_errors_R, kept_steps. cbn.
  real_dec. cbn. unfold Rsqr. field.
Qed.

Lemma delta_loss_no_valid (time_steps : tensor2) (pred_delta : tensor12) (v : tnum) :
  BaseMixin.delta_loss time_steps pred_delta = Ok v ->
  Forall (fun row : tensor1 => Forall (fun x => x = Fin (-1)) (tl row)) time_steps ->
  v = NaN.
Proof.
  rewrite delta_loss_unfold. intros H Hp.
  inv_bind H as delta_mse Hmse. inv_bind H as masked Hmasked.
  inversion H; subst v; clear H.
  assert (Hm : Forall (Forall (fun b => b = false)) (next_step_mask time_steps)).
  { unfold next_step_mask. apply Forall_forall. intros m Hm.
    apply in_map_iff in Hm. destruct Hm as (row & <- & Hrow).
    rewrite Forall_forall in Hp. specialize (Hp row Hrow).
    apply Forall_forall. intros b Hb. apply in_map_iff in Hb.
    destruct Hb as (i & <- & Hi). apply in_seq in Hi.
    apply tne_false_iff. rewrite <- nth_tl.
    rewrite Forall_forall in Hp. apply Hp. apply nth_In.
    destruct row; simpl in *; lia. }
  unfold count_all. rewrite count_true_all_false.
  2:{ apply Forall_concat. exact Hm. }
  apply tdivn_zero_count. apply tsum_zero_or_nan.
  eapply ew2_mul_mask_all_false; eauto.
Qed.

Lemma In_combine_seq {A : Type} (l : list A) (s k : nat) (x : A) :
  nth_error l k = Some x -> In ((s + k)%nat, x) (combine (seq s (length l)) l).
Proof.
  revert s k. induction l as [| y l IH]; intros s [| k] H; simpl in H;
    try discriminate.
  - inversion H; subst. left. f_equal. lia.
  - right. replace (s + S k)%nat with (S s + k)%nat by lia. apply IH. exact H.
Qed.

(** C9: on a batch whose tensors fit each other, a numeric feature with a
    sequence all of whose shifted ground truths are 0 makes the numeric loss
    NaN, and time-steps that are all -1 after the first make the delta loss
    NaN: the division by the zero count is carried out and the block returns
    a value instead of raising.  More generally the delta block, whenever it
    returns, returns NaN when no position is valid. *)
Theorem zero_valid_positions_give_nan :
  (forall (self : BaseMixin.t) (output : Output) pred_delta pred gt_embedding
          (D : nat) key values b row,
      let N := BaseMixin.all_numeric_size self in
      let numeric := numeric_items self (payload (out_input_batch output)) in
      BaseMixin.split_delta self output = Ok (pred_delta, pred, gt_embedding) ->
      width3 D pred ->
      (length numeric <= N <= D)%nat ->
      Forall (fun kv => one_step_longer (snd kv) pred) numeric ->
      In (key, values) numeric ->
      nth_error values b = Some row ->
      Forall (fun x => x = Fin 0) (tl row) ->
      numeric_loss self output = Ok NaN)
  /\ (forall time_steps pred_delta : tensor2,
         deltas_fit time_steps pred_delta ->
         Forall (fun row : tensor1 => Forall (fun x => x = Fin (-1)) (tl row))
                time_steps ->
         BaseMixin.delta_loss time_steps (Rank2 pred_delta) = Ok NaN)
  /\ (forall (time_steps : tensor2) (pred_delta : tensor12) (v : tnum),
         BaseMixin.delta_loss time_steps pred_delta = Ok v ->
         Forall (fun row : tensor1 => Forall (fun x => x = Fin (-1)) (tl row))
                time_steps ->
         v = NaN).
Proof.
  split; [| split].
  - intros self output pd pred gt D key values b row N numeric
           Hsplit Hw Hn Hshape Hin Hb Hz.
    unfold numeric_loss. rewrite Hsplit. cbn [bind fst snd].
    rewrite mse_loop_fold. fold numeric. fold N.
    rewrite (numeric_fold_spec pred numeric D N Hw Hn Hshape).
    f_equal. unfold numeric_loss_spec. apply tsum_In_NaN.
    fold N. fold numeric.
    destruct (In_nth_error _ _ Hin) as [k Hk].
    apply in_map_iff. exists (k, (key, values)). split.
    + simpl. apply (numeric_feature_loss_padded pred values _ b row Hb Hz).
    + apply (In_combine_seq numeric 0 k (key, values) Hk).
  - intros time_steps pred_delta Hfit Hp.
    pose proof (delta_loss_same_shape _ _ Hfit) as Hok.
    rewrite Hok. f_equal.
    exact (delta_loss_no_valid _ _ _ Hok Hp).
  - exact delta_loss_no_valid.
Qed.

Lemma zero_valid_positions_give_nan_witness :
  numeric_loss amount_model padded_output = Ok NaN
  /\ BaseMixin.delta_loss [[Fin 0; Fin (-1)]] (Rank2 [[Fin 0]]) = Ok NaN.
Proof.
  split.
  - apply (proj1 zero_valid_positions_give_nan amount_model padded_output None
             [[[Fin 0; Fin 1]]] [[[Fin 0; Fin 0]]] 2%nat "amount"%string
             [[Fin 1; Fin 0]] 0%nat [Fin 1; Fin 0]).
    + reflexivity.
    + repeat constructor.
    + simpl. lia.
    + repeat constructor.
    + simpl. left. reflexivity.
    + reflexivity.
    + repeat constructor.
  - apply (proj1 (proj2 zero_valid_positions_give_nan)).
    + repeat constructor.
    + repeat constructor.
Defined.

(** ** C5: the delta loss *)

(** C5 at the failing input: with sequences of two events the predicted
    deltas have one step, [squeeze(-1)] removes that axis, and the squared
    error is broadcast to every pair of sequences.  Both deltas are predicted
    exactly, so the fused average of the specification is 0, but the delta
    loss of the call is ((1-1)^2 + (1-2)^2 + (2-1)^2 + (2-2)^2) / 2 = 1. *)
Theorem delta_loss_pairs_sequences :
  BaseMixin.split_delta delta_model pair_output
  = Ok (Some (Rank1 [Fin 1; Fin 2]), [[[Fin 0]]; [[Fin 0]]], [[[Fin 0]]; [[Fin 0]]])
  /\ masked_delta_loss delta_model pair_output = Ok (Fin 1)
  /\ fused_delta_average (out_time_steps pair_output) (out_pred pair_output) = Fin 0.
Proof.
  split; [reflexivity |]. split.
  - unfold masked_delta_loss, BaseMixin.delta_branch, BaseMixin.delta_loss. simpl.
    unfold tne. real_dec. simpl.
    unfold sum_all, count_all; simpl. do 2 f_equal. lra.
  - unfold fused_delta_average. simpl.
    unfold tne. real_dec. simpl. f_equal. lra.
Qed.

(** ** C3: the global-conditioned GRU cell *)

Lemma chunk_sizes_3 (H : nat) : chunk_sizes 3 (3 * H) = [H; H; H].
Proof.
  unfold chunk_sizes.
  assert (Hs : ((3 * H + 3 - 1) / 3 = H)%nat).
  { symmetry. apply (Nat.div_unique _ 3 H 2); lia. }
  rewrite Hs. destruct H as [| H']; [reflexivity |].
  set (H := S H') in *. simpl Nat.eqb.
  assert (Hk : ((3 * H + H - 1) / H = 3)%nat).
  { symmetry. apply (Nat.div_unique _ H 3 (H - 1)); unfold H; lia. }
  rewrite Hk. simpl. repeat f_equal. lia.
Qed.

Section Rows.
Context {X : Type}.
Variable rows : list X.

Lemma cat_last_rows (a b : X -> tensor1) :
  cat_last (map a rows) (map b rows) = Ok (map (fun r => a r ++ b r) rows).
Proof.
  unfold cat_last. induction rows as [| r l IH]; simpl; [reflexivity |].
  rewrite IH. reflexivity.
Qed.

Lemma Linear_forward_rows (l : Linear) (a : X -> tensor1) :
  (forall r, In r rows -> length (a r) = in_features l) ->
  Linear_forward l (map a rows) = Ok (map (fun r => affine l (a r)) rows).
Proof.
  intros H. unfold Linear_forward. induction rows as [| r rs IH]; simpl;
    [reflexivity |].
  rewrite (H r) by (left; reflexivity). rewrite Nat.eqb_refl. simpl.
  rewrite IH by (intros; apply H; right; assumption). reflexivity.
Qed.

Lemma ew2_rows {A B C : Type} (op : A -> B -> C) (a : X -> list A) (b : X -> list B) :
  (forall r, In r rows -> length (a r) = length (b r)) ->
  ew2 op (map a rows) (map b rows) = Ok (map (fun r => map2 op (a r) (b r)) rows).
Proof.
  intros H. rewrite ew2_same.
  - f_equal. clear H. induction rows as [| r rs IH]; [reflexivity |].
    simpl map. rewrite map2_cons, IH. reflexivity.
  - apply Forall2_map_l, Forall2_map_r, Forall2_refl_in. exact H.
Qed.

Lemma chunk_3_rows (H : nat) (a : X -> tensor1) :
  (forall r, In r rows -> length (a r) = (3 * H)%nat) ->
  unpack3 (chunk 3 (map a rows))
  = Ok (map (fun r => firstn H (a r)) rows,
        map (fun r => firstn H (skipn H (a r))) rows,
        map (fun r => firstn H (skipn H (skipn H (a r)))) rows).
Proof.
  intros Hlen. unfold chunk.
  destruct rows as [| r rs] eqn:E; [reflexivity |].
  assert (Hn : length (hd [] (map a (r :: rs))) = (3 * H)%nat).
  { simpl. apply Hlen. left; reflexivity. }
  rewrite Hn, chunk_sizes_3. simpl. rewrite !map_map. reflexivity.
Qed.

Lemma zeros2_rows (a : X -> tensor1) (H : nat) :
  zeros2 (length (map a rows)) H = map (fun _ => repeat (Fin 0) H) rows.
Proof.
  unfold zeros2. rewrite length_map.
  induction rows as [| r rs IH]; simpl; [reflexivity | rewrite IH; reflexivity].
Qed.
End Rows.

Lemma affine_length (l : Linear) (n_in n_out : nat) (has_bias : bool) (row : tensor1) :
  Linear_shaped l n_in n_out has_bias -> length (affine l row) = n_out.
Proof.
  intros (_ & _ & Hw & _ & Hb). unfold affine.
  destruct (lin_bias l) as [b |].
  - destruct Hb as [_ Hb]. rewrite length_map, length_combine. lia.
  - rewrite length_map. exact Hw.
Qed.

Lemma map_map2 {A B C D : Type} (f : C -> D) (g : A -> B -> C) xs ys :
  map f (map2 g xs ys) = map2 (fun a b => f (g a b)) xs ys.
Proof. unfold map2. rewrite map_map. reflexivity. Qed.

Lemma map2_length_min {A B C : Type} (f : A -> B -> C) xs ys :
  length (map2 f xs ys) = Nat.min (length xs) (length ys).
Proof. unfold map2. rewrite length_map, length_combine. reflexivity. Qed.

Section CellRows.
Context {X : Type}.
Variables (self : GRUCell.t) (G : nat) (rows : list X).
Variables (x g h : X -> tensor1).
Hypothesis Hbuilt : GRUCell.built self G.
Hypothesis Hx : forall r, In r rows -> length (x r) = GRUCell.input_size self.
Hypothesis Hg : forall r, In r rows -> length (g r) = G.
Hypothesis Hh : forall r, In r rows -> length (h r) = GRUCell.hidden_size self.

Lemma forward_rows :
  GRUCell.forward self (map x rows) (map g rows) (Some (map h rows))
  = Ok (map (fun r => cell_row self (x r) (g r) (h r)) rows).
Proof.
  destruct Hbuilt as (Hx2h & Hh2h & Hmix).
  set (H := GRUCell.hidden_size self) in *.
  assert (Hxl : forall v, length (affine (GRUCell.x2h self) v) = (3 * H)%nat)
    by (intros; eapply affine_length; eauto).
  assert (Hhl : forall v, length (affine (GRUCell.h2h self) v) = (3 * H)%nat)
    by (intros; eapply affine_length; eauto).
  assert (Hml : forall v, length (affine (GRUCell.mix_global self) v) = H)
    by (intros; eapply affine_length; eauto).
  assert (Hlen : forall (a b : X -> tensor1),
             (forall r, length (a r) = H) -> (forall r, length (b r) = H) ->
             forall r, In r rows -> length (a r) = length (b r))
    by (intros a b Ha Hb r _; rewrite Ha, Hb; reflexivity).
  unfold GRUCell.forward.
  rewrite cat_last_rows. cbn [bind].
  rewrite Linear_forward_rows.
  2:{ intros r Hr. rewrite length_app, (Hg r Hr), (Hh r Hr).
      destruct Hmix as (-> & _). lia. }
  cbn [bind]. rewrite map_map.
  rewrite Linear_forward_rows.
  2:{ intros r Hr. rewrite (Hx r Hr). destruct Hx2h as (-> & _). reflexivity. }
  cbn [bind].
  rewrite Linear_forward_rows.
  2:{ intros r Hr. rewrite length_map, Hml. destruct Hh2h as (-> & _). reflexivity. }
  cbn [bind].
  rewrite (chunk_3_rows rows H) by (intros; apply Hxl).
  cbn [bind].
  rewrite (chunk_3_rows rows H) by (intros; apply Hhl).
  cbn [bind].
  rewrite ew2_rows
    by (apply Hlen; intros;
        rewrite ?length_firstn, ?length_skipn, ?Hxl, ?Hhl; lia).
  cbn [bind]. rewrite map_map.
  rewrite ew2_rows
    by (apply Hlen; intros;
        rewrite ?length_firstn, ?length_skipn, ?Hxl, ?Hhl; lia).
  cbn [bind]. rewrite map_map.
  rewrite ew2_rows
    by (apply Hlen; intros;
        rewrite ?length_map, ?map2_length_min, ?length_firstn, ?length_skipn,
          ?Hxl, ?Hhl; lia).
  cbn [bind].
  rewrite ew2_rows
    by (apply Hlen; intros;
        rewrite ?length_map, ?map2_length_min, ?length_map, ?map2_length_min,
          ?length_firstn, ?length_skipn, ?Hxl, ?Hhl; lia).
  cbn [bind]. rewrite map_map.
  rewrite ew2_rows
    by (apply Hlen; intros;
        rewrite ?length_map, ?map2_length_min, ?length_firstn, ?length_skipn,
          ?Hxl, ?Hhl, ?Hml; lia).
  cbn [bind]. rewrite map_map.
  rewrite ew2_rows
    by (apply Hlen; intros;
        repeat rewrite ?length_map, ?map2_length_min, ?length_firstn,
          ?length_skipn, ?Hxl, ?Hhl, ?Hml; lia).
  cbn [bind].
  rewrite ew2_rows
    by (apply Hlen; intros;
        repeat rewrite ?length_map, ?map2_length_min, ?length_firstn,
          ?length_skipn, ?Hxl, ?Hhl, ?Hml; lia).
  apply f_equal. apply map_ext. intros r. unfold cell_row. fold H.
  rewrite !map_map2. reflexivity.
Qed.
End CellRows.

(** C3: for a cell as its constructor shapes it and a batch whose rows have
    the input, global and hidden widths, the cell returns row by row:
    h_mix = GELU(Affine_mix(global ++ previous)); the three equal chunks of
    Affine_in(input) and of Affine_hidden(h_mix) give
    reset = sigmoid(x_reset + h_reset), update = sigmoid(x_update + h_update),
    candidate = tanh(x_candidate + reset * h_candidate); and the new hidden
    state is update * h_mix + (1 - update) * candidate.  Without a previous
    hidden state the all-zero vector takes its place. *)
Theorem GRUCell_forward_rows (self : GRUCell.t) (G : nat)
  (rows : list (tensor1 * tensor1 * tensor1)) :
  GRUCell.built self G ->
  Forall (fun r => length (fst (fst r)) = GRUCell.input_size self
                   /\ length (snd (fst r)) = G
                   /\ length (snd r) = GRUCell.hidden_size self) rows ->
  GRUCell.forward self (map (fun r => fst (fst r)) rows)
    (map (fun r => snd (fst r)) rows) (Some (map snd rows))
  = Ok (map (fun r => cell_row self (fst (fst r)) (snd (fst r)) (snd r)) rows)
  /\ GRUCell.forward self (map (fun r => fst (fst r)) rows)
       (map (fun r => snd (fst r)) rows) None
     = Ok (map (fun r => cell_row self (fst (fst r)) (snd (fst r))
                           (repeat (Fin 0) (GRUCell.hidden_size self))) rows).
Proof.
  intros Hbuilt Hrows. rewrite Forall_forall in Hrows. split.
  - apply (forward_rows self G rows _ _ _ Hbuilt); intros r Hr; apply (Hrows r Hr).
  - change (GRUCell.forward self (map (fun r => fst (fst r)) rows)
              (map (fun r => snd (fst r)) rows) None)
      with (GRUCell.forward self (map (fun r => fst (fst r)) rows)
              (map (fun r => snd (fst r)) rows)
              (Some (zeros2 (length (map (fun r : tensor1 * tensor1 * tensor1 =>
                                            fst (fst r)) rows))
                            (GRUCell.hidden_size self)))).
    rewrite zeros2_rows.
    apply (forward_rows self G rows _ _ _ Hbuilt); intros r Hr;
      try apply (Hrows r Hr).
    apply repeat_length.
Qed.

Lemma unit_cell_built : GRUCell.built unit_cell 1.
Proof.
  unfold GRUCell.built, Linear_shaped; simpl.
  repeat split; repeat constructor.
Qed.

Lemma GRUCell_forward_rows_witness :
  GRUCell.forward unit_cell [[Fin 1]] [[Fin 0]] (Some [[Fin 0]])
  = Ok [cell_row unit_cell [Fin 1] [Fin 0] [Fin 0]]
  /\ GRUCell.forward unit_cell [[Fin 1]] [[Fin 0]] None
     = Ok [cell_row unit_cell [Fin 1] [Fin 0] [Fin 0]].
Proof.
  apply (GRUCell_forward_rows unit_cell 1 [([Fin 1], [Fin 0], [Fin 0])]).
  - exact unit_cell_built.
  - repeat constructor.
Defined.

(** ** C7: the decoder stack *)

Lemma list_set_ok {A : Type} (l : list A) (k : nat) (a : A) :
  (k < length l)%nat -> list_set l k a = Ok (list_upd l k a).
Proof.
  revert k. induction l as [| x l IH]; intros [| k] H; simpl in H; try lia.
  - reflexivity.
  - simpl. rewrite IH by lia. reflexivity.
Qed.

Lemma list_upd_length {A : Type} (l : list A) (k : nat) (a : A) :
  (k < length l)%nat -> length (list_upd l k a) = length l.
Proof.
  intros H. unfold list_upd.
  rewrite length_app, length_firstn.
  change (length (a :: skipn (S k) l)) with (S (length (skipn (S k) l))).
  rewrite length_skipn. lia.
Qed.

Lemma list_upd_nth_same {A : Type} (l : list A) (k : nat) (a d : A) :
  (k < length l)%nat -> nth k (list_upd l k a) d = a.
Proof.
  intros H. unfold list_upd.
  rewrite app_nth2; rewrite length_firstn; [| lia].
  replace (k - Nat.min k (length l))%nat with 0%nat by lia. reflexivity.
Qed.

Lemma list_upd_nth_other {A : Type} (l : list A) (k j : nat) (a d : A) :
  (k < length l)%nat -> j <> k -> nth j (list_upd l k a) d = nth j l d.
Proof.
  intros H Hj. unfold list_upd.
  destruct (Nat.lt_ge_cases j k) as [Hlt | Hge].
  - rewrite app_nth1 by (rewrite length_firstn; lia).
    rewrite nth_firstn.
    assert (E : (j <? k)%nat = true) by (apply Nat.ltb_lt; exact Hlt).
    rewrite E. reflexivity.
  - rewrite app_nth2; rewrite length_firstn; [| lia].
    replace (j - Nat.min k (length l))%nat with (S (j - S k)) by lia.
    cbn [nth]. rewrite nth_skipn. f_equal. lia.
Qed.

Lemma list_upd_twice {A : Type} (l : list A) (k : nat) (a : A) :
  (k < length l)%nat -> list_upd (list_upd l k a) k a = list_upd l k a.
Proof.
  intros H. unfold list_upd at 1 3.
  assert (Hf : firstn k (list_upd l k a) = firstn k l).
  { unfold list_upd. rewrite firstn_app, length_firstn.
    replace (k - Nat.min k (length l))%nat with 0%nat by lia.
    simpl. rewrite app_nil_r, firstn_firstn. f_equal. lia. }
  assert (Hs : skipn (S k) (list_upd l k a) = skipn (S k) l).
  { unfold list_upd. rewrite skipn_app, length_firstn.
    replace (S k - Nat.min k (length l))%nat with 1%nat by lia.
    rewrite skipn_all2 by (rewrite length_firstn; lia). reflexivity. }
  rewrite Hf, Hs. reflexivity.
Qed.

Lemma list_upd_firstn_S {A : Type} (l : list A) (k : nat) (a : A) :
  (k < length l)%nat -> firstn (S k) (list_upd l k a) = firstn k l ++ [a].
Proof.
  intros H. unfold list_upd. rewrite firstn_app, length_firstn.
  replace (S k - Nat.min k (length l))%nat with 1%nat by lia.
  rewrite firstn_all2 by (rewrite length_firstn; lia). reflexivity.
Qed.

Lemma list_get_nth {A : Type} (l : list A) (k : nat) (d : A) :
  (k < length l)%nat -> list_get l k = Ok (nth k l d).
Proof.
  intros H. unfold list_get.
  destruct (nth_error l k) as [a |] eqn:E.
  - rewrite (nth_error_nth _ _ d E). reflexivity.
  - apply nth_error_None in E. lia.
Qed.

Lemma list_get_ok {A : Type} (l : list A) (k : nat) (a : A) :
  list_get l k = Ok a -> (k < length l)%nat /\ forall d, nth k l d = a.
Proof.
  unfold list_get. destruct (nth_error l k) as [x |] eqn:E; intros H;
    inversion H; subst. split.
  - apply nth_error_Some. rewrite E. discriminate.
  - intros d. apply nth_error_nth. exact E.
Qed.

Lemma mapM_seq_nth {B : Type} (f : nat -> result B) (s n : nat) (r : list B) (d : B) :
  mapM f (seq s n) = Ok r ->
  forall i, (i < n)%nat -> f (s + i)%nat = Ok (nth i r d).
Proof.
  revert s r. induction n as [| n IH]; intros s r H i Hi; [lia |].
  simpl in H. inv_bind H as b Hb. inv_bind H as bs Hbs. inversion H; subst r.
  destruct i as [| i]; simpl.
  - rewrite Nat.add_0_r. exact Hb.
  - replace (s + S i)%nat with (S s + i)%nat by lia. apply (IH _ _ Hbs). lia.
Qed.

Lemma mapM_all_ok {A B : Type} (f : A -> result B) (l : list A) :
  (forall a, In a l -> exists b, f a = Ok b) -> exists r, mapM f l = Ok r.
Proof.
  induction l as [| a l IH]; intros H; simpl; [eauto |].
  destruct (H a (or_introl eq_refl)) as [b Hb]. rewrite Hb. simpl.
  destruct IH as [r Hr]; [intros; apply H; right; assumption |].
  rewrite Hr. simpl. eauto.
Qed.

Lemma last_nth {A : Type} (l : list A) (d : A) :
  last l d = nth (length l - 1) l d.
Proof.
  induction l as [| a [| b l] IH]; try reflexivity.
  change (last (a :: b :: l) d) with (last (b :: l) d). rewrite IH.
  simpl length. replace (S (S (length l)) - 1)%nat with (S (length l)) by lia.
  replace (S (length l) - 1)%nat with (length l) by lia. reflexivity.
Qed.

Section Unroll.
Variables (self : DecoderGRU.t) (input : tensor3) (global_context : tensor2).
Variable h0 : list tensor2.

Local Abbreviation out := (layer_out self global_context).
Local Abbreviation state := (hidden_at self input global_context h0).
Local Abbreviation before := (hidden_before self input global_context h0).

Lemma hidden_at_unfold (t l : nat) :
  state t l = out (before t) (at_step input t) l.
Proof. destruct t; reflexivity. Qed.

Lemma layer_out_unfold (prev : nat -> result tensor2) (x : result tensor2) (l : nat) :
  out prev x l
  = (cell <- list_get (DecoderGRU.rnn_cell_list self) l ;;
     inp <- match l with O => x | S l' => out prev x l' end ;;
     p <- prev l ;;
     GRUCell.forward cell inp global_context (Some p)).
Proof. destruct l; reflexivity. Qed.

(** A layer can only return when every layer below it has. *)
Lemma layer_out_below (prev : nat -> result tensor2) (x : result tensor2) (l : nat)
  (v : tensor2) :
  out prev x l = Ok v ->
  forall l', (l' <= l)%nat ->
    exists v', out prev x l' = Ok v' /\ exists p, prev l' = Ok p.
Proof.
  revert v. induction l as [| l IH]; intros v H l' Hl'.
  - assert (l' = 0%nat) by lia. subst l'. exists v. split; [exact H |].
    rewrite layer_out_unfold in H.
    inv_bind H as cell Hc. inv_bind H as inp Hi. inv_bind H as p Hp. eauto.
  - destruct (Nat.eq_dec l' (S l)) as [-> | Hne].
    + exists v. split; [exact H |].
      rewrite layer_out_unfold in H.
      inv_bind H as cell Hc. inv_bind H as inp Hi. inv_bind H as p Hp. eauto.
    + rewrite layer_out_unfold in H.
      inv_bind H as cell Hc. inv_bind H as inp Hi.
      apply (IH inp Hi). lia.
Qed.

Let L := DecoderGRU.num_layers self.

Lemma layer_loop_spec (prev : nat -> result tensor2) (t : nat) :
  forall (n k : nat) (hidden : list tensor2) (hl : option tensor2),
    (k + n = L)%nat -> length hidden = L ->
    (forall l, (l < k)%nat ->
       out prev (at_step input t) l = Ok (nth l hidden [])) ->
    (forall l, (k <= l < L)%nat -> prev l = Ok (nth l hidden [])) ->
    DecoderGRU.layer_loop self input global_context t (seq k n) hidden hl
    = (news <- mapM (out prev (at_step input t)) (seq k n) ;;
       Ok (firstn k hidden ++ news,
           match news with [] => hl | _ => Some (last news []) end)).
Proof.
  induction n as [| n IH]; intros k hidden hl Hk Hlen Hnew Hold.
  - simpl. rewrite app_nil_r, firstn_all2 by lia. reflexivity.
  - assert (Hkl : (k < length hidden)%nat) by lia.
    cbn [seq DecoderGRU.layer_loop mapM].
    rewrite (layer_out_unfold prev (at_step input t) k).
    destruct (list_get (DecoderGRU.rnn_cell_list self) k) as [cell | e] eqn:Ec;
      cbn [bind]; [| reflexivity].
    assert (Hinp : (if Nat.eqb k 0 then at_step input t
                    else list_get hidden (k - 1))
                   = match k with
                     | O => at_step input t
                     | S k' => out prev (at_step input t) k'
                     end).
    { destruct k as [| k']; [reflexivity |]. simpl Nat.eqb. cbv iota.
      replace (S k' - 1)%nat with k' by lia.
      rewrite (list_get_nth hidden k' []) by lia.
      symmetry. apply Hnew. lia. }
    rewrite Hinp.
    destruct (match k with
              | O => at_step input t
              | S k' => out prev (at_step input t) k'
              end) as [inp | e] eqn:Einp; cbn [bind]; [| reflexivity].
    rewrite (list_get_nth hidden k []) by lia.
    rewrite (Hold k) by lia. cbn [bind].
    destruct (GRUCell.forward cell inp global_context (Some (nth k hidden [])))
      as [h_new | e] eqn:Ef; cbn [bind]; [| reflexivity].
    rewrite (list_set_ok hidden k h_new) by lia. cbn [bind].
    rewrite (list_set_ok (list_upd hidden k h_new) k h_new)
      by (rewrite list_upd_length; lia).
    cbn [bind]. rewrite list_upd_twice by lia.
    rewrite IH.
    + rewrite list_upd_firstn_S by lia.
      destruct (mapM (out prev (at_step input t)) (seq (S k) n))
        as [news | e]; cbn [bind]; [| reflexivity].
      rewrite <- app_assoc. simpl app. f_equal. f_equal.
      destruct news; reflexivity.
    + lia.
    + rewrite list_upd_length; lia.
    + intros l Hl. destruct (Nat.eq_dec l k) as [-> | Hne].
      * rewrite list_upd_nth_same by lia.
        rewrite layer_out_unfold, Ec. cbn [bind].
        rewrite Einp. cbn [bind]. rewrite (Hold k) by lia. cbn [bind].
        exact Ef.
      * rewrite list_upd_nth_other by lia. apply Hnew. lia.
    + intros l Hl. rewrite list_upd_nth_other by lia. apply Hold. lia.
Qed.


Lemma time_loop_spec :
  (1 <= L)%nat ->
  forall (n s : nat) (hidden : list tensor2) (hl : option tensor2)
         (outs r : list tensor2),
    length hidden = L ->
    (forall l, (l < L)%nat -> before s l = Ok (nth l hidden [])) ->
    (DecoderGRU.time_loop self input global_context (seq s n) hidden hl outs = Ok r
     <-> exists tops,
           mapM (fun t => state t (L - 1)) (seq s n) = Ok tops
           /\ r = outs ++ tops).
Proof.
  intros HL. induction n as [| n IH]; intros s hidden hl outs r Hlen Hprev.
  - simpl. split.
    + intros H. inversion H; subst. exists []. rewrite app_nil_r. auto.
    + intros (tops & Ht & ->). inversion Ht; subst. rewrite app_nil_r. reflexivity.
  - cbn [seq DecoderGRU.time_loop mapM]. fold L.
    rewrite (layer_loop_spec (before s) s L 0 hidden hl)
      by (try assumption; try lia; intros; apply Hprev; lia).
    cbn [firstn app].
    assert (Hstep : forall news,
               mapM (out (before s) (at_step input s)) (seq 0 L) = Ok news ->
               length news = L
               /\ (forall l, (l < L)%nat ->
                             before (S s) l = Ok (nth l news []))
               /\ state s (L - 1) = Ok (last news [])
               /\ news <> []).
    { intros news Hn.
      assert (Hl : length news = L)
        by (rewrite (mapM_ok_length _ _ _ Hn), length_seq; reflexivity).
      assert (Hall : forall l, (l < L)%nat -> state s l = Ok (nth l news [])).
      { intros l Hlt. rewrite hidden_at_unfold.
        apply (mapM_seq_nth _ 0 L news [] Hn l Hlt). }
      repeat split; try assumption.
      - rewrite last_nth, Hl. apply Hall. lia.
      - intros ->. simpl in Hl. lia. }
    split.
    + intros H. inv_bind H as st Hst. destruct st as [hidden' hl'].
      inv_bind Hst as news Hnews. inversion Hst; subst hidden' hl'; clear Hst.
      destruct (Hstep news Hnews) as (Hl & Hnext & Htop & Hne).
      destruct news as [| n0 news']; [congruence |].
      apply (IH (S s)) in H; [| exact Hl | exact Hnext].
      destruct H as (tops & Htops & ->).
      exists (last (n0 :: news') [] :: tops). split.
      * rewrite Htop. cbn [bind]. rewrite Htops. reflexivity.
      * rewrite <- app_assoc. reflexivity.
    + intros (tops & Ht & ->).
      inv_bind Ht as top Htop. inv_bind Ht as tops' Htops.
      inversion Ht; subst tops; clear Ht.
      assert (Hex : exists news,
                 mapM (out (before s) (at_step input s)) (seq 0 L)
                 = Ok news).
      { apply mapM_all_ok. intros l Hl. apply in_seq in Hl.
        rewrite hidden_at_unfold in Htop.
        destruct (layer_out_below _ _ _ _ Htop l) as (v' & Hv' & _); [lia |].
        eauto. }
      destruct Hex as [news Hnews]. rewrite Hnews. cbn [bind].
      destruct (Hstep news Hnews) as (Hl & Hnext & Htop' & Hne).
      destruct news as [| n0 news']; [congruence |].
      apply (IH (S s)); [exact Hl | exact Hnext |].
      exists tops'. split; [exact Htops |].
      rewrite Htop in Htop'. inversion Htop'; subst top.
      rewrite <- app_assoc. reflexivity.
Qed.

Lemma forward_loops_spec (y : tensor3) :
  (1 <= L)%nat ->
  ((hidden <- mapM (fun layer => list_get h0 layer) (seq 0 L) ;;
    outs <- DecoderGRU.time_loop self input global_context
              (seq 0 (length (hd [] input))) hidden None [] ;;
    cat_steps outs) = Ok y
   <-> exists outs,
         mapM (fun t => state t (L - 1)) (seq 0 (length (hd [] input))) = Ok outs
         /\ cat_steps outs = Ok y).
Proof.
  intros HL. split.
  - intros H. inv_bind H as hidden Hh. inv_bind H as outs Ho.
    assert (Hlen : length hidden = L)
      by (rewrite (mapM_ok_length _ _ _ Hh), length_seq; reflexivity).
    apply (time_loop_spec HL _ 0 hidden None [] outs Hlen) in Ho.
    + destruct Ho as (tops & Ht & ->). exists tops. auto.
    + intros l Hl. apply (mapM_seq_nth _ 0 L hidden [] Hh l Hl).
  - intros (outs & Ho & Hy).
    destruct (length (hd [] input)) as [| T'] eqn:ET.
    { simpl in Ho. inversion Ho; subst. discriminate. }
    assert (Hex : exists hidden, mapM (fun layer => list_get h0 layer) (seq 0 L) = Ok hidden).
    { apply mapM_all_ok. intros l Hl. apply in_seq in Hl.
      cbn [seq mapM] in Ho. inv_bind Ho as top Htop.
      rewrite hidden_at_unfold in Htop.
      destruct (layer_out_below _ _ _ _ Htop l) as (_ & _ & p & Hp); [lia |].
      exists p. exact Hp. }
    destruct Hex as [hidden Hh]. rewrite Hh. cbn [bind].
    assert (Hlen : length hidden = L)
      by (rewrite (mapM_ok_length _ _ _ Hh), length_seq; reflexivity).
    assert (Ht : DecoderGRU.time_loop self input global_context (seq 0 (S T'))
                   hidden None [] = Ok outs).
    { apply (time_loop_spec HL _ 0 hidden None [] outs Hlen).
      - intros l Hl. apply (mapM_seq_nth _ 0 L hidden [] Hh l Hl).
      - exists outs. auto. }
    rewrite Ht. cbn [bind]. exact Hy.
Qed.
End Unroll.

Lemma cat_steps_ok (outs : list tensor2) (y : tensor3) :
  cat_steps outs = Ok y ->
  Forall (fun s : tensor2 => length s = length outs) y
  /\ forall b t, (b < length y)%nat -> (t < length outs)%nat ->
                 nth t (nth b y []) [] = nth b (nth t outs []) [].
Proof.
  revert y. induction outs as [| o outs IH]; intros y H; [discriminate |].
  destruct outs as [| o' outs].
  - simpl in H. inversion H; subst y; clear H. split.
    + apply Forall_forall. intros s Hs. apply in_map_iff in Hs.
      destruct Hs as (row & <- & _). reflexivity.
    + intros b t Hb Ht. rewrite length_map in Hb.
      assert (t = 0%nat) by (simpl in Ht; lia). subst t.
      rewrite (nth_map_in (fun row : list tnum => [row]) o b [] []) by exact Hb.
      reflexivity.
  - change (cat_steps (o :: o' :: outs))
      with (rest <- cat_steps (o' :: outs) ;;
            zipM (fun (row : tensor1) (r : tensor2) => Ok (row :: r)) o rest) in H.
    inv_bind H as rest Hrest.
    destruct (IH rest Hrest) as (Hf & Hn).
    destruct (zipM_ok_length _ _ _ _ H) as (Hlen & Hylen).
    rewrite (zipM_pure (fun (row : tensor1) (r : tensor2) => row :: r) o rest Hlen) in H.
    inversion H; subst y; clear H. split.
    + apply Forall_forall. intros s Hs. apply in_map_iff in Hs.
      destruct Hs as ([row r] & <- & Hin). simpl.
      apply in_combine_r in Hin. rewrite Forall_forall in Hf.
      rewrite (Hf r Hin). reflexivity.
    + intros b t Hb Ht. rewrite length_map, length_combine in Hb.
      rewrite (nth_map_in _ (combine o rest) b ([], []) [])
        by (rewrite length_combine; lia).
      rewrite combine_nth by exact Hlen. cbn [fst snd].
      destruct t as [| t]; [reflexivity |].
      cbn [nth]. apply Hn; [lia | simpl in *; lia].
Qed.

Lemma hidden_at_step (self : DecoderGRU.t) (input : tensor3) (g : tensor2)
  (h0 : list tensor2) (t l : nat) :
  hidden_at self input g h0 t l
  = (cell <- list_get (DecoderGRU.rnn_cell_list self) l ;;
     inp <- match l with
            | O => at_step input t
            | S l' => hidden_at self input g h0 t l'
            end ;;
     p <- match t with
          | O => list_get h0 l
          | S t' => hidden_at self input g h0 t' l
          end ;;
     GRUCell.forward cell inp g (Some p)).
Proof.
  rewrite hidden_at_unfold, layer_out_unfold.
  destruct l as [| l']; [destruct t; reflexivity |].
  rewrite hidden_at_unfold. destruct t; reflexivity.
Qed.

(** [input[:, t, :]] on a batch all of whose sequences have step [t]: the
    t-th vector of every sequence. *)
Lemma at_step_slice (input : tensor3) (t : nat) :
  Forall (fun s : tensor2 => (t < length s)%nat) input ->
  at_step input t = Ok (map (fun s : tensor2 => nth t s []) input).
Proof.
  intros H. unfold at_step. apply mapM_pure_in. intros s Hs.
  rewrite Forall_forall in H. apply list_get_nth, H, Hs.
Qed.

(** C7: with at least one layer, the decoder returns exactly when every
    step of the following recurrence returns, and then returns its top
    layer: the state [hidden_at t l] of layer [l] after step [t] is the
    layer's cell applied to the global context, to [input[:, t, :]] for layer
    0 and to the state of layer [l - 1] after the same step otherwise, and
    to the layer's own state after step [t - 1] (its initial state, all zero
    when none is supplied, for [t = 0]).  On a batch whose sequences all have
    [T] steps, what layer 0 receives at step [t] is the t-th vector of every
    sequence.  The output has one entry per timestep for every sequence,
    entry [t] being the top layer's state after step [t]. *)
Theorem DecoderGRU_forward_unrolls (self : DecoderGRU.t) (input : tensor3)
  (global_context : tensor2) (hx : option (list tensor2)) (y : tensor3) :
  let L := DecoderGRU.num_layers self in
  let T := length (hd [] input) in
  let h0 :=
    match hx with
    | None => repeat (zeros2 (length input) (DecoderGRU.hidden_size self)) L
    | Some h => h
    end in
  let state := hidden_at self input global_context h0 in
  (1 <= L)%nat ->
  (DecoderGRU.forward self input global_context hx = Ok y
   <-> exists outs,
         mapM (fun t => state t (L - 1)%nat) (seq 0 T) = Ok outs
         /\ cat_steps outs = Ok y)
  /\ (DecoderGRU.forward self input global_context hx = Ok y ->
      Forall (fun s : tensor2 => length s = T) y
      /\ forall b t, (b < length y)%nat -> (t < T)%nat ->
           exists h, state t (L - 1)%nat = Ok h
                     /\ nth t (nth b y []) [] = nth b h [])
  /\ (forall t l,
         state t l
         = (cell <- list_get (DecoderGRU.rnn_cell_list self) l ;;
            inp <- match l with
                   | O => at_step input t
                   | S l' => state t l'
                   end ;;
            p <- match t with
                 | O => list_get h0 l
                 | S t' => state t' l
                 end ;;
            GRUCell.forward cell inp global_context (Some p)))
  /\ (Forall (fun s : tensor2 => length s = T) input ->
      forall t, (t < T)%nat ->
        state t 0%nat
        = (cell <- list_get (DecoderGRU.rnn_cell_list self) 0 ;;
           p <- match t with
                | O => list_get h0 0
                | S t' => state t' 0%nat
                end ;;
           GRUCell.forward cell (map (fun s : tensor2 => nth t s []) input)
             global_context (Some p))).
Proof.
  intros L T h0 state HL.
  assert (Hiff : DecoderGRU.forward self input global_context hx = Ok y
                 <-> exists outs,
                       mapM (fun t => state t (L - 1)%nat) (seq 0 T) = Ok outs
                       /\ cat_steps outs = Ok y).
  { unfold DecoderGRU.forward. fold L. fold h0.
    apply (forward_loops_spec self input global_context h0 y HL). }
  split; [exact Hiff |]. split; [| split].
  - intros H. apply Hiff in H. destruct H as (outs & Ho & Hy).
    destruct (cat_steps_ok outs y Hy) as (Hf & Hn).
    assert (Hlen : length outs = T)
      by (rewrite (mapM_ok_length _ _ _ Ho), length_seq; reflexivity).
    rewrite Hlen in *. split; [exact Hf |].
    intros b t Hb Ht. exists (nth t outs []). split.
    + apply (mapM_seq_nth _ 0 T outs [] Ho t Ht).
    + apply Hn; assumption.
  - intros t l. apply hidden_at_step.
  - intros Hrect t Ht. unfold state. rewrite hidden_at_step.
    rewrite at_step_slice.
    2:{ eapply Forall_impl; [| exact Hrect]. intros s Hs. cbn beta in Hs. lia. }
    destruct (list_get (DecoderGRU.rnn_cell_list self) 0); reflexivity.
Qed.

(** ** The delta loss when the squeeze leaves the shape alone *)

Lemma sqerr_finite (a b : tnum) : finite a -> finite b -> finite (sqerr a b).
Proof. destruct a, b; simpl; tauto. Qed.

Lemma tsub_finite (a b : tnum) : finite a -> finite b -> finite (tsub a b).
Proof. destruct a, b; simpl; tauto. Qed.

Lemma nth_finite (l : tensor1) (i : nat) :
  Forall finite l -> (i < length l)%nat -> finite (nth i l NaN).
Proof.
  intros H Hi. rewrite Forall_forall in H. apply H. apply nth_In. exact Hi.
Qed.

(** Summing the masked terms is summing the valid ones, when the masked-out
    terms are finite. *)
Lemma tsum_masked_filter (terms : list (bool * tnum)) :
  Forall (fun p => finite (snd p)) terms ->
  tsum (map (fun p => mul_mask (snd p) (fst p)) terms)
  = tsum (map snd (filter fst terms)).
Proof.
  induction 1 as [| [v e] terms He _ IH]; [reflexivity |].
  cbn [map filter fst snd]. destruct v.
  - cbn [map snd]. rewrite !tsum_cons, IH, mul_mask_true. reflexivity.
  - rewrite tsum_cons, IH. simpl in He. destruct e; try contradiction.
    rewrite mul_mask_false_fin. apply tadd_0_l.
Qed.

Lemma count_true_filter (terms : list (bool * tnum)) :
  count_true (map fst terms) = length (filter fst terms).
Proof.
  unfold count_true. induction terms as [| [v e] terms IH]; [reflexivity |].
  cbn [map filter fst]. destruct v; simpl; rewrite IH; reflexivity.
Qed.

Lemma squeeze_last_keeps (m : tensor2) :
  (exists row, In row m /\ length row <> 1%nat) -> squeeze_last m = Rank2 m.
Proof.
  intros (row & Hin & Hlen). unfold squeeze_last.
  destruct (forallb (fun r : tensor1 => Nat.eqb (length r) 1) m) eqn:E;
    [| reflexivity].
  rewrite forallb_forall in E. specialize (E row Hin).
  apply Nat.eqb_eq in E. contradiction.
Qed.

Lemma concat_map_seq_flat_map {A : Type} (f : nat -> list A) (n : nat) :
  concat (map f (seq 0 n)) = flat_map f (seq 0 n).
Proof. symmetry. apply flat_map_concat_map. Qed.

Lemma map_flat_map {A B C : Type} (g : B -> C) (f : A -> list B) (l : list A) :
  map g (flat_map f l) = flat_map (fun a => map g (f a)) l.
Proof.
  induction l as [| a l IH]; simpl; [reflexivity |].
  rewrite map_app, IH. reflexivity.
Qed.

Lemma fused_delta_average_rows (time_steps : tensor2) (pred : tensor3) :
  length time_steps = length pred ->
  fused_delta_average time_steps pred
  = (let terms := concat (map2 delta_terms time_steps pred) in
     tdivn (tsum (map snd (filter fst terms))) (length (filter fst terms))).
Proof.
  intros Hlen. unfold fused_delta_average.
  rewrite (map2_nth delta_terms time_steps pred [] []) by exact Hlen.
  rewrite concat_map_seq_flat_map. reflexivity.
Qed.

Lemma delta_row_masked (D : nat) (row : tensor1) (p : tensor2) :
  length row = S (length p) ->
  Forall (fun v : tensor1 => length v = S D) p ->
  map2 mul_mask (map2 sqerr (diff1 row) (map (fun v : tensor1 => nth D v NaN) p))
       (map (fun i => tne (nth (S i) row NaN) (-1)) (seq 0 (length row - 1)))
  = map (fun q => mul_mask (snd q) (fst q)) (delta_terms row p).
Proof.
  intros Hlen Hw. unfold delta_terms. rewrite map_map. cbn [fst snd].
  assert (Hd : length (diff1 row) = length p) by (rewrite diff1_length; lia).
  assert (Hdp : length (diff1 row)
                = length (map (fun v : tensor1 => nth D v NaN) p))
    by (rewrite length_map; exact Hd).
  rewrite (map2_nth mul_mask _ _ NaN false).
  2:{ rewrite length_map, length_seq, map2_length by exact Hdp. lia. }
  rewrite map2_length by exact Hdp. rewrite Hd.
  replace (length row - 1)%nat with (length p) by lia.
  apply map_ext_in. intros i Hi. apply in_seq in Hi.
  rewrite (map2_nth sqerr _ _ NaN NaN) by exact Hdp.
  rewrite (nth_map_in _ (seq 0 (length (diff1 row))) i 0%nat NaN)
    by (rewrite length_seq; lia).
  rewrite seq_nth by lia. cbn [Nat.add].
  rewrite (nth_map_in _ (seq 0 (length p)) i 0%nat false)
    by (rewrite length_seq; lia).
  rewrite seq_nth by lia. cbn [Nat.add].
  rewrite diff1_nth by lia.
  rewrite (nth_map_in (fun v : tensor1 => nth D v NaN) p i [] NaN) by lia.
  f_equal. f_equal.
  rewrite last_nth.
  rewrite Forall_forall in Hw. rewrite (Hw (nth i p [])) by (apply nth_In; lia).
  f_equal. lia.
Qed.

Lemma delta_rows_masked (D : nat) (time_steps : tensor2) (pred : tensor3) :
  one_step_longer time_steps pred -> width3 (S D) pred ->
  map2 (map2 mul_mask)
       (map2 (map2 sqerr) (map diff1 time_steps) (channel D pred))
       (next_step_mask time_steps)
  = map2 (fun row p => map (fun q => mul_mask (snd q) (fst q)) (delta_terms row p))
         time_steps pred
  /\ next_step_mask time_steps
     = map2 (fun row p => map fst (delta_terms row p)) time_steps pred.
Proof.
  unfold one_step_longer, width3, channel, next_step_mask.
  induction 1 as [| row p rows ps Hrp _ IH]; intros Hw; [split; reflexivity |].
  inversion Hw as [| ? ? Hwp Hws]; subst.
  destruct (IH Hws) as (IH1 & IH2). cbn [map]. rewrite !map2_cons. split.
  - f_equal; [apply delta_row_masked; assumption | exact IH1].
  - f_equal; [| exact IH2].
    unfold delta_terms. rewrite map_map. reflexivity.
Qed.

Lemma concat_map2_map {A B C D : Type} (g : C -> D) (f : A -> B -> list C)
  (xs : list A) (ys : list B) :
  concat (map2 (fun x y => map g (f x y)) xs ys) = map g (concat (map2 f xs ys)).
Proof.
  unfold map2. rewrite concat_map, map_map. reflexivity.
Qed.

Lemma delta_terms_finite (D : nat) (time_steps : tensor2) (pred : tensor3) :
  one_step_longer time_steps pred ->
  width3 (S D) pred ->
  Forall (Forall finite) time_steps ->
  Forall (Forall (Forall finite)) pred ->
  Forall (fun q : bool * tnum => finite (snd q))
         (concat (map2 delta_terms time_steps pred)).
Proof.
  unfold one_step_longer, width3.
  induction 1 as [| row p rows ps Hrp _ IH]; intros Hw Ht Hp; [constructor |].
  inversion Ht as [| ? ? Hrow Hrows]; inversion Hp as [| ? ? Hpp Hps];
    inversion Hw as [| ? ? Hwp Hws]; subst.
  rewrite map2_cons. cbn [concat]. apply Forall_app. split; [| auto].
  unfold delta_terms. apply Forall_forall. intros q Hq.
  apply in_map_iff in Hq. destruct Hq as (i & <- & Hi). apply in_seq in Hi.
  cbn [snd]. apply sqerr_finite.
  - apply tsub_finite; apply nth_finite; try assumption; lia.
  - rewrite Forall_forall in Hpp, Hwp.
    assert (Hin : In (nth i p []) p) by (apply nth_In; lia).
    rewrite last_nth. apply nth_finite; [apply Hpp; exact Hin |].
    rewrite (Hwp _ Hin). lia.
Qed.

(** When deltas are in use, the tensors fit each other, all entries are
    finite and the predicted deltas have a number of steps other than one,
    the delta loss of the call is the fused average of the specification. *)
Lemma delta_loss_fused (self : BaseMixin.t) (output : Output) (D : nat) :
  use_deltas (BaseMixin.model_conf self) = true ->
  width3 (S D) (out_pred output) ->
  one_step_longer (out_time_steps output) (out_pred output) ->
  (exists s, In s (out_pred output) /\ length s <> 1%nat) ->
  Forall (Forall finite) (out_time_steps output) ->
  Forall (Forall (Forall finite)) (out_pred output) ->
  masked_delta_loss self output
  = Ok (fused_delta_average (out_time_steps output) (out_pred output)).
Proof.
  intros Hd Hw Hs (s0 & Hin & Hne) Hft Hfp.
  unfold masked_delta_loss, BaseMixin.split_delta, BaseMixin.delta_branch.
  rewrite Hd.
  change (-1)%Z with (- Z.of_nat 1)%Z.
  rewrite (select_last_trailing (S D) 1 _ Hw) by lia.
  replace (S D - 1)%nat with D by lia. cbn [bind fst snd].
  rewrite squeeze_last_keeps.
  2:{ exists (map (fun v : tensor1 => nth D v NaN) s0). split.
      - unfold channel. apply in_map. exact Hin.
      - rewrite length_map. exact Hne. }
  rewrite delta_loss_same_shape.
  2:{ unfold deltas_fit, channel. apply Forall2_map_r.
      eapply Forall2_impl; [| exact Hs]. intros row p H. simpl in H.
      rewrite length_map. exact H. }
  f_equal.
  rewrite fused_delta_average_rows by (apply (Forall2_length Hs)).
  cbv zeta.
  destruct (delta_rows_masked D _ _ Hs Hw) as (Hnum & Hmask).
  rewrite Hnum. unfold sum_all, count_all. rewrite Hmask at 1.
  rewrite !concat_map2_map.
  rewrite tsum_masked_filter by (eapply delta_terms_finite; eauto).
  rewrite count_true_filter. reflexivity.
Qed.

Lemma tsum_squares_fin (rs : list R) :
  tsum (map (fun v => tmul v v) (map Fin rs)) = Fin (sum_squares rs).
Proof.
  induction rs as [| r rs IH]; [reflexivity |].
  cbn [map]. rewrite tsum_cons, IH. reflexivity.
Qed.

Lemma sum_squares_nonneg (rs : list R) : 0 <= sum_squares rs.
Proof.
  induction rs as [| r rs IH]; [cbn; lra |].
  change (0 <= r * r + sum_squares rs).
  pose proof (Rle_0_sqr r) as H. unfold Rsqr in H. lra.
Qed.

Lemma sum_squares_zero (rs : list R) :
  (forall r, In r rs -> r = 0) -> sum_squares rs = 0.
Proof.
  induction rs as [| a rs IH]; intros H; [reflexivity |].
  change (a * a + sum_squares rs = 0).
  rewrite (H a (or_introl eq_refl)), IH; [lra |].
  intros r Hr. apply H. right. exact Hr.
Qed.

Lemma ew1_column {A B C : Type} (op : A -> B -> C) (xs : list A) (y : B) :
  ew1 op xs [y] = Ok (map (fun x => op x y) xs).
Proof.
  unfold ew1, bcast.
  destruct xs as [| x [| x' xs]]; cbn [length Nat.eqb]; try reflexivity.
  cbn [mapM]. rewrite mapM_pure. reflexivity.
Qed.

Lemma L2_forward_rows (x : tensor2) :
  L2Normalization.forward x = Ok (map unit_row x).
Proof.
  unfold L2Normalization.forward, ew2, bcast, view_column, norm_dim1.
  rewrite !length_map, Nat.eqb_refl.
  induction x as [| row x IH]; [reflexivity |].
  cbn [map zipM]. rewrite ew1_column. cbn [bind].
  rewrite IH. reflexivity.
Qed.

Lemma tsqrt_fin (r : R) : 0 <= r -> tsqrt (Fin r) = Fin (sqrt r).
Proof. intros H. unfold tsqrt. destruct (Rlt_dec r 0); [lra | reflexivity]. Qed.

Lemma unit_row_zero (rs : list R) :
  sum_squares rs = 0 -> unit_row (map Fin rs) = repeat NaN (length rs).
Proof.
  intros Hs. unfold unit_row.
  rewrite tsum_squares_fin, Hs, tsqrt_fin, sqrt_0 by lra.
  assert (Hall : forall r, In r rs -> r = 0).
  { clear -Hs. induction rs as [| a rs IH]; intros r Hin; [destruct Hin |].
    change (a * a + sum_squares rs = 0) in Hs.
    pose proof (sum_squares_nonneg rs) as Hn.
    pose proof (Rle_0_sqr a) as Ha. unfold Rsqr in Ha.
    assert (Ha0 : a * a = 0) by lra.
    destruct Hin as [<- | Hin].
    - apply Rmult_integral in Ha0. tauto.
    - apply IH; [lra | exact Hin]. }
  clear Hs. induction rs as [| a rs IH]; [reflexivity |].
  cbn [map length repeat]. f_equal.
  - rewrite (Hall a (or_introl eq_refl)). unfold tdiv.
    destruct (Req_dec_T 0 0) as [_ | Hne]; [| contradiction].
    destruct (total_order_T 0 0) as [[H | _] | H]; [lra | reflexivity | lra].
  - apply IH. intros r Hr. apply Hall. right. exact Hr.
Qed.

(** X16: [L2Normalization] does not guard the zero vector: a row of zeros
    is divided by its norm 0 and comes back as a row of NaN of the same
    length, without an error. *)
Theorem L2Normalization_zero_row (x : tensor2) (b : nat) :
  (b < length x)%nat ->
  Forall (fun v => v = Fin 0) (nth b x []) ->
  exists y,
    L2Normalization.forward x = Ok y /\
    nth b y [] = repeat NaN (length (nth b x [])).
Proof.
  intros Hb Hzero. exists (map unit_row x).
  split; [apply L2_forward_rows |].
  rewrite (nth_map_in unit_row x b [] []) by exact Hb.
  assert (Hrs : nth b x [] = map Fin (repeat 0 (length (nth b x [])))).
  { clear Hb. induction Hzero as [| v l -> _ IH]; [reflexivity |].
    cbn [length repeat map]. f_equal. exact IH. }
  rewrite Hrs at 1. rewrite unit_row_zero.
  - rewrite repeat_length. reflexivity.
  - apply sum_squares_zero. intros r Hr. apply repeat_spec in Hr. exact Hr.
Qed.

Lemma L2Normalization_zero_row_witness :
  exists y,
    L2Normalization.forward [[Fin 0; Fin 0]] = Ok y /\
    nth 0 y [] = repeat NaN (length (nth 0 [[Fin 0; Fin 0]] [])).
Proof.
  apply (L2Normalization_zero_row [[Fin 0; Fin 0]] 0).
  - cbn. lia.
  - repeat constructor.
Defined.

(** ** The full model loss at its edges *)

(** X1: a model without categorical features cannot compute its loss: the
    per-feature cross-entropies form an empty list, which [torch.cat]
    refuses, so [BaseMixin.loss] raises whatever the numeric and delta parts
    gave. *)
Theorem loss_without_categorical_raises (self : BaseMixin.t) (output : Output) :
  out_emb_dist output = [] ->
  exists e, BaseMixin.loss self output = Err e.
Proof.
  intros Hempty. unfold BaseMixin.loss.
  destruct (BaseMixin.split_delta self output) as [[[pd pred] gt] | e];
    cbn [bind]; [| eauto].
  destruct (BaseMixin.mse_loop self pred _ _ _) as [mse | e]; cbn [bind]; [| eauto].
  destruct (BaseMixin.delta_branch self output pd) as [delta | e];
    cbn [bind]; [| eauto].
  rewrite Hempty. cbn. eauto.
Qed.

Lemma loss_without_categorical_raises_witness :
  exists e, BaseMixin.loss numeric_model numeric_output = Err e.
Proof.
  apply (loss_without_categorical_raises numeric_model numeric_output).
  reflexivity.
Defined.

(** ** Which channel a numeric feature meets, beyond the configured count *)

Lemma py_index_out_of_range {A : Type} (v : list A) (i : Z) :
  (i < - Z.of_nat (length v) \/ Z.of_nat (length v) <= i)%Z ->
  py_index v i = Err IndexError.
Proof.
  intros H. unfold py_index.
  destruct (i <? 0)%Z eqn:E.
  - apply Z.ltb_lt in E.
    destruct H as [H | H]; [| lia].
    assert (Hr : (0 <=? i + Z.of_nat (length v))%Z = false) by (apply Z.leb_gt; lia).
    rewrite Hr. reflexivity.
  - apply Z.ltb_ge in E.
    destruct H as [H | H]; [lia |].
    assert (Hr : (i <? Z.of_nat (length v))%Z = false) by (apply Z.ltb_ge; lia).
    rewrite Hr, andb_false_r. reflexivity.
Qed.

Lemma mapM_err_in {A B : Type} (f : A -> result B) (l : list A) (e : error) :
  (exists a, In a l) -> (forall a, In a l -> f a = Err e) -> mapM f l = Err e.
Proof.
  intros [a Ha] H. destruct l as [| a0 l]; [destruct Ha |].
  cbn [mapM]. rewrite (H a0) by (left; reflexivity). reflexivity.
Qed.

Lemma mapM_err_somewhere {A B : Type} (f : A -> result B) (l : list A) (e : error) :
  (forall a, In a l -> f a = Err e \/ exists b, f a = Ok b) ->
  (exists a, In a l /\ f a = Err e) ->
  mapM f l = Err e.
Proof.
  induction l as [| a0 l IH]; intros Hall (a & Hin & Ha); [destruct Hin |].
  cbn [mapM].
  destruct (Hall a0 (or_introl eq_refl)) as [He | [b Hb]].
  - rewrite He. reflexivity.
  - rewrite Hb. cbn [bind].
    destruct Hin as [-> | Hin]; [congruence |].
    rewrite IH; [reflexivity | | eauto].
    intros a' Ha'. apply Hall. right. exact Ha'.
Qed.

Lemma select_last_out_of_range (D : nat) (pred : tensor3) (i : Z) :
  width3 D pred -> has_vector pred ->
  (i < - Z.of_nat D \/ Z.of_nat D <= i)%Z ->
  select_last pred i = Err IndexError.
Proof.
  intros Hw (s & Hs & Hne) Hi. unfold select_last.
  unfold width3 in Hw. rewrite Forall_forall in Hw.
  assert (Hrow : forall s', In s' pred -> s' <> [] ->
            mapM (fun v : tensor1 => py_index v i) s' = Err IndexError).
  { intros s' Hs' Hne'. apply mapM_err_in.
    - destruct s' as [| v s']; [congruence | exists v; left; reflexivity].
    - intros v Hv. apply py_index_out_of_range.
      specialize (Hw s' Hs'). rewrite Forall_forall in Hw. rewrite (Hw v Hv).
      exact Hi. }
  apply mapM_err_somewhere.
  - intros s' Hs'. destruct s' as [| v s'].
    + right. exists []. reflexivity.
    + left. apply Hrow; [exact Hs' | discriminate].
  - exists s. split; [exact Hs | apply Hrow; assumption].
Qed.

(** X3: the numeric loop does not stop at the configured number of numeric
    features.  When the payload carries more entries that are not embedding
    names than the [N] configured, and no more than [N + D], the loop
    returns: the first [N] entries are read against the trailing channels
    [D - N], ..., [D - 1], and the counter then reaches 0 and goes negative,
    so that the entry at position [N + j] is read against channel [j]
    counted from the front of the prediction. *)
Theorem surplus_numeric_entry_reads_front (self : BaseMixin.t) (pred : tensor3)
  (items : dict tensor2) (D : nat) (total : tnum) :
  let N := BaseMixin.all_numeric_size self in
  let numeric := numeric_items self items in
  width3 D pred ->
  (N <= D)%nat ->
  (N < length numeric <= N + D)%nat ->
  Forall (fun kv => one_step_longer (snd kv) pred) numeric ->
  BaseMixin.mse_loop self pred items total (Z.of_nat N)
  = Ok (tadd total
          (tsum (map (fun p =>
                        numeric_feature_loss pred (snd (snd p))
                          (if (fst p <? N)%nat
                           then (D - (N - fst p))%nat
                           else (fst p - N)%nat))
                     (combine (seq 0 (length numeric)) numeric)))).
Proof.
  intros N numeric Hw HN Hlen Hshape.
  rewrite (mse_loop_channels self pred items total D (Z.of_nat N));
    [| exact Hw | lia | fold numeric; lia | exact Hshape].
  fold numeric. do 2 f_equal. unfold countdown_loss. f_equal.
  apply map_ext. intros [k kv]. cbn [fst snd]. f_equal.
  unfold indexed_channel.
  destruct (k <? N)%nat eqn:E.
  - apply Nat.ltb_lt in E.
    assert (E' : (0 <? Z.of_nat N - Z.of_nat k)%Z = true) by (apply Z.ltb_lt; lia).
    rewrite E'. lia.
  - apply Nat.ltb_ge in E.
    assert (E' : (0 <? Z.of_nat N - Z.of_nat k)%Z = false) by (apply Z.ltb_ge; lia).
    rewrite E'. lia.
Qed.

Lemma mse_feature_out_of_range (D : nat) (pred : tensor3)
  (values : tensor2) (n : Z) :
  width3 D pred ->
  has_vector pred ->
  (Z.of_nat D < n \/ n <= - Z.of_nat D)%Z ->
  BaseMixin.mse_feature pred values n = Err IndexError.
Proof.
  intros Hw Hv Hn. unfold BaseMixin.mse_feature.
  rewrite (select_last_out_of_range D pred (- n) Hw Hv) by lia.
  reflexivity.
Qed.

(** X4: when more numeric features are configured than the prediction has
    channels, the numeric loop raises [IndexError] at its first entry: the
    countdown starts at [N = all_numeric_size], and the index [-N] lies
    outside a vector of [D < N] channels. *)
Theorem too_few_channels_raises (self : BaseMixin.t) (pred : tensor3)
  (items : dict tensor2) (total : tnum) (D : nat) :
  width3 D pred ->
  has_vector pred ->
  numeric_items self items <> [] ->
  (D < BaseMixin.all_numeric_size self)%nat ->
  BaseMixin.mse_loop self pred items total
    (Z.of_nat (BaseMixin.all_numeric_size self)) = Err IndexError.
Proof.
  intros Hw Hv Hne HD. rewrite mse_loop_fold.
  destruct (numeric_items self items) as [| entry rest]; [congruence |].
  cbn [countdown fold_left]. rewrite add_feature_ok. cbn [fst snd].
  rewrite (mse_feature_out_of_range D) by (try assumption; lia).
  cbn [bind]. apply fold_add_feature_err.
Qed.

Lemma surplus_numeric_entry_reads_front_witness :
  BaseMixin.mse_loop numeric_model [[[Fin 1; Fin 2]]] surplus_items (Fin 0)
    (Z.of_nat 1)
  = Ok (tadd (Fin 0)
          (tsum (map (fun p =>
                        numeric_feature_loss [[[Fin 1; Fin 2]]] (snd (snd p))
                          (if (fst p <? 1)%nat
                           then (2 - (1 - fst p))%nat
                           else (fst p - 1)%nat))
                     (combine (seq 0 2) surplus_items)))).
Proof.
  apply (surplus_numeric_entry_reads_front numeric_model [[[Fin 1; Fin 2]]]
           surplus_items 2 (Fin 0)).
  - repeat constructor.
  - cbn. lia.
  - cbn. lia.
  - repeat constructor.
Defined.

Lemma too_few_channels_raises_witness :
  BaseMixin.mse_loop two_numeric_model [[[Fin 1]]] surplus_items (Fin 0) 2
  = Err IndexError.
Proof.
  apply (too_few_channels_raises two_numeric_model [[[Fin 1]]] surplus_items
           (Fin 0) 1).
  - repeat constructor.
  - exists [[Fin 1]]. split; [left; reflexivity | discriminate].
  - discriminate.
  - cbn. lia.
Defined.

(** ** The layout of the predicted vector *)

Lemma nth_removelast {A : Type} (l : list A) (c : nat) (d : A) :
  (c < length l - 1)%nat -> nth c (removelast l) d = nth c l d.
Proof.
  intros H. rewrite removelast_firstn_len, nth_firstn.
  assert (Hc : (c <? Nat.pred (length l))%nat = true) by (apply Nat.ltb_lt; lia).
  rewrite Hc. reflexivity.
Qed.

Lemma width3_drop_last (D : nat) (pred : tensor3) :
  width3 D pred -> width3 (D - 1) (drop_last3 pred).
Proof.
  unfold width3, drop_last3. intros Hw.
  rewrite Forall_map. eapply Forall_impl; [| exact Hw].
  intros s Hs. rewrite Forall_map. eapply Forall_impl; [| exact Hs].
  intros v Hv. cbn beta.
  rewrite removelast_firstn_len, length_firstn, Hv.
  destruct D as [| D]; cbn [Nat.pred]; lia.
Qed.

Lemma one_step_longer_drop_last (values : tensor2) (pred : tensor3) :
  one_step_longer values pred -> one_step_longer values (drop_last3 pred).
Proof.
  unfold one_step_longer, drop_last3. intros H.
  apply Forall2_map_r. eapply Forall2_impl; [| exact H].
  intros row p Hrp. cbn beta. rewrite length_map. exact Hrp.
Qed.

(** A channel that is not the last one is read alike before and after the
    last channel is stripped. *)
Lemma numeric_feature_loss_drop_last (D c : nat) (pred : tensor3)
  (values : tensor2) :
  width3 D pred -> (c < D - 1)%nat ->
  numeric_feature_loss (drop_last3 pred) values c
  = numeric_feature_loss pred values c.
Proof.
  intros Hw Hc. unfold numeric_feature_loss. f_equal.
  apply map_ext. intros b. cbn zeta.
  assert (Hv : forall t,
            nth c (nth t (nth b (drop_last3 pred) []) []) NaN
            = nth c (nth t (nth b pred []) []) NaN).
  { intros t. unfold drop_last3.
    change (@nil (list tnum)) with (map (@removelast tnum) []) at 1.
    rewrite map_nth.
    change (@nil tnum) with (@removelast tnum []) at 1.
    rewrite map_nth.
    destruct (Nat.lt_ge_cases b (length pred)) as [Hb | Hb].
    - destruct (Nat.lt_ge_cases t (length (nth b pred []))) as [Ht | Ht].
      + apply nth_removelast.
        unfold width3 in Hw. rewrite Forall_forall in Hw.
        specialize (Hw _ (nth_In pred [] Hb)). rewrite Forall_forall in Hw.
        rewrite (Hw _ (nth_In _ [] Ht)). exact Hc.
      + rewrite (nth_overflow (nth b pred []) []) by exact Ht.
        cbn. destruct c; reflexivity.
    - rewrite (nth_overflow pred []) by exact Hb.
      rewrite nth_nil. cbn. destruct c; reflexivity. }
  f_equal. f_equal. apply map_ext. intros t. rewrite Hv. reflexivity.
Qed.

(** X5: the layout of the predicted vector that the constructor and the
    loss agree on.  For a model built by [BaseMixin.__init__] and a
    prediction of [input_dim] channels, [input_dim] is the categorical
    length plus the number of numeric features plus one when deltas are
    used; the loss of the numeric features compares the k-th numeric entry
    of the payload with channel [categorical_len + k] of the prediction, and
    with deltas in use the delta loss reads its prediction from channel
    [categorical_len + N], the last one. *)
Theorem prediction_layout (mc : ModelConf) (dc : DataConf)
  (proc : FeatureProcessor) (output : Output) :
  let self := BaseMixin.init mc dc proc in
  let C := EmbeddingPredictor.categorical_len (BaseMixin.embedding_predictor self) in
  let N := BaseMixin.all_numeric_size self in
  let numeric := numeric_items self (payload (out_input_batch output)) in
  width3 (BaseMixin.input_dim self) (out_pred output) ->
  (length numeric <= N)%nat ->
  Forall (fun kv => one_step_longer (snd kv) (out_pred output)) numeric ->
  BaseMixin.input_dim self = (C + N + (if use_deltas mc then 1 else 0))%nat
  /\ numeric_loss self output
     = Ok (tsum (map (fun p =>
                        numeric_feature_loss (out_pred output) (snd (snd p))
                          (C + fst p))
                     (combine (seq 0 (length numeric)) numeric)))
  /\ (use_deltas mc = true ->
      masked_delta_loss self output
      = BaseMixin.delta_loss (out_time_steps output)
          (squeeze_last (channel (C + N) (out_pred output)))).
Proof.
  intros self C N numeric Hw Hlen Hshape.
  assert (Hdim : BaseMixin.input_dim self
                 = (C + N + (if use_deltas mc then 1 else 0))%nat).
  { subst self C N. cbn. unfold keys. rewrite length_map. lia. }
  split; [exact Hdim |].
  rewrite Hdim in Hw.
  unfold numeric_loss, masked_delta_loss, BaseMixin.split_delta, BaseMixin.delta_branch.
  change (use_deltas (BaseMixin.model_conf self)) with (use_deltas mc).
  destruct (use_deltas mc) eqn:Hd.
  - pose proof (select_last_trailing _ 1 _ Hw ltac:(lia)) as Hsel.
    change (- Z.of_nat 1)%Z with (-1)%Z in Hsel.
    rewrite Hsel. cbn [bind fst snd]. split.
    + rewrite mse_loop_fold. fold numeric. fold N.
      pose proof (width3_drop_last _ _ Hw) as Hw'.
      rewrite (numeric_fold_spec _ numeric (C + N + 1 - 1) N Hw').
      * f_equal. unfold numeric_loss_spec. f_equal.
        apply map_ext_in. intros [k kv] Hin. cbn [fst snd].
        apply in_combine_l in Hin. apply in_seq in Hin.
        rewrite (numeric_feature_loss_drop_last (C + N + 1)) by (try assumption; lia).
        f_equal. lia.
      * lia.
      * eapply Forall_impl; [| exact Hshape].
        intros kv Hkv. apply one_step_longer_drop_last. exact Hkv.
    + intros _. do 3 f_equal. lia.
  - cbn [bind fst snd]. split; [| discriminate].
    rewrite mse_loop_fold. fold numeric. fold N.
    rewrite (numeric_fold_spec _ numeric (C + N + 0) N Hw);
      [| lia | exact Hshape].
    f_equal. unfold numeric_loss_spec. f_equal.
    apply map_ext_in. intros [k kv] Hin. cbn [fst snd].
    apply in_combine_l in Hin. apply in_seq in Hin.
    f_equal. lia.
Qed.

Lemma prediction_layout_witness :
  BaseMixin.input_dim layout_model = (1 + 2 + 1)%nat
  /\ numeric_loss layout_model layout_output
     = Ok (tsum (map (fun p =>
                        numeric_feature_loss (out_pred layout_output)
                          (snd (snd p)) (1 + fst p))
                     (combine (seq 0 2)
                        [("amount"%string, [[Fin 1; Fin 3]]);
                         ("balance"%string, [[Fin 2; Fin 5]])])))
  /\ (true = true ->
      masked_delta_loss layout_model layout_output
      = BaseMixin.delta_loss (out_time_steps layout_output)
          (squeeze_last (channel (1 + 2) (out_pred layout_output)))).
Proof.
  apply (prediction_layout delta_conf masked_data
           {| processor_emb_names := ["cat"%string] |} layout_output).
  - repeat constructor.
  - cbn. lia.
  - repeat constructor.
Defined.

(** ** No part of the loss is negative *)

Lemma sqerr_not_negative (a b : tnum) : not_negative (sqerr a b).
Proof.
  unfold sqerr. destruct (tsub a b) as [r | | |]; cbn; try exact I.
  pose proof (Rle_0_sqr r) as H. unfold Rsqr in H. exact H.
Qed.

Lemma tadd_not_negative (x y : tnum) :
  not_negative x -> not_negative y -> not_negative (tadd x y).
Proof. destruct x, y; cbn; try tauto. lra. Qed.

Lemma tmul_not_negative (x y : tnum) :
  not_negative x -> not_negative y -> not_negative (tmul x y).
Proof.
  destruct x as [a | | |], y as [b | | |]; cbn; try tauto.
  - intros Ha Hb. apply Rmult_le_pos; assumption.
  - intros Ha _. unfold inf_times.
    destruct (total_order_T a 0) as [[H | H] | H]; cbn; [lra | exact I | exact I].
  - intros _ Hb. unfold inf_times.
    destruct (total_order_T b 0) as [[H | H] | H]; cbn; [lra | exact I | exact I].
Qed.

Lemma tsum_not_negative (l : tensor1) :
  Forall not_negative l -> not_negative (tsum l).
Proof.
  induction 1 as [| x l Hx _ IH]; [cbn; lra |].
  rewrite tsum_cons. apply tadd_not_negative; assumption.
Qed.

Lemma tdivn_not_negative (x : tnum) (n : nat) :
  not_negative x -> not_negative (tdivn x n).
Proof.
  destruct x as [r | | |]; cbn; try tauto; intros Hr.
  - destruct n as [| n].
    + cbn. destruct (total_order_T r 0) as [[H | H] | H]; cbn; [lra | exact I | exact I].
    + cbn [tdivn not_negative].
      apply Rmult_le_pos; [exact Hr |].
      apply Rlt_le, Rinv_0_lt_compat, lt_0_INR. lia.
  - destruct n; exact I.
  - destruct n; exact I.
Qed.

Lemma mean_not_negative (l : tensor1) :
  Forall not_negative l -> not_negative (mean l).
Proof. intros H. apply tdivn_not_negative, tsum_not_negative, H. Qed.

Lemma mul_mask_not_negative (x : tnum) (b : bool) :
  not_negative x -> not_negative (mul_mask x b).
Proof.
  intros H. apply tmul_not_negative; [exact H |]. destruct b; cbn; lra.
Qed.

(** What holds of every combination holds of every entry of a broadcast. *)
Lemma ew1_Forall {A B C : Type} (op : A -> B -> C) (P : C -> Prop)
  (Q : A -> Prop) (xs : list A) (ys : list B) (r : list C) :
  ew1 op xs ys = Ok r ->
  Forall Q xs ->
  (forall a b, Q a -> P (op a b)) ->
  Forall P r.
Proof.
  intros H HQ Hop. apply Forall_forall. intros c Hc.
  destruct (bcast_In _ _ _ _ H c Hc) as (a & b & Ha & _ & Hab).
  inversion Hab; subst c. apply Hop.
  rewrite Forall_forall in HQ. apply HQ, Ha.
Qed.

Lemma ew2_Forall {A B C : Type} (op : A -> B -> C) (P : C -> Prop)
  (Q : A -> Prop) (xs : list (list A)) (ys : list (list B)) (r : list (list C)) :
  ew2 op xs ys = Ok r ->
  Forall (Forall Q) xs ->
  (forall a b, Q a -> P (op a b)) ->
  Forall (Forall P) r.
Proof.
  intros H HQ Hop. apply Forall_forall. intros row Hrow.
  destruct (bcast_In _ _ _ _ H row Hrow) as (xr & yr & Hxr & _ & Hf).
  eapply ew1_Forall; [exact Hf | | exact Hop].
  rewrite Forall_forall in HQ. apply HQ, Hxr.
Qed.

Lemma Forall_Forall_True {A : Type} (t : list (list A)) :
  Forall (Forall (fun _ => True)) t.
Proof. apply Forall_forall. intros l _. apply Forall_forall. auto. Qed.

Lemma masked_mse_mean_not_negative (gt_val pred_val : tensor2) (v : tnum) :
  BaseMixin.masked_mse_mean gt_val pred_val = Ok v -> not_negative v.
Proof.
  unfold BaseMixin.masked_mse_mean, mse_fn. intros H.
  inv_bind H as mse_loss Hmse. inv_bind H as masked Hmasked.
  inv_bind H as ratio Hratio. inversion H; subst v; clear H.
  assert (H1 : Forall (Forall not_negative) mse_loss).
  { eapply ew2_Forall; [exact Hmse | apply Forall_Forall_True |].
    intros a b _. apply sqerr_not_negative. }
  assert (H2 : Forall (Forall not_negative) masked).
  { eapply ew2_Forall; [exact Hmasked | exact H1 |].
    intros a b Ha. apply mul_mask_not_negative, Ha. }
  apply mean_not_negative.
  eapply ew1_Forall; [exact Hratio | | ].
  - apply Forall_map. eapply Forall_impl; [| exact H2].
    intros row Hrow. apply tsum_not_negative, Hrow.
  - intros a n Ha. apply tdivn_not_negative, Ha.
Qed.

Lemma mse_loop_not_negative (self : BaseMixin.t) (pred : tensor3)
  (items : dict tensor2) (total : tnum) (n : Z) (v : tnum) :
  not_negative total ->
  BaseMixin.mse_loop self pred items total n = Ok v -> not_negative v.
Proof.
  revert total n. induction items as [| [key values] items IH]; intros total n Ht H.
  - cbn in H. inversion H; subst. exact Ht.
  - cbn [BaseMixin.mse_loop] in H.
    destruct (negb (mem key _)); [| eapply IH; eauto].
    inv_bind H as term Hterm.
    eapply IH; [| exact H].
    apply tadd_not_negative; [exact Ht |].
    unfold BaseMixin.mse_feature in Hterm.
    inv_bind Hterm as pv Hpv.
    eapply masked_mse_mean_not_negative; exact Hterm.
Qed.

Lemma delta_loss_not_negative (time_steps : tensor2) (pred_delta : tensor12)
  (v : tnum) :
  BaseMixin.delta_loss time_steps pred_delta = Ok v -> not_negative v.
Proof.
  rewrite delta_loss_unfold. intros H.
  inv_bind H as delta_mse Hmse. inv_bind H as masked Hmasked.
  inversion H; subst v; clear H.
  assert (H1 : Forall (Forall not_negative) delta_mse).
  { destruct pred_delta as [pv | pm]; cbn [mse_fn12] in Hmse; unfold mse_fn in Hmse;
      (eapply ew2_Forall; [exact Hmse | apply Forall_Forall_True |]);
      intros a b _; apply sqerr_not_negative. }
  assert (H2 : Forall (Forall not_negative) masked).
  { eapply ew2_Forall; [exact Hmasked | exact H1 |].
    intros a b Ha. apply mul_mask_not_negative, Ha. }
  apply tdivn_not_negative. unfold sum_all. apply tsum_not_negative.
  apply Forall_concat. exact H2.
Qed.

(** The sum of exponentials of a vector is NaN, +inf, or a real that is at
    least the exponential of every finite entry. *)
Lemma texp_not_negative (x : tnum) : not_negative (texp x).
Proof.
  destruct x as [r | | |]; cbn; try exact I; try lra.
  apply Rlt_le, exp_pos.
Qed.

Lemma tsum_fin_bound (l : tensor1) (s e : R) :
  Forall not_negative l -> tsum l = Fin s -> In (Fin e) l -> e <= s.
Proof.
  intros Hl. revert s. induction Hl as [| x l Hx Hl IH]; intros s Hs Hin;
    [destruct Hin |].
  rewrite tsum_cons in Hs.
  pose proof (tsum_not_negative l Hl) as Hrest.
  destruct x as [a | | |], (tsum l) as [b | | |] eqn:Eb; cbn in Hs; try discriminate.
  inversion Hs; subst s. cbn in Hx, Hrest.
  destruct Hin as [Heq | Hin].
  - inversion Heq; subst. lra.
  - specialize (IH b eq_refl Hin). lra.
Qed.

Lemma tsum_In_PInf (l : tensor1) :
  Forall not_negative l -> In PInf l -> tsum l = PInf \/ tsum l = NaN.
Proof.
  induction 1 as [| x l Hx Hl IH]; intros Hin; [destruct Hin |].
  rewrite tsum_cons.
  pose proof (tsum_not_negative l Hl) as Hrest.
  destruct Hin as [-> | Hin].
  - destruct (tsum l); cbn in *; tauto.
  - destruct (IH Hin) as [-> | ->]; destruct x; cbn in *; tauto.
Qed.

Lemma entry_below_log_sum_exp (v : tensor1) (t : nat) :
  (t < length v)%nat ->
  not_negative
    (tneg (nth t (map (fun x => tsub x (tln (tsum (map texp v)))) v) NaN)).
Proof.
  intros Ht.
  rewrite (nth_map_in (fun x => tsub x _) v t NaN NaN) by exact Ht.
  set (S := tsum (map texp v)).
  assert (Hnn : Forall not_negative (map texp v)).
  { apply Forall_map, Forall_forall. intros x _. apply texp_not_negative. }
  pose proof (tsum_not_negative _ Hnn) as HS. fold S in HS.
  assert (Hin : In (texp (nth t v NaN)) (map texp v)).
  { apply in_map, nth_In, Ht. }
  destruct (nth t v NaN) as [a | | |] eqn:Ea.
  - destruct S as [s | | |] eqn:Es; cbn in HS; try contradiction; cbn [tln].
    + pose proof (tsum_fin_bound _ s (exp a) Hnn Es Hin) as Hb.
      pose proof (exp_pos a) as Hpos.
      destruct (total_order_T s 0) as [[H | H] | H]; try lra.
      cbn. assert (a <= ln s).
      { rewrite <- (ln_exp a).
        destruct (Req_dec_T (exp a) s) as [-> | Hne]; [lra |].
        apply Rlt_le, ln_increasing; lra. }
      lra.
    + cbn. exact I.
    + cbn. exact I.
  - cbn in Hin.
    destruct (tsum_In_PInf _ Hnn Hin) as [HS' | HS']; fold S in HS';
      rewrite HS'; cbn; exact I.
  - destruct (tln S) as [r | | |]; cbn; exact I.
  - cbn in Hin.
    assert (HS' : S = NaN).
    { subst S. apply tsum_In_NaN. exact Hin. }
    rewrite HS'. cbn. exact I.
Qed.

Lemma log_softmax_entry_not_positive (v : tensor1) (t : nat) :
  (t < length v)%nat ->
  not_negative (tneg (nth t (log_softmax v) NaN)).
Proof.
  intros Ht. unfold log_softmax. cbv zeta.
  apply entry_below_log_sum_exp. rewrite length_map. exact Ht.
Qed.

Lemma log_softmax_length (v : tensor1) : length (log_softmax v) = length v.
Proof. unfold log_softmax. cbv zeta. rewrite !length_map. reflexivity. Qed.

Lemma ce_position_not_negative (crit : CrossEntropyLoss) (logits : tensor1)
  (target : Z) (a b : tnum) :
  ce_position crit logits target = Ok (Some (a, b)) -> not_negative a.
Proof.
  unfold ce_position. intros H.
  destruct (target =? ignore_index crit)%Z; [discriminate |].
  destruct ((0 <=? target)%Z && (target <? Z.of_nat (length logits))%Z)%bool eqn:E;
    [| discriminate].
  apply andb_true_iff in E. destruct E as [E1 E2].
  apply Z.leb_le in E1. apply Z.ltb_lt in E2.
  inversion H; subst a b.
  apply log_softmax_entry_not_positive. lia.
Qed.

Lemma In_somes {A : Type} (l : list (option A)) (a : A) :
  In a (somes l) <-> In (Some a) l.
Proof.
  unfold somes. rewrite in_flat_map. split.
  - intros ([x |] & Hx & Ha); cbn in Ha; [| contradiction].
    destruct Ha as [<- | []]. exact Hx.
  - intros H. exists (Some a). split; [exact H | left; reflexivity].
Qed.

Lemma cross_entropy_not_negative (crit : CrossEntropyLoss) (logits : tensor3)
  (target : list (list Z)) (v : tnum) :
  label_smoothing crit = 0 ->
  cross_entropy crit logits target = Ok v -> not_negative v.
Proof.
  intros Hs. unfold cross_entropy. intros H.
  inv_bind H as rows Hrows. rewrite Hs in H.
  destruct (Rlt_dec 0 0) as [Hlt | _]; [lra |].
  inversion H; subst v; clear H.
  apply tdivn_not_negative, tsum_not_negative.
  apply Forall_map, Forall_forall. intros [a b] Hab. cbn [fst].
  apply In_somes in Hab. apply in_concat in Hab.
  destruct Hab as (row & Hrow & Hab).
  destruct (zipM_In _ _ _ _ Hrows row Hrow) as (lg & tg & _ & _ & Hf).
  destruct (zipM_In _ _ _ _ Hf _ Hab) as (l & t & _ & _ & Hp).
  eapply ce_position_not_negative; exact Hp.
Qed.

Lemma dict_set_Forall {V : Type} (P : V -> Prop) (d : dict V) (k : string) (v : V) :
  Forall (fun kv => P (snd kv)) d -> P v ->
  Forall (fun kv => P (snd kv)) (dict_set d k v).
Proof.
  intros Hd Hv. induction Hd as [| [k0 v0] d H0 Hd IH]; cbn [dict_set].
  - constructor; [exact Hv | constructor].
  - destruct (String.eqb k0 k); constructor; auto.
Qed.

Lemma dict_update_Forall {V : Type} (P : V -> Prop) (d other : dict V) :
  Forall (fun kv => P (snd kv)) d -> Forall (fun kv => P (snd kv)) other ->
  Forall (fun kv => P (snd kv)) (dict_update d other).
Proof.
  unfold dict_update. intros Hd Ho. revert d Hd.
  induction Ho as [| [k v] other Hv Ho IH]; intros d Hd; cbn [fold_left]; [exact Hd |].
  apply IH. apply dict_set_Forall; assumption.
Qed.

Lemma dict_get_Forall {V : Type} (P : V -> Prop) (d : dict V) (k : string) (v : V) :
  Forall (fun kv => P (snd kv)) d -> dict_get d k = Ok v -> P v.
Proof.
  induction 1 as [| [k0 v0] d H0 Hd IH]; cbn [dict_get]; [discriminate |].
  destruct (String.eqb k0 k); [| exact IH].
  intros H. inversion H; subst. exact H0.
Qed.

Lemma loss_items_not_negative (self : EmbeddingPredictor.t) (items : dict tensor3)
  (batch : PaddedBatch) (acc r : dict tnum) :
  label_smoothing (EmbeddingPredictor.criterion self) = 0 ->
  Forall (fun kv => not_negative (snd kv)) acc ->
  EmbeddingPredictor.loss_items self items batch acc = Ok r ->
  Forall (fun kv => not_negative (snd kv)) r.
Proof.
  intros Hs. revert acc r.
  induction items as [| [name dist] items IH]; intros acc r Hacc H.
  - cbn in H. inversion H; subst. exact Hacc.
  - cbn [EmbeddingPredictor.loss_items] in H.
    inv_bind H as values Hv. inv_bind H as l Hl.
    eapply IH; [| exact H].
    apply dict_set_Forall; [exact Hacc |].
    eapply cross_entropy_not_negative; eauto.
Qed.

(** X6: no entry of the breakdown is negative.  For a model built by the
    constructor whose three mixing weights are not negative, every value of
    a breakdown that the loss returns is a real that is at least 0, +inf, or
    NaN, whatever the tensors hold. *)
Theorem loss_entries_not_negative (mc : ModelConf) (dc : DataConf)
  (proc : FeatureProcessor) (output : Output) (d : dict tnum) :
  0 <= mse_weight mc -> 0 <= CE_weight mc -> 0 <= delta_weight mc ->
  BaseMixin.loss (BaseMixin.init mc dc proc) output = Ok d ->
  Forall (fun kv => not_negative (snd kv)) d.
Proof.
  intros Hm Hc Hd H. unfold BaseMixin.loss in H.
  inv_bind H as sp Hsp. destruct sp as [[pd pred] gt].
  inv_bind H as mse Hmse. inv_bind H as delta Hdelta.
  inv_bind H as ce Hce. inv_bind H as ce_total Htotal.
  inv_bind H as mse_entry Hentry. inversion H; subst d; clear H.
  cbn [BaseMixin.model_conf BaseMixin.init] in *.
  assert (Nmse : not_negative mse).
  { eapply mse_loop_not_negative; [| exact Hmse]. cbn. lra. }
  assert (Ndelta : not_negative delta).
  { unfold BaseMixin.delta_branch in Hdelta.
    cbn [BaseMixin.model_conf BaseMixin.init] in Hdelta.
    destruct (use_deltas mc).
    - destruct pd as [pd |]; [| discriminate].
      eapply delta_loss_not_negative; exact Hdelta.
    - inversion Hdelta. cbn. lra. }
  assert (Nce : Forall (fun kv => not_negative (snd kv)) ce).
  { eapply loss_items_not_negative; [| | exact Hce]; [reflexivity | constructor]. }
  assert (Ntotal : not_negative ce_total).
  { apply sum_cat_ok in Htotal. destruct Htotal as [_ ->].
    apply tsum_not_negative. apply Forall_map. exact Nce. }
  assert (Nw : forall w x, 0 <= w -> not_negative x -> not_negative (tmul (Fin w) x)).
  { intros w x Hw Hx. apply tmul_not_negative; [exact Hw | exact Hx]. }
  assert (Ndict : Forall (fun kv => not_negative (snd kv))
            (dict_update
               [("total_mse_loss"%string, mse); ("total_CE_loss"%string, ce_total);
                ("delta_loss"%string, tmul (Fin (delta_weight mc)) delta)] ce)).
  { apply dict_update_Forall; [| exact Nce].
    repeat constructor; cbn [snd]; auto. }
  apply dict_set_Forall; [exact Ndict |].
  pose proof (dict_get_Forall _ _ _ _ Ndict Hentry) as Nentry.
  cbn beta in Nentry.
  apply tadd_not_negative; [apply tadd_not_negative |]; apply Nw; assumption.
Qed.

Lemma loss_entries_not_negative_witness :
  exists d,
    BaseMixin.loss delta_model delta_output = Ok d /\
    Forall (fun kv => not_negative (snd kv)) d.
Proof.
  destruct delta_output_loss as (d & Hd & _).
  exists d. split; [exact Hd |].
  apply (loss_entries_not_negative delta_conf one_cat_data
           {| processor_emb_names := ["cat"%string] |} delta_output d);
    [cbn; lra | cbn; lra | cbn; lra | exact Hd].
Defined.

(** ** Masking by multiplication *)

Lemma masked_non_finite (p : tnum) :
  ~ finite p -> mul_mask (sqerr (Fin 0) p) false = NaN.
Proof.
  intros Hp. destruct p as [r | | |]; cbn in Hp; [tauto | | |].
  - cbn. unfold inf_times.
    destruct (total_order_T 0 0) as [[H | H] | H]; [lra | reflexivity | lra].
  - cbn. unfold inf_times.
    destruct (total_order_T 0 0) as [[H | H] | H]; [lra | reflexivity | lra].
  - reflexivity.
Qed.

(** X7: the mask does not shield a padded position.  The squared error is
    multiplied by the mask, so on a well-shaped batch a prediction that is
    NaN or infinite at a position whose target is the padding value 0 makes
    the loss of that numeric feature NaN. *)
Theorem padded_position_not_shielded (D n : nat) (pred : tensor3)
  (values : tensor2) (b t : nat) :
  width3 D pred ->
  (1 <= n <= D)%nat ->
  one_step_longer values pred ->
  (b < length values)%nat ->
  (S t < length (nth b values []))%nat ->
  nth (S t) (nth b values []) NaN = Fin 0 ->
  ~ finite (nth (D - n) (nth t (nth b pred []) []) NaN) ->
  BaseMixin.mse_feature pred values (Z.of_nat n) = Ok NaN.
Proof.
  intros Hw Hn Hs Hb Ht Hpad Hp.
  rewrite (mse_feature_spec D n pred values Hw Hn Hs). f_equal.
  unfold numeric_feature_loss. apply mean_In_NaN.
  apply in_map_iff. exists b. split; [| apply in_seq; lia].
  cbn zeta. rewrite tsum_In_NaN; [apply tdivn_NaN |].
  apply in_map_iff. exists t. split; [| apply in_seq; lia].
  rewrite Hpad.
  assert (Hm : tne (Fin 0) 0 = false) by (apply tne_false_iff; reflexivity).
  rewrite Hm. apply masked_non_finite. exact Hp.
Qed.

Lemma padded_position_not_shielded_witness :
  BaseMixin.mse_feature poisoned_pred poisoned_values (Z.of_nat 1) = Ok NaN.
Proof.
  apply (padded_position_not_shielded 1 1 poisoned_pred poisoned_values 0 1).
  - repeat constructor.
  - lia.
  - repeat constructor.
  - cbn. lia.
  - cbn. lia.
  - reflexivity.
  - cbn. tauto.
Defined.

(** ** The head losses at their edges *)

Lemma loss_items_item_fails (self : EmbeddingPredictor.t) (items : dict tensor3)
  (batch : PaddedBatch) (acc : dict tnum) (name : string) (dist : tensor3) :
  In (name, dist) items ->
  (forall values, dict_get (payload batch) name = Ok values ->
     exists e, cross_entropy (EmbeddingPredictor.criterion self) dist
                 (drop_first2 (long values)) = Err e) ->
  exists e, EmbeddingPredictor.loss_items self items batch acc = Err e.
Proof.
  revert acc. induction items as [| [n0 d0] items IH]; intros acc Hin Hfail;
    [destruct Hin |].
  cbn [EmbeddingPredictor.loss_items].
  destruct Hin as [Heq | Hin].
  - inversion Heq; subst n0 d0.
    destruct (dict_get (payload batch) name) as [values | e0] eqn:Eg; cbn [bind];
      [| eauto].
    destruct (Hfail values eq_refl) as [e He]. rewrite He. cbn [bind]. eauto.
  - destruct (dict_get (payload batch) n0) as [values | e0]; cbn [bind]; [| eauto].
    destruct (cross_entropy _ d0 _) as [l | e0]; cbn [bind]; [| eauto].
    apply IH; assumption.
Qed.

(** X9: a categorical feature of the distribution that the batch does not
    carry makes the head loss raise: the payload lookup fails. *)
Theorem embedding_loss_missing_feature (self : EmbeddingPredictor.t)
  (dist : dict tensor3) (batch : PaddedBatch) (name : string) :
  In name (keys dist) ->
  ~ In name (keys (payload batch)) ->
  exists e, EmbeddingPredictor.loss self dist batch = Err e.
Proof.
  intros Hin Hmiss. unfold keys in Hin. apply in_map_iff in Hin.
  destruct Hin as ([n d] & Hn & Hin). cbn in Hn. subst n.
  apply (loss_items_item_fails self dist batch [] name d Hin).
  intros values Hv. exfalso. apply Hmiss.
  apply dict_get_in_keys. eauto.
Qed.

Lemma embedding_loss_missing_feature_witness :
  exists e,
    EmbeddingPredictor.loss (EmbeddingPredictor.init delta_conf one_cat_data)
      [("cat"%string, [[[Fin 0; Fin 0]]])]
      {| payload := []; seq_lens := [2%Z] |} = Err e.
Proof.
  apply (embedding_loss_missing_feature _ _ _ "cat"%string).
  - left. reflexivity.
  - intros H. exact H.
Defined.

Lemma zipM_nth {A B C : Type} (f : A -> B -> result C) xs ys r (i : nat)
  (da : A) (db : B) :
  zipM f xs ys = Ok r -> (i < length xs)%nat ->
  exists c, f (nth i xs da) (nth i ys db) = Ok c.
Proof.
  revert ys r i. induction xs as [| x xs IH]; intros [| y ys] r i H Hi;
    cbn in H, Hi; try discriminate; try lia.
  inv_bind H as c Hc. inv_bind H as cs Hcs.
  destruct i as [| i]; cbn; [eauto |].
  eapply IH; [exact Hcs | lia].
Qed.

Lemma nth_drop_first_long (values : tensor2) (b t : nat) :
  (b < length values)%nat ->
  (S t < length (nth b values []))%nat ->
  nth t (nth b (drop_first2 (long values)) []) 0%Z = label_at values b t.
Proof.
  intros Hb Ht. unfold drop_first2, long, label_at.
  rewrite map_map.
  rewrite (nth_map_in (fun x => tl (map long1 x)) values b [] []) by exact Hb.
  rewrite nth_tl.
  apply (nth_map_in long1 _ (S t) NaN 0%Z). exact Ht.
Qed.

(** X10: a label outside the classes of its feature makes the head loss
    raise.  If at some step of some sequence the truncated payload value of
    the next event is not the ignored index and is negative or at least the
    number of class scores at that step, [EmbeddingPredictor.loss] returns
    no breakdown. *)
Theorem embedding_loss_label_out_of_range (self : EmbeddingPredictor.t)
  (dist : dict tensor3) (batch : PaddedBatch) (name : string)
  (logits : tensor3) (values : tensor2) (b t : nat) :
  In (name, logits) dist ->
  dict_get (payload batch) name = Ok values ->
  (b < length logits)%nat ->
  (t < length (nth b logits []))%nat ->
  label_at values b t <> ignore_index (EmbeddingPredictor.criterion self) ->
  (label_at values b t < 0
   \/ Z.of_nat (length (nth t (nth b logits []) [])) <= label_at values b t)%Z ->
  exists e, EmbeddingPredictor.loss self dist batch = Err e.
Proof.
  intros Hin Hget Hb Ht Hign Hout.
  apply (loss_items_item_fails self dist batch [] name logits Hin).
  intros values' Hv'. rewrite Hget in Hv'. inversion Hv'; subst values'.
  destruct (cross_entropy _ logits _) as [v | e] eqn:E; [| eauto].
  exfalso. unfold cross_entropy in E. inv_bind E as rows Hrows.
  destruct (zipM_ok_length _ _ _ _ Hrows) as [Hlen _].
  destruct (zipM_nth _ _ _ _ b [] [] Hrows Hb) as [row Hrow].
  destruct (zipM_ok_length _ _ _ _ Hrow) as [Hlen' _].
  destruct (zipM_nth _ _ _ _ t [] 0%Z Hrow Ht) as [c Hc].
  assert (Hbv : (b < length values)%nat).
  { unfold drop_first2, long in Hlen. rewrite !length_map in Hlen. lia. }
  assert (Htv : (S t < length (nth b values []))%nat).
  { unfold drop_first2, long in Hlen'. rewrite map_map in Hlen'.
    rewrite (nth_map_in (fun x => tl (map long1 x)) values b [] []) in Hlen'
      by exact Hbv.
    assert (Htl : forall l : list Z, length (tl l) = (length l - 1)%nat)
      by (intros [| ? ?]; cbn; lia).
    rewrite Htl, length_map in Hlen'. lia. }
  rewrite (nth_drop_first_long values b t Hbv Htv) in Hc.
  unfold ce_position in Hc.
  destruct (label_at values b t =? _)%Z eqn:E1;
    [apply Z.eqb_eq in E1; contradiction |].
  destruct ((0 <=? label_at values b t)%Z && _)%bool eqn:E2; [| discriminate].
  apply andb_true_iff in E2. destruct E2 as [E2 E3].
  apply Z.leb_le in E2. apply Z.ltb_lt in E3. lia.
Qed.

Lemma embedding_loss_label_out_of_range_witness :
  exists e,
    EmbeddingPredictor.loss (EmbeddingPredictor.init delta_conf one_cat_data)
      [("cat"%string, [[[Fin 0; Fin 0]]])] overflow_batch = Err e.
Proof.
  apply (embedding_loss_label_out_of_range _ _ _ "cat"%string
           [[[Fin 0; Fin 0]]] [[Fin 1; Fin 2]] 0 0).
  - left. reflexivity.
  - reflexivity.
  - cbn. lia.
  - cbn. lia.
  - unfold label_at. cbn [nth long1]. rewrite trunc_R_IZR. cbn. lia.
  - unfold label_at. cbn [nth long1]. rewrite trunc_R_IZR. cbn. lia.
Defined.

Lemma cross_entropy_all_ignored (crit : CrossEntropyLoss) (logits : tensor3)
  (target : list (list Z)) (v : tnum) :
  cross_entropy crit logits target = Ok v ->
  Forall (Forall (fun t => t = ignore_index crit)) target ->
  v = NaN.
Proof.
  unfold cross_entropy. intros H Hall.
  inv_bind H as rows Hrows.
  assert (Hnone : somes (concat rows) = []).
  { destruct (somes (concat rows)) as [| part parts] eqn:E; [reflexivity |].
    exfalso.
    assert (Hin : In part (somes (concat rows))) by (rewrite E; left; reflexivity).
    apply In_somes in Hin. apply in_concat in Hin.
    destruct Hin as (row & Hrow & Hin).
    destruct (zipM_In _ _ _ _ Hrows row Hrow) as (lg & tg & _ & Htg & Hf).
    destruct (zipM_In _ _ _ _ Hf _ Hin) as (l & t & _ & Ht & Hp).
    rewrite Forall_forall in Hall. specialize (Hall tg Htg).
    rewrite Forall_forall in Hall. specialize (Hall t Ht).
    unfold ce_position in Hp. rewrite Hall, Z.eqb_refl in Hp. discriminate. }
  rewrite Hnone in H. cbn [map tsum fold_right length] in H.
  assert (Hz : tdivn (Fin 0) 0 = NaN).
  { cbn. destruct (total_order_T 0 0) as [[Hlt | _] | Hgt]; [lra | reflexivity | lra]. }
  rewrite Hz in H.
  destruct (Rlt_dec 0 (label_smoothing crit)); inversion H; reflexivity.
Qed.

Lemma padding_entry_nan (self : EmbeddingPredictor.t)
  (dist : dict tensor3) (batch : PaddedBatch) (d : dict tnum)
  (name : string) (logits : tensor3) (values : tensor2) :
  EmbeddingPredictor.loss self dist batch = Ok d ->
  NoDup (keys dist) ->
  In (name, logits) dist ->
  dict_get (payload batch) name = Ok values ->
  Forall (fun row : tensor1 =>
            Forall (fun x => long1 x
                             = ignore_index (EmbeddingPredictor.criterion self))
                   (tl row))
         values ->
  dict_get d name = Ok NaN.
Proof.
  intros Hd Hnd Hin Hget Hpad.
  destruct (loss_items_entry self dist batch [] d name logits Hd Hnd Hin)
    as (values' & Hget' & Hentry).
  rewrite Hget in Hget'. inversion Hget'; subst values'.
  assert (Hkey : In name (keys d)).
  { apply (embedding_loss_keys _ _ _ _ Hd). unfold keys.
    apply in_map_iff. exists (name, logits). split; [reflexivity | exact Hin]. }
  apply dict_get_in_keys in Hkey. destruct Hkey as [v Hv].
  rewrite Hv. f_equal. rewrite Hv in Hentry. symmetry in Hentry.
  apply (cross_entropy_all_ignored _ _ _ _ Hentry).
  unfold drop_first2, long. rewrite map_map.
  apply Forall_map. eapply Forall_impl; [| exact Hpad].
  intros row Hrow. cbn beta.
  assert (Htl : tl (map long1 row) = map long1 (tl row)) by (destruct row; reflexivity).
  rewrite Htl. apply Forall_map. exact Hrow.
Qed.

(** X11: a categorical feature with no valid label gives NaN, not an error
    and not zero.  When the head loss returns a breakdown and the labels of
    a feature are the ignored index at every event after the first, the
    entry of that feature is NaN. *)
Theorem embedding_loss_all_padding (self : EmbeddingPredictor.t)
  (dist : dict tensor3) (batch : PaddedBatch) (d : dict tnum)
  (name : string) (logits : tensor3) (values : tensor2) :
  EmbeddingPredictor.loss self dist batch = Ok d ->
  NoDup (keys dist) ->
  In (name, logits) dist ->
  dict_get (payload batch) name = Ok values ->
  Forall (fun row : tensor1 =>
            Forall (fun x => long1 x
                             = ignore_index (EmbeddingPredictor.criterion self))
                   (tl row))
         values ->
  dict_get d name = Ok NaN.
Proof.
  exact (padding_entry_nan self dist batch d name logits values).
Qed.

Lemma embedding_loss_all_padding_witness :
  exists d,
    EmbeddingPredictor.loss (EmbeddingPredictor.init delta_conf one_cat_data)
      [("cat"%string, [[[Fin 0; Fin 0]]])] padding_batch = Ok d
    /\ dict_get d "cat"%string = Ok NaN.
Proof.
  assert (Hd : EmbeddingPredictor.loss
                 (EmbeddingPredictor.init delta_conf one_cat_data)
                 [("cat"%string, [[[Fin 0; Fin 0]]])] padding_batch
               = Ok [("cat"%string, NaN)]).
  { unfold EmbeddingPredictor.loss. cbn [EmbeddingPredictor.loss_items padding_batch
      payload dict_get String.eqb Ascii.eqb Bool.eqb bind].
    cbn [long drop_first2 map tl long1]. rewrite trunc_R_IZR.
    unfold cross_entropy. cbn. real_dec; reflexivity. }
  exists [("cat"%string, NaN)]. split; [exact Hd |].
  apply (embedding_loss_all_padding _ _ _ _ "cat"%string [[[Fin 0; Fin 0]]]
           [[Fin 1; Fin 0]] Hd).
  - repeat constructor. intros H. exact H.
  - left. reflexivity.
  - reflexivity.
  - repeat constructor. cbn [long1]. apply trunc_R_IZR.
Defined.

(** ** The first event of a sequence is never a target *)

Lemma mse_loop_same_after_first (self : BaseMixin.t) (pred : tensor3)
  (p p' : dict tensor2) (total : tnum) (n : Z) :
  same_after_first p p' ->
  BaseMixin.mse_loop self pred p' total n = BaseMixin.mse_loop self pred p total n.
Proof.
  intros H. revert total n.
  induction H as [| [k v] [k' v'] p p' [Hk Hv] _ IH]; intros total n; [reflexivity |].
  cbn [fst snd] in Hk, Hv. subst k'.
  cbn [BaseMixin.mse_loop].
  destruct (negb (mem k _)); [| apply IH].
  unfold BaseMixin.mse_feature, float. rewrite Hv.
  destruct (select_last pred (- n)) as [pv | e]; cbn [bind]; [| reflexivity].
  destruct (BaseMixin.masked_mse_mean _ pv) as [term | e]; cbn [bind];
    [apply IH | reflexivity].
Qed.

Lemma dict_get_same_after_first (p p' : dict tensor2) (k : string) :
  same_after_first p p' ->
  match dict_get p k, dict_get p' k with
  | Ok v, Ok v' => drop_first2 v = drop_first2 v'
  | Err e, Err e' => e = e'
  | _, _ => False
  end.
Proof.
  induction 1 as [| [k0 v] [k0' v'] p p' [Hk Hv] _ IH]; [reflexivity |].
  cbn [fst snd] in Hk, Hv. subst k0'. cbn [dict_get].
  destruct (String.eqb k0 k); [exact Hv | exact IH].
Qed.

Lemma drop_first2_long (values : tensor2) :
  drop_first2 (long values) = long (drop_first2 values).
Proof.
  unfold drop_first2, long. rewrite !map_map. apply map_ext.
  intros [| x row]; reflexivity.
Qed.

Lemma loss_items_same_after_first (self : EmbeddingPredictor.t)
  (items : dict tensor3) (batch batch' : PaddedBatch) (acc : dict tnum) :
  same_after_first (payload batch) (payload batch') ->
  EmbeddingPredictor.loss_items self items batch' acc
  = EmbeddingPredictor.loss_items self items batch acc.
Proof.
  intros H. revert acc.
  induction items as [| [name dist] items IH]; intros acc; [reflexivity |].
  cbn [EmbeddingPredictor.loss_items].
  pose proof (dict_get_same_after_first _ _ name H) as Hg.
  destruct (dict_get (payload batch) name) as [v | e],
           (dict_get (payload batch') name) as [v' | e']; try contradiction.
  - cbn [bind]. rewrite !drop_first2_long, Hg.
    destruct (cross_entropy _ dist _); cbn [bind]; [apply IH | reflexivity].
  - subst e'. reflexivity.
Qed.

(** X12: the first event of a sequence is never a target.  Two payloads
    with the same keys whose tensors agree from the second event on give the
    same result of the full model loss, breakdown or error. *)
Theorem loss_skips_first_event (self : BaseMixin.t) (output : Output)
  (p' : dict tensor2) :
  same_after_first (payload (out_input_batch output)) p' ->
  BaseMixin.loss self (with_payload output p') = BaseMixin.loss self output.
Proof.
  intros H.
  unfold BaseMixin.loss, BaseMixin.split_delta, BaseMixin.delta_branch.
  cbn [with_payload out_pred out_x out_time_steps out_input_batch out_emb_dist
       payload].
  assert (Hloop : forall pred total n,
            BaseMixin.mse_loop self pred p' total n
            = BaseMixin.mse_loop self pred (payload (out_input_batch output)) total n).
  { intros. apply mse_loop_same_after_first. exact H. }
  assert (Hce : EmbeddingPredictor.loss (BaseMixin.embedding_predictor self)
                  (out_emb_dist output)
                  {| payload := p'; seq_lens := seq_lens (out_input_batch output) |}
                = EmbeddingPredictor.loss (BaseMixin.embedding_predictor self)
                    (out_emb_dist output) (out_input_batch output)).
  { unfold EmbeddingPredictor.loss. apply loss_items_same_after_first. exact H. }
  rewrite Hce.
  destruct (use_deltas (BaseMixin.model_conf self)); cbn [bind].
  - destruct (select_last (out_pred output) (-1)); cbn [bind]; [| reflexivity].
    rewrite Hloop. reflexivity.
  - rewrite Hloop. reflexivity.
Qed.

Lemma loss_skips_first_event_witness :
  BaseMixin.loss amount_model
    (with_payload amount_output
       [("cat"%string, [[Fin 2; Fin 1]]); ("amount"%string, [[Fin 7; Fin 3]])])
  = BaseMixin.loss amount_model amount_output.
Proof.
  apply (loss_skips_first_event amount_model amount_output).
  repeat constructor.
Defined.

(** ** The shape of what the cell returns *)

Lemma cell_row_length (self : GRUCell.t) (G : nat) (x g h : tensor1) :
  GRUCell.built self G ->
  length (cell_row self x g h) = GRUCell.hidden_size self.
Proof.
  intros (Hx2h & Hh2h & Hmix). unfold cell_row.
  set (H := GRUCell.hidden_size self) in *.
  assert (Hxl : forall v, length (affine (GRUCell.x2h self) v) = (3 * H)%nat)
    by (intros; eapply affine_length; eauto).
  assert (Hhl : forall v, length (affine (GRUCell.h2h self) v) = (3 * H)%nat)
    by (intros; eapply affine_length; eauto).
  assert (Hml : forall v, length (affine (GRUCell.mix_global self) v) = H)
    by (intros; eapply affine_length; eauto).
  repeat rewrite ?length_map, ?map2_length_min, ?length_firstn, ?length_skipn,
    ?Hxl, ?Hhl, ?Hml.
  lia.
Qed.

Lemma shape2_rows (B W : nat) (t : tensor2) :
  shape2 B W t ->
  t = map (fun i => nth i t []) (seq 0 B)
  /\ forall i, In i (seq 0 B) -> length (nth i t []) = W.
Proof.
  intros [HB HW]. split.
  - rewrite <- HB. apply map_nth_seq.
  - intros i Hi. apply in_seq in Hi. rewrite Forall_forall in HW.
    apply HW, nth_In. lia.
Qed.

Lemma GRUCell_forward_total (self : GRUCell.t) (G B : nat)
  (input global_hidden h : tensor2) :
  GRUCell.built self G ->
  shape2 B (GRUCell.input_size self) input ->
  shape2 B G global_hidden ->
  shape2 B (GRUCell.hidden_size self) h ->
  exists hy,
    GRUCell.forward self input global_hidden (Some h) = Ok hy
    /\ shape2 B (GRUCell.hidden_size self) hy
    /\ hy = map (fun i => cell_row self (nth i input []) (nth i global_hidden [])
                            (nth i h []))
                (seq 0 B).
Proof.
  intros Hbuilt Hi Hg Hh.
  destruct (shape2_rows _ _ _ Hi) as [Ei Li].
  destruct (shape2_rows _ _ _ Hg) as [Eg Lg].
  destruct (shape2_rows _ _ _ Hh) as [Eh Lh].
  eexists. split; [| split; [| reflexivity]].
  - rewrite Ei at 1. rewrite Eg at 1. rewrite Eh at 1.
    apply (forward_rows self G (seq 0 B) _ _ _ Hbuilt); assumption.
  - split; [rewrite length_map, length_seq; reflexivity |].
    apply Forall_map, Forall_forall. intros i _.
    apply (cell_row_length self G). exact Hbuilt.
Qed.

Lemma shape2_zeros (B W : nat) : shape2 B W (zeros2 B W).
Proof.
  unfold shape2, zeros2. split; [apply repeat_length |].
  apply Forall_forall. intros v Hv. apply repeat_spec in Hv. subst v.
  apply repeat_length.
Qed.

(** X13: on a batch of the widths the cell was constructed for, the cell
    never raises and returns one state of width [hidden_size] per row; the
    missing previous state counts as zeros. *)
Theorem GRUCell_forward_shape (self : GRUCell.t) (G B : nat)
  (input global_hidden : tensor2) (hx : option tensor2) :
  GRUCell.built self G ->
  shape2 B (GRUCell.input_size self) input ->
  shape2 B G global_hidden ->
  match hx with
  | Some h => shape2 B (GRUCell.hidden_size self) h
  | None => True
  end ->
  exists hy,
    GRUCell.forward self input global_hidden hx = Ok hy
    /\ shape2 B (GRUCell.hidden_size self) hy.
Proof.
  intros Hbuilt Hi Hg Hh.
  destruct hx as [h |].
  - destruct (GRUCell_forward_total self G B input global_hidden h Hbuilt Hi Hg Hh)
      as (hy & Hy & Hs & _).
    eauto.
  - change (GRUCell.forward self input global_hidden None)
      with (GRUCell.forward self input global_hidden
              (Some (zeros2 (length input) (GRUCell.hidden_size self)))).
    destruct Hi as [HB HW]. rewrite HB.
    destruct (GRUCell_forward_total self G B input global_hidden
                (zeros2 B (GRUCell.hidden_size self)) Hbuilt
                (conj HB HW) Hg (shape2_zeros _ _))
      as (hy & Hy & Hs & _).
    eauto.
Qed.

Lemma GRUCell_forward_shape_witness :
  exists hy,
    GRUCell.forward unit_cell [[Fin 1]] [[Fin 0]] None = Ok hy
    /\ shape2 1 (GRUCell.hidden_size unit_cell) hy.
Proof.
  apply (GRUCell_forward_shape unit_cell 1 1 [[Fin 1]] [[Fin 0]] None).
  - exact unit_cell_built.
  - split; [reflexivity | repeat constructor].
  - split; [reflexivity | repeat constructor].
  - exact I.
Defined.

Lemma cell_wrong_width (self : GRUCell.t) (G : nat)
  (input global_hidden : tensor2) (hx : option tensor2) :
  GRUCell.built self G ->
  (exists row, In row input /\ length row <> GRUCell.input_size self) ->
  exists e, GRUCell.forward self input global_hidden hx = Err e.
Proof.
  intros (Hx2h & _ & _) (row & Hin & Hrow). unfold GRUCell.forward.
  destruct (cat_last global_hidden _) as [cat | e]; cbn [bind]; [| eauto].
  destruct (Linear_forward (GRUCell.mix_global self) cat) as [mixed | e];
    cbn [bind]; [| eauto].
  assert (Hx : Linear_forward (GRUCell.x2h self) input = Err ShapeError).
  { unfold Linear_forward. apply mapM_err_somewhere.
    - intros a _. destruct (Nat.eqb _ _); eauto.
    - exists row. split; [exact Hin |].
      destruct Hx2h as (-> & _).
      destruct (Nat.eqb (length row) (GRUCell.input_size self)) eqn:E;
        [apply Nat.eqb_eq in E; contradiction | reflexivity]. }
  rewrite Hx. cbn [bind]. eauto.
Qed.

(** X14: the cell fails fast on a wrong input width: if some row of the
    input is not [input_size] wide, the cell raises and broadcasts
    nothing. *)
Theorem GRUCell_wrong_input_width_raises (self : GRUCell.t) (G : nat)
  (input global_hidden : tensor2) (hx : option tensor2) :
  GRUCell.built self G ->
  (exists row, In row input /\ length row <> GRUCell.input_size self) ->
  exists e, GRUCell.forward self input global_hidden hx = Err e.
Proof. exact (cell_wrong_width self G input global_hidden hx). Qed.

Lemma GRUCell_wrong_input_width_raises_witness :
  exists e, GRUCell.forward unit_cell [[Fin 1; Fin 2]] [[Fin 0]] None = Err e.
Proof.
  apply (GRUCell_wrong_input_width_raises unit_cell 1).
  - exact unit_cell_built.
  - exists [Fin 1; Fin 2]. split; [left; reflexivity | cbn; lia].
Defined.

(** ** The decoder on a well-shaped batch *)

Lemma zero_linear_shaped (n_in n_out : nat) (b : bool) :
  Linear_shaped (zero_linear n_in n_out b) n_in n_out b.
Proof.
  unfold Linear_shaped, zero_linear. cbn.
  repeat split.
  - apply repeat_length.
  - apply Forall_forall. intros w Hw. apply repeat_spec in Hw. subst w.
    apply repeat_length.
  - destruct b; [split; [reflexivity | apply repeat_length] | reflexivity].
Qed.

Lemma zero_cell_constructor : GRUCell_constructor zero_cell.
Proof.
  intros l i h g b.
  split; [reflexivity |]. split; [reflexivity |]. split; [reflexivity |].
  unfold GRUCell.built. cbn [zero_cell GRUCell.x2h GRUCell.h2h GRUCell.mix_global
    GRUCell.input_size GRUCell.hidden_size GRUCell.bias].
  split; [| split]; apply zero_linear_shaped.
Qed.

Lemma shape3_hd (B T W : nat) (input : tensor3) :
  shape3 B T W input -> (1 <= B)%nat -> length (hd [] input) = T.
Proof.
  intros [HB Hs] H1. destruct input as [| s input]; [cbn in HB; lia |].
  inversion Hs as [| ? ? Hsh _]; subst. destruct Hsh as [Hl _]. exact Hl.
Qed.

Lemma at_step_shape (B T W : nat) (input : tensor3) (t : nat) :
  shape3 B T W input -> (t < T)%nat ->
  exists v, at_step input t = Ok v /\ shape2 B W v.
Proof.
  intros [HB Hs] Ht. unfold at_step.
  exists (map (fun s : tensor2 => nth t s []) input). split.
  - apply mapM_pure_in. intros s Hin. rewrite Forall_forall in Hs.
    destruct (Hs s Hin) as [Hl _]. apply list_get_nth. lia.
  - split; [rewrite length_map; exact HB |].
    apply Forall_map, Forall_forall. intros s Hin.
    rewrite Forall_forall in Hs. destruct (Hs s Hin) as [Hl Hw].
    rewrite Forall_forall in Hw. apply Hw, nth_In. lia.
Qed.

Lemma init_cell (new_cell : nat -> nat -> nat -> nat -> bool -> GRUCell.t)
  (I H G L : nat) (b : bool) (l : nat) :
  GRUCell_constructor new_cell -> (l < L)%nat ->
  exists c,
    list_get (DecoderGRU.rnn_cell_list (DecoderGRU_init new_cell I H G L b)) l = Ok c
    /\ GRUCell.built c G
    /\ GRUCell.hidden_size c = H
    /\ GRUCell.input_size c = match l with O => I | S _ => H end.
Proof.
  intros Hnew Hl. cbn [DecoderGRU_init DecoderGRU.rnn_cell_list].
  destruct l as [| l].
  - eexists. split; [reflexivity |].
    destruct (Hnew 0%nat I H G b) as (Hi & Hh & _ & Hb). auto.
  - exists (new_cell (S l) H H G b). split.
    + unfold list_get. cbn [nth_error].
      rewrite nth_error_map, (nth_error_nth' _ 0%nat)
        by (rewrite length_seq; lia).
      rewrite seq_nth by lia. reflexivity.
    + destruct (Hnew (S l) H H G b) as (Hi & Hh & _ & Hb). auto.
Qed.

Lemma cat_steps_total (B : nat) (outs : list tensor2) :
  outs <> [] -> Forall (fun o : tensor2 => length o = B) outs ->
  exists y, cat_steps outs = Ok y /\ length y = B.
Proof.
  induction outs as [| o outs IH]; intros Hne Hall; [congruence |].
  inversion Hall as [| ? ? Ho Hrest]; subst.
  destruct outs as [| o' outs].
  - exists (map (fun row => [row]) o). split; [reflexivity | apply length_map].
  - destruct (IH ltac:(discriminate) Hrest) as (rest & Hr & Hlen).
    change (cat_steps (o :: o' :: outs))
      with (rest <- cat_steps (o' :: outs) ;;
            zipM (fun (row : tensor1) (r : tensor2) => Ok (row :: r)) o rest).
    rewrite Hr. cbn [bind].
    rewrite (zipM_pure (fun (row : tensor1) (r : tensor2) => row :: r) o rest)
      by lia.
    eexists. split; [reflexivity |].
    rewrite length_map, length_combine. lia.
Qed.

Section DecoderShape.
Variable new_cell : nat -> nat -> nat -> nat -> bool -> GRUCell.t.
Variables (I H G L : nat) (b : bool).
Variables (input : tensor3) (global_hidden : tensor2) (h0 : list tensor2).
Variables (B T : nat).
Hypothesis Hnew : GRUCell_constructor new_cell.
Hypothesis Hin : shape3 B T I input.
Hypothesis Hg : shape2 B G global_hidden.
Hypothesis Hh0 : forall l, (l < L)%nat ->
  exists p, list_get h0 l = Ok p /\ shape2 B H p.

Lemma hidden_at_shape (t l : nat) :
  (t < T)%nat -> (l < L)%nat ->
  exists v,
    hidden_at (DecoderGRU_init new_cell I H G L b) input global_hidden h0 t l = Ok v
    /\ shape2 B H v.
Proof.
  revert l. induction t as [| t IHt]; intros l Ht Hl.
  - induction l as [| l IHl].
    + rewrite hidden_at_step.
      destruct (init_cell new_cell I H G L b 0 Hnew Hl) as (c & -> & Hb & Hh & Hi).
      cbn [bind].
      destruct (at_step_shape B T I input 0 Hin Ht) as (x & -> & Hx). cbn [bind].
      destruct (Hh0 0%nat Hl) as (p & -> & Hp). cbn [bind].
      rewrite <- Hi in Hx. rewrite <- Hh in Hp.
      destruct (GRUCell_forward_total c G B x global_hidden p Hb Hx Hg Hp)
        as (hy & Hy & Hs & _).
      rewrite Hh in Hs. eauto.
    + rewrite hidden_at_step.
      destruct (init_cell new_cell I H G L b (S l) Hnew Hl) as (c & -> & Hb & Hh & Hi).
      cbn [bind].
      destruct (IHl ltac:(lia)) as (x & -> & Hx). cbn [bind].
      destruct (Hh0 (S l) Hl) as (p & -> & Hp). cbn [bind].
      rewrite <- Hi in Hx. rewrite <- Hh in Hp.
      destruct (GRUCell_forward_total c G B x global_hidden p Hb Hx Hg Hp)
        as (hy & Hy & Hs & _).
      rewrite Hh in Hs. eauto.
  - induction l as [| l IHl].
    + rewrite hidden_at_step.
      destruct (init_cell new_cell I H G L b 0 Hnew Hl) as (c & -> & Hb & Hh & Hi).
      cbn [bind].
      destruct (at_step_shape B T I input (S t) Hin Ht) as (x & -> & Hx).
      cbn [bind].
      destruct (IHt 0%nat ltac:(lia) Hl) as (p & -> & Hp). cbn [bind].
      rewrite <- Hi in Hx. rewrite <- Hh in Hp.
      destruct (GRUCell_forward_total c G B x global_hidden p Hb Hx Hg Hp)
        as (hy & Hy & Hs & _).
      rewrite Hh in Hs. eauto.
    + rewrite hidden_at_step.
      destruct (init_cell new_cell I H G L b (S l) Hnew Hl) as (c & -> & Hb & Hh & Hi).
      cbn [bind].
      destruct (IHl ltac:(lia)) as (x & -> & Hx). cbn [bind].
      destruct (IHt (S l) ltac:(lia) Hl) as (p & -> & Hp). cbn [bind].
      rewrite <- Hi in Hx. rewrite <- Hh in Hp.
      destruct (GRUCell_forward_total c G B x global_hidden p Hb Hx Hg Hp)
        as (hy & Hy & Hs & _).
      rewrite Hh in Hs. eauto.
Qed.

Lemma top_states_shape :
  (1 <= L)%nat ->
  exists outs,
    mapM (fun t => hidden_at (DecoderGRU_init new_cell I H G L b) input
                     global_hidden h0 t (L - 1))
         (seq 0 T) = Ok outs
    /\ length outs = T
    /\ Forall (shape2 B H) outs.
Proof.
  intros HL.
  assert (Hgen : forall n s, (s + n <= T)%nat ->
            exists outs,
              mapM (fun t => hidden_at (DecoderGRU_init new_cell I H G L b) input
                               global_hidden h0 t (L - 1))
                   (seq s n) = Ok outs
              /\ length outs = n /\ Forall (shape2 B H) outs).
  { induction n as [| n IHn]; intros s Hs.
    - exists []. repeat split. constructor.
    - cbn [seq mapM].
      destruct (hidden_at_shape s (L - 1)) as (v & -> & Hv); [lia | lia |].
      cbn [bind].
      destruct (IHn (S s) ltac:(lia)) as (outs & -> & Hlen & Hall). cbn [bind].
      exists (v :: outs). repeat split; [cbn; lia | constructor; assumption]. }
  apply (Hgen T 0%nat). lia.
Qed.

End DecoderShape.

Lemma zeros_states (L B H l : nat) :
  (l < L)%nat ->
  exists p, list_get (repeat (zeros2 B H) L) l = Ok p /\ shape2 B H p.
Proof.
  intros Hl. exists (zeros2 B H). split; [| apply shape2_zeros].
  rewrite (list_get_nth _ l []) by (rewrite repeat_length; exact Hl).
  f_equal. apply nth_repeat_lt. exact Hl.
Qed.

Lemma decoder_forward_total
  (new_cell : nat -> nat -> nat -> nat -> bool -> GRUCell.t)
  (I H G L : nat) (b : bool) (input : tensor3) (global_hidden : tensor2)
  (hx : option (list tensor2)) (B T : nat) :
  GRUCell_constructor new_cell ->
  (1 <= L)%nat -> (1 <= B)%nat -> (1 <= T)%nat ->
  shape3 B T I input ->
  shape2 B G global_hidden ->
  match hx with
  | Some h => forall l, (l < L)%nat ->
                exists p, list_get h l = Ok p /\ shape2 B H p
  | None => True
  end ->
  exists y,
    DecoderGRU.forward (DecoderGRU_init new_cell I H G L b) input global_hidden hx
    = Ok y
    /\ shape3 B T H y.
Proof.
  intros Hnew HL HB HT Hin Hg Hhx.
  set (self := DecoderGRU_init new_cell I H G L b).
  set (h0 := match hx with
             | None => repeat (zeros2 (length input) (DecoderGRU.hidden_size self))
                              (DecoderGRU.num_layers self)
             | Some h => h
             end).
  assert (Hh0 : forall l, (l < L)%nat ->
            exists p, list_get h0 l = Ok p /\ shape2 B H p).
  { subst h0. destruct hx as [h |]; [exact Hhx |].
    intros l Hl. destruct Hin as [HBlen _]. rewrite HBlen.
    apply zeros_states. exact Hl. }
  destruct (top_states_shape new_cell I H G L b input global_hidden h0 B T
              Hnew Hin Hg Hh0 HL) as (outs & Houts & Hlen & Hall).
  assert (HBs : Forall (fun o : tensor2 => length o = B) outs).
  { eapply Forall_impl; [| exact Hall]. intros o [Ho _]. exact Ho. }
  destruct (cat_steps_total B outs) as (y & Hy & Hylen);
    [destruct outs; [cbn in Hlen; lia | discriminate] | exact HBs |].
  exists y. split.
  - unfold DecoderGRU.forward. fold h0.
    apply (forward_loops_spec self input global_hidden h0 y HL).
    exists outs. split; [| exact Hy].
    rewrite (shape3_hd B T I input Hin HB). exact Houts.
  - destruct (cat_steps_ok outs y Hy) as (Hf & Hn).
    split; [exact Hylen |].
    apply Forall_forall. intros s Hs.
    destruct (In_nth _ _ [] Hs) as (bi & Hbi & Es).
    split.
    + rewrite Forall_forall in Hf. rewrite (Hf s Hs). exact Hlen.
    + apply Forall_forall. intros v Hv.
      destruct (In_nth _ _ [] Hv) as (t & Ht & Ev).
      assert (Hst : (t < length outs)%nat).
      { rewrite Forall_forall in Hf. rewrite <- (Hf s Hs). exact Ht. }
      rewrite <- Ev, <- Es. rewrite (Hn bi t Hbi Hst).
      rewrite Forall_forall in Hall.
      destruct (Hall (nth t outs []) (nth_In _ _ Hst)) as [Ho Hw].
      rewrite Forall_forall in Hw. apply Hw, nth_In. lia.
Qed.

(** X19: a decoder as its constructor builds it never raises on a
    well-shaped batch.  With at least one layer, a batch of [B >= 1]
    sequences of [T >= 1] vectors of width [input_size], one global vector
    of width [global_hidden_size] per sequence and, when given, one initial
    state of [B] rows of width [hidden_size] per layer, [forward] returns a
    tensor of [B] sequences of [T] vectors of width [hidden_size]. *)
Theorem DecoderGRU_forward_shape
  (new_cell : nat -> nat -> nat -> nat -> bool -> GRUCell.t)
  (I H G L : nat) (b : bool) (input : tensor3) (global_hidden : tensor2)
  (hx : option (list tensor2)) (B T : nat) :
  GRUCell_constructor new_cell ->
  (1 <= L)%nat -> (1 <= B)%nat -> (1 <= T)%nat ->
  shape3 B T I input ->
  shape2 B G global_hidden ->
  match hx with
  | Some h => forall l, (l < L)%nat ->
                exists p, list_get h l = Ok p /\ shape2 B H p
  | None => True
  end ->
  exists y,
    DecoderGRU.forward (DecoderGRU_init new_cell I H G L b) input global_hidden hx
    = Ok y
    /\ shape3 B T H y.
Proof.
  exact (decoder_forward_total new_cell I H G L b input global_hidden hx B T).
Qed.

Lemma DecoderGRU_forward_shape_witness :
  exists y,
    DecoderGRU.forward (DecoderGRU_init zero_cell 1 2 1 2 true)
      [[[Fin 1]; [Fin 2]]] [[Fin 0]] None = Ok y
    /\ shape3 1 2 2 y.
Proof.
  apply (DecoderGRU_forward_shape zero_cell 1 2 1 2 true
           [[[Fin 1]; [Fin 2]]] [[Fin 0]] None 1 2).
  - exact zero_cell_constructor.
  - lia.
  - lia.
  - lia.
  - split; [reflexivity |]. repeat constructor.
  - split; [reflexivity |]. repeat constructor.
  - exact I.
Defined.

(** ** The decoder never looks ahead *)

Lemma at_step_firstn (input : tensor3) (n t : nat) :
  (t < n)%nat -> at_step (map (firstn n) input) t = at_step input t.
Proof.
  intros Ht. unfold at_step.
  induction input as [| s input IH]; [reflexivity |].
  cbn [map mapM]. rewrite IH.
  unfold list_get. rewrite nth_error_firstn.
  assert (E : (t <? n)%nat = true) by (apply Nat.ltb_lt; exact Ht).
  rewrite E. reflexivity.
Qed.

Lemma hidden_at_ext (self : DecoderGRU.t) (input input' : tensor3)
  (g : tensor2) (h0 : list tensor2) (t : nat) :
  (forall t', (t' <= t)%nat -> at_step input t' = at_step input' t') ->
  forall l, hidden_at self input g h0 t l = hidden_at self input' g h0 t l.
Proof.
  induction t as [| t IHt]; intros Hsame l.
  - induction l as [| l IHl].
    + rewrite (hidden_at_step self input g h0 0 0),
        (hidden_at_step self input' g h0 0 0).
      rewrite (Hsame 0%nat) by lia. reflexivity.
    + rewrite (hidden_at_step self input g h0 0 (S l)),
        (hidden_at_step self input' g h0 0 (S l)).
      rewrite IHl. reflexivity.
  - assert (Hprev : forall l', hidden_at self input g h0 t l'
                               = hidden_at self input' g h0 t l').
    { apply IHt. intros t' Ht'. apply Hsame. lia. }
    induction l as [| l IHl].
    + rewrite (hidden_at_step self input g h0 (S t) 0),
        (hidden_at_step self input' g h0 (S t) 0).
      rewrite (Hsame (S t)) by lia. rewrite Hprev. reflexivity.
    + rewrite (hidden_at_step self input g h0 (S t) (S l)),
        (hidden_at_step self input' g h0 (S t) (S l)).
      rewrite IHl, Hprev. reflexivity.
Qed.

Lemma mapM_seq_prefix {B : Type} (f : nat -> result B) (s n k : nat) (r : list B) :
  mapM f (seq s n) = Ok r -> (k <= n)%nat ->
  mapM f (seq s k) = Ok (firstn k r).
Proof.
  revert s k r. induction n as [| n IH]; intros s k r H Hk.
  - assert (k = 0%nat) by lia. subst k. reflexivity.
  - cbn [seq mapM] in H. inv_bind H as b0 Hb. inv_bind H as bs Hbs.
    inversion H; subst r; clear H.
    destruct k as [| k]; [reflexivity |].
    cbn [seq mapM firstn]. rewrite Hb. cbn [bind].
    rewrite (IH (S s) k bs Hbs) by lia. reflexivity.
Qed.

Lemma cat_steps_prefix (outs : list tensor2) (y : tensor3) (n : nat) :
  cat_steps outs = Ok y -> (1 <= n <= length outs)%nat ->
  cat_steps (firstn n outs) = Ok (map (firstn n) y).
Proof.
  revert y n. induction outs as [| o outs IH]; intros y n H Hn; [discriminate |].
  destruct n as [| n]; [lia |].
  destruct outs as [| o' outs].
  - cbn in Hn. assert (n = 0%nat) by lia. subst n.
    cbn in H. inversion H; subst y. cbn [firstn cat_steps].
    f_equal. rewrite map_map. reflexivity.
  - change (cat_steps (o :: o' :: outs))
      with (rest <- cat_steps (o' :: outs) ;;
            zipM (fun (row : tensor1) (r : tensor2) => Ok (row :: r)) o rest) in H.
    inv_bind H as rest Hrest.
    destruct (zipM_ok_length _ _ _ _ H) as (Hlen & _).
    rewrite (zipM_pure (fun (row : tensor1) (r : tensor2) => row :: r) o rest Hlen)
      in H.
    inversion H; subst y; clear H.
    destruct n as [| n].
    + cbn [firstn cat_steps]. f_equal.
      rewrite map_map. cbn [fst snd firstn].
      clear - Hlen. revert rest Hlen.
      induction o as [| row o IHo]; intros [| r rest] Hlen; cbn in Hlen;
        try discriminate; [reflexivity |].
      cbn [combine map]. f_equal. apply IHo. lia.
    + specialize (IH rest (S n) Hrest ltac:(cbn [length] in *; lia)).
      change (firstn (S (S n)) (o :: o' :: outs))
        with (o :: firstn (S n) (o' :: outs)).
      remember (firstn (S n) (o' :: outs)) as tail eqn:Et.
      destruct tail as [| t0 tail]; [cbn in Et; discriminate |].
      change (cat_steps (o :: t0 :: tail))
        with (rest' <- cat_steps (t0 :: tail) ;;
              zipM (fun (row : tensor1) (r : tensor2) => Ok (row :: r)) o rest').
      rewrite IH. cbn [bind].
      rewrite (zipM_pure (fun (row : tensor1) (r : tensor2) => row :: r))
        by (rewrite length_map; exact Hlen).
      f_equal. rewrite map_map.
      clear - Hlen. revert rest Hlen.
      induction o as [| row o IHo]; intros [| r rest] Hlen; cbn in Hlen;
        try discriminate; [reflexivity |].
      cbn [combine map fst snd]. f_equal. apply IHo. lia.
Qed.

Lemma forward_prefix (self : DecoderGRU.t) (input : tensor3)
  (global_hidden : tensor2) (hx : option (list tensor2)) (y : tensor3) (n : nat) :
  (1 <= DecoderGRU.num_layers self)%nat ->
  (1 <= n <= length (hd [] input))%nat ->
  DecoderGRU.forward self input global_hidden hx = Ok y ->
  DecoderGRU.forward self (map (firstn n) input) global_hidden hx
  = Ok (map (firstn n) y).
Proof.
  intros HL Hn Hy. unfold DecoderGRU.forward in *.
  rewrite length_map.
  set (h0 := match hx with
             | None => repeat (zeros2 (length input) (DecoderGRU.hidden_size self))
                              (DecoderGRU.num_layers self)
             | Some h => h
             end) in *.
  apply (forward_loops_spec self input global_hidden h0 y HL) in Hy.
  destruct Hy as (outs & Houts & Hcat).
  apply (forward_loops_spec self (map (firstn n) input) global_hidden h0 _ HL).
  exists (firstn n outs). split.
  - assert (HT : length (hd [] (map (firstn n) input)) = n).
    { destruct input as [| s input]; [cbn in Hn; lia |].
      cbn [map hd]. rewrite length_firstn. cbn [hd] in Hn. lia. }
    rewrite HT.
    rewrite (mapM_ext_in _ (fun t => hidden_at self input global_hidden h0 t
                                       (DecoderGRU.num_layers self - 1))).
    + apply (mapM_seq_prefix _ 0 _ n outs Houts). lia.
    + intros t Ht. apply in_seq in Ht. apply hidden_at_ext.
      intros t' Ht'. apply at_step_firstn. lia.
  - apply cat_steps_prefix; [exact Hcat |].
    rewrite (mapM_ok_length _ _ _ Houts), length_seq. exact Hn.
Qed.

(** X20: decoding a prefix gives the prefix of the decoding.  With at
    least one layer, if the decoder returns [y] on an input, then on the
    input cut to its first [n] steps it returns [y] cut to its first [n]
    steps. *)
Theorem DecoderGRU_forward_prefix (self : DecoderGRU.t) (input : tensor3)
  (global_hidden : tensor2) (hx : option (list tensor2)) (y : tensor3) (n : nat) :
  (1 <= DecoderGRU.num_layers self)%nat ->
  (1 <= n <= length (hd [] input))%nat ->
  DecoderGRU.forward self input global_hidden hx = Ok y ->
  DecoderGRU.forward self (map (firstn n) input) global_hidden hx
  = Ok (map (firstn n) y).
Proof. exact (forward_prefix self input global_hidden hx y n). Qed.

(** X21: the decoder never looks ahead.  With at least one layer, two
    inputs that agree on their first [n] steps give outputs that agree on
    their first [n] steps, under the same global context and initial
    state. *)
Theorem DecoderGRU_forward_causal (self : DecoderGRU.t) (input input' : tensor3)
  (global_hidden : tensor2) (hx : option (list tensor2)) (y y' : tensor3)
  (n : nat) :
  (1 <= DecoderGRU.num_layers self)%nat ->
  (1 <= n <= length (hd [] input))%nat ->
  (n <= length (hd [] input'))%nat ->
  map (firstn n) input = map (firstn n) input' ->
  DecoderGRU.forward self input global_hidden hx = Ok y ->
  DecoderGRU.forward self input' global_hidden hx = Ok y' ->
  map (firstn n) y = map (firstn n) y'.
Proof.
  intros HL Hn Hn' Hsame Hy Hy'.
  pose proof (forward_prefix self input global_hidden hx y n HL Hn Hy) as P.
  pose proof (forward_prefix self input' global_hidden hx y' n HL
                ltac:(lia) Hy') as P'.
  rewrite Hsame in P. rewrite P in P'. inversion P'. reflexivity.
Qed.

Lemma zero_decoder_total (input : tensor3) :
  shape3 1 2 1 input ->
  exists y,
    DecoderGRU.forward zero_decoder input [[Fin 0]] None = Ok y /\ shape3 1 2 2 y.
Proof.
  intros Hin.
  apply (decoder_forward_total zero_cell 1 2 1 2 true input [[Fin 0]] None 1 2).
  - exact zero_cell_constructor.
  - lia.
  - lia.
  - lia.
  - exact Hin.
  - split; [reflexivity |]. repeat constructor.
  - exact I.
Qed.

Lemma ones_linear_shaped (n_in n_out : nat) (b : bool) :
  Linear_shaped (ones_linear n_in n_out b) n_in n_out b.
Proof.
  unfold Linear_shaped, ones_linear. cbn.
  repeat split.
  - apply repeat_length.
  - apply Forall_forall. intros w Hw. apply repeat_spec in Hw. subst w.
    apply repeat_length.
  - destruct b; [split; [reflexivity | apply repeat_length] | reflexivity].
Qed.

Lemma ones_cell_constructor : GRUCell_constructor ones_cell.
Proof.
  intros l i h g b.
  split; [reflexivity |]. split; [reflexivity |]. split; [reflexivity |].
  unfold GRUCell.built. cbn [ones_cell GRUCell.x2h GRUCell.h2h GRUCell.mix_global
    GRUCell.input_size GRUCell.hidden_size GRUCell.bias].
  split; [| split]; apply ones_linear_shaped.
Qed.

(** Two layers, two steps and a supplied initial state. *)
Lemma ones_decoder_total :
  exists y,
    DecoderGRU.forward ones_decoder steps_12 [[Fin 0]] (Some two_layer_state)
    = Ok y.
Proof.
  destruct (decoder_forward_total ones_cell 1 2 1 2 true steps_12 [[Fin 0]]
              (Some two_layer_state) 1 2) as (y & Hy & _).
  - exact ones_cell_constructor.
  - lia.
  - lia.
  - lia.
  - split; [reflexivity |]. repeat constructor.
  - split; [reflexivity |]. repeat constructor.
  - intros l Hl. destruct l as [| [| l]]; [| | lia].
    + eexists. split; [reflexivity |]. split; [reflexivity |]. repeat constructor.
    + eexists. split; [reflexivity |]. split; [reflexivity |]. repeat constructor.
  - exists y. exact Hy.
Qed.

Lemma DecoderGRU_forward_unrolls_witness :
  exists y,
    let state := hidden_at ones_decoder steps_12 [[Fin 0]] two_layer_state in
    DecoderGRU.forward ones_decoder steps_12 [[Fin 0]] (Some two_layer_state) = Ok y
    /\ (DecoderGRU.forward ones_decoder steps_12 [[Fin 0]] (Some two_layer_state)
        = Ok y
        <-> exists outs,
              mapM (fun t => state t 1%nat) (seq 0 2) = Ok outs
              /\ cat_steps outs = Ok y)
    /\ (Forall (fun s : tensor2 => length s = 2%nat) y
        /\ forall b t, (b < length y)%nat -> (t < 2)%nat ->
             exists h, state t 1%nat = Ok h
                       /\ nth t (nth b y []) [] = nth b h [])
    /\ (forall t l,
           state t l
           = (cell <- list_get (DecoderGRU.rnn_cell_list ones_decoder) l ;;
              inp <- match l with
                     | O => at_step steps_12 t
                     | S l' => state t l'
                     end ;;
              p <- match t with
                   | O => list_get two_layer_state l
                   | S t' => state t' l
                   end ;;
              GRUCell.forward cell inp [[Fin 0]] (Some p)))
    /\ (forall t, (t < 2)%nat ->
          state t 0%nat
          = (cell <- list_get (DecoderGRU.rnn_cell_list ones_decoder) 0 ;;
             p <- match t with
                  | O => list_get two_layer_state 0
                  | S t' => state t' 0%nat
                  end ;;
             GRUCell.forward cell (map (fun s : tensor2 => nth t s []) steps_12)
               [[Fin 0]] (Some p))).
Proof.
  destruct ones_decoder_total as [y Hy]. exists y.
  destruct (DecoderGRU_forward_unrolls ones_decoder steps_12 [[Fin 0]]
              (Some two_layer_state) y) as (Hiff & Hout & Hrec & Hslice).
  - cbn. lia.
  - cbn zeta. split; [exact Hy |]. split; [exact Hiff |].
    split; [exact (Hout Hy) |]. split; [exact Hrec |].
    apply Hslice. repeat constructor.
Defined.

Lemma steps_12_shape : shape3 1 2 1 steps_12.
Proof. split; [reflexivity |]. repeat constructor. Qed.

Lemma steps_13_shape : shape3 1 2 1 steps_13.
Proof. split; [reflexivity |]. repeat constructor. Qed.

Lemma DecoderGRU_forward_prefix_witness :
  exists y,
    DecoderGRU.forward zero_decoder steps_12 [[Fin 0]] None = Ok y
    /\ DecoderGRU.forward zero_decoder (map (firstn 1) steps_12) [[Fin 0]] None
       = Ok (map (firstn 1) y).
Proof.
  destruct (zero_decoder_total steps_12 steps_12_shape) as (y & Hy & _).
  exists y. split; [exact Hy |].
  apply (DecoderGRU_forward_prefix zero_decoder steps_12 [[Fin 0]] None y 1).
  - cbn. lia.
  - cbn. lia.
  - exact Hy.
Defined.

Lemma DecoderGRU_forward_causal_witness :
  exists y y',
    DecoderGRU.forward zero_decoder steps_12 [[Fin 0]] None = Ok y
    /\ DecoderGRU.forward zero_decoder steps_13 [[Fin 0]] None = Ok y'
    /\ map (firstn 1) y = map (firstn 1) y'.
Proof.
  destruct (zero_decoder_total steps_12 steps_12_shape) as (y & Hy & _).
  destruct (zero_decoder_total steps_13 steps_13_shape) as (y' & Hy' & _).
  exists y, y'. split; [exact Hy |]. split; [exact Hy' |].
  apply (DecoderGRU_forward_causal zero_decoder steps_12 steps_13 [[Fin 0]] None
           y y' 1).
  - cbn. lia.
  - cbn. lia.
  - cbn. lia.
  - reflexivity.
  - exact Hy.
  - exact Hy'.
Defined.

(** ** The decoder at its edges *)

(** X22: a batch without timesteps cannot be decoded: when the sequences
    of a non-empty batch have no step, [forward] raises whatever the initial
    state is.  Either the initial state is too short for the layers, or no
    output is appended and the final [torch.cat] gets the empty list. *)
Theorem DecoderGRU_empty_sequence_raises (self : DecoderGRU.t) (input : tensor3)
  (global_hidden : tensor2) (hx : option (list tensor2)) :
  input <> [] ->
  hd [] input = [] ->
  exists e, DecoderGRU.forward self input global_hidden hx = Err e.
Proof.
  intros _ HT. unfold DecoderGRU.forward.
  destruct (mapM _ (seq 0 (DecoderGRU.num_layers self))) as [hidden | e];
    [| exists e; reflexivity].
  rewrite HT. cbn. eexists. reflexivity.
Qed.

Lemma DecoderGRU_empty_sequence_raises_witness :
  exists e, DecoderGRU.forward unit_decoder [[]] [[Fin 0]] None = Err e.
Proof.
  apply (DecoderGRU_empty_sequence_raises unit_decoder [[]] [[Fin 0]] None).
  - discriminate.
  - reflexivity.
Defined.

(** X23: an initial state with fewer layers than the decoder has raises
    [IndexError] before any cell runs. *)
Theorem DecoderGRU_short_initial_state_raises (self : DecoderGRU.t)
  (input : tensor3) (global_hidden : tensor2) (h : list tensor2) :
  (length h < DecoderGRU.num_layers self)%nat ->
  DecoderGRU.forward self input global_hidden (Some h) = Err IndexError.
Proof.
  intros Hlen. unfold DecoderGRU.forward.
  assert (Hm : mapM (fun layer => list_get h layer)
                    (seq 0 (DecoderGRU.num_layers self)) = Err IndexError).
  { apply mapM_err_somewhere.
    - intros l _. unfold list_get. destruct (nth_error h l); eauto.
    - exists (length h). split; [apply in_seq; lia |].
      unfold list_get.
      destruct (nth_error h (length h)) as [a |] eqn:E; [| reflexivity].
      assert (Hs : nth_error h (length h) <> None) by (rewrite E; discriminate).
      apply nth_error_Some in Hs. lia. }
  rewrite Hm. reflexivity.
Qed.

Lemma DecoderGRU_short_initial_state_raises_witness :
  DecoderGRU.forward unit_decoder [[[Fin 1]]] [[Fin 0]] (Some []) = Err IndexError.
Proof.
  apply (DecoderGRU_short_initial_state_raises unit_decoder [[[Fin 1]]] [[Fin 0]] []).
  cbn. lia.
Defined.

(** X24: a decoder constructed with [num_layers = 0] is accepted by the
    constructor, which still gives it one cell, but its [forward] cannot
    decode a batch whose sequences have a timestep: the layer loop is empty,
    and [hidden_l] is read unbound at the first step. *)
Theorem DecoderGRU_zero_layers_raises
  (new_cell : nat -> nat -> nat -> nat -> bool -> GRUCell.t)
  (I H G : nat) (b : bool) (input : tensor3) (global_hidden : tensor2)
  (hx : option (list tensor2)) :
  hd [] input <> [] ->
  length (DecoderGRU.rnn_cell_list (DecoderGRU_init new_cell I H G 0 b)) = 1%nat
  /\ DecoderGRU.forward (DecoderGRU_init new_cell I H G 0 b) input global_hidden hx
     = Err NameError.
Proof.
  intros HT. split; [reflexivity |].
  unfold DecoderGRU.forward.
  cbn [DecoderGRU_init DecoderGRU.num_layers seq mapM bind].
  destruct (hd [] input) as [| v s]; [congruence | reflexivity].
Qed.

Lemma DecoderGRU_zero_layers_raises_witness :
  length (DecoderGRU.rnn_cell_list (DecoderGRU_init zero_cell 1 2 1 0 true)) = 1%nat
  /\ DecoderGRU.forward (DecoderGRU_init zero_cell 1 2 1 0 true) steps_12
       [[Fin 0]] None
     = Err NameError.
Proof.
  apply (DecoderGRU_zero_layers_raises zero_cell 1 2 1 true steps_12 [[Fin 0]] None).
  discriminate.
Defined.

Lemma mapM_In_fwd {A B : Type} (f : A -> result B) (l : list A) (r : list B) (a : A) :
  mapM f l = Ok r -> In a l -> exists b, In b r /\ f a = Ok b.
Proof.
  revert r. induction l as [| a0 l IH]; intros r H Hin; [destruct Hin |].
  cbn [mapM] in H. inv_bind H as b0 Hb0. inv_bind H as bs Hbs.
  inversion H; subst r; clear H.
  destruct Hin as [-> | Hin].
  - exists b0. split; [left; reflexivity | exact Hb0].
  - destruct (IH bs Hbs Hin) as (b' & Hb' & Hf).
    exists b'. split; [right; exact Hb' | exact Hf].
Qed.

Lemma hidden_at_bottom (self : DecoderGRU.t) (input : tensor3) (g : tensor2)
  (h0 : list tensor2) (t l : nat) (v : tensor2) :
  hidden_at self input g h0 t l = Ok v ->
  exists v0, hidden_at self input g h0 t 0 = Ok v0.
Proof.
  revert v. induction l as [| l IH]; intros v Hv; [eauto |].
  rewrite hidden_at_step in Hv.
  inv_bind Hv as cell Hc. inv_bind Hv as inp Hi.
  eapply IH. exact Hi.
Qed.

(** X25: the decoder fails fast on a wrong input width.  A decoder as its
    constructor builds it, with at least one layer, raises on a rectangular
    batch as soon as one vector of one sequence is not [input_size] wide. *)
Theorem DecoderGRU_wrong_input_width_raises
  (new_cell : nat -> nat -> nat -> nat -> bool -> GRUCell.t)
  (I H G L : nat) (b : bool) (input : tensor3) (global_hidden : tensor2)
  (hx : option (list tensor2)) (T : nat) :
  GRUCell_constructor new_cell ->
  (1 <= L)%nat ->
  Forall (fun s : tensor2 => length s = T) input ->
  (exists s v, In s input /\ In v s /\ length v <> I) ->
  exists e,
    DecoderGRU.forward (DecoderGRU_init new_cell I H G L b) input global_hidden hx
    = Err e.
Proof.
  intros Hnew HL Hrect (s & v & Hs & Hv & Hwidth).
  set (self := DecoderGRU_init new_cell I H G L b).
  destruct (DecoderGRU.forward self input global_hidden hx) as [y | e] eqn:E;
    [exfalso | eauto].
  unfold DecoderGRU.forward in E.
  set (h0 := match hx with
             | None => repeat (zeros2 (length input) (DecoderGRU.hidden_size self))
                              (DecoderGRU.num_layers self)
             | Some h => h
             end) in E.
  apply (forward_loops_spec self input global_hidden h0 y HL) in E.
  destruct E as (outs & Houts & _).
  assert (HT : length (hd [] input) = T).
  { rewrite Forall_forall in Hrect.
    destruct input as [| s0 input]; [destruct Hs |].
    apply Hrect. left. reflexivity. }
  rewrite HT in Houts.
  destruct (In_nth _ _ [] Hv) as (t & Ht & Ev).
  assert (HtT : (t < T)%nat).
  { rewrite Forall_forall in Hrect. rewrite <- (Hrect s Hs). exact Ht. }
  pose proof (mapM_seq_nth _ 0 T outs [] Houts t HtT) as Htop.
  cbn [Nat.add] in Htop.
  destruct (hidden_at_bottom _ _ _ _ _ _ _ Htop) as [v0 H0].
  rewrite hidden_at_step in H0.
  destruct (init_cell new_cell I H G L b 0 Hnew HL) as (c & Hc & Hb & _ & Hi).
  fold self in Hc. rewrite Hc in H0. cbn [bind] in H0.
  inv_bind H0 as x Hx. inv_bind H0 as p Hp.
  unfold at_step in Hx.
  destruct (mapM_In_fwd _ _ _ s Hx Hs) as (row & Hrow & Hget).
  apply list_get_ok in Hget. destruct Hget as [_ Hnth].
  specialize (Hnth []). rewrite Ev in Hnth. subst row.
  destruct (cell_wrong_width c G x global_hidden (Some p) Hb) as [e He].
  { exists v. split; [exact Hrow |]. rewrite Hi. exact Hwidth. }
  rewrite He in H0. discriminate.
Qed.

Lemma DecoderGRU_wrong_input_width_raises_witness :
  exists e,
    DecoderGRU.forward zero_decoder [[[Fin 1; Fin 2]]] [[Fin 0]] None = Err e.
Proof.
  apply (DecoderGRU_wrong_input_width_raises zero_cell 1 2 1 2 true
           [[[Fin 1; Fin 2]]] [[Fin 0]] None 1).
  - exact zero_cell_constructor.
  - lia.
  - repeat constructor.
  - exists [[Fin 1; Fin 2]], [Fin 1; Fin 2].
    split; [left; reflexivity |]. split; [left; reflexivity |]. cbn. lia.
Defined.

(** ** The classification heads *)

Lemma keys_dict_set_new {V : Type} (d : dict V) (k : string) (v : V) :
  ~ In k (keys d) -> keys (dict_set d k v) = keys d ++ [k].
Proof.
  induction d as [| [k0 v0] d IH]; intros Hn; [reflexivity |].
  cbn [dict_set]. destruct (String.eqb k0 k) eqn:E.
  - apply String.eqb_eq in E. subst k0. exfalso. apply Hn. left. reflexivity.
  - cbn [keys map fst app]. f_equal. apply IH.
    intros H. apply Hn. right. exact H.
Qed.

Lemma init_loop_heads (self : EmbeddingPredictor.t)
  (new_linear : string -> nat -> nat -> Linear) (names : list string)
  (acc : dict Linear) :
  NoDup names ->
  (forall n, In n names ->
     exists conf, dict_get (embeddings (EmbeddingPredictor.data_conf self)) n = Ok conf) ->
  exists heads,
    init_embed_predictors_loop self new_linear names acc = Ok heads
    /\ (forall n conf, In n names ->
          dict_get (embeddings (EmbeddingPredictor.data_conf self)) n = Ok conf ->
          dict_get heads n
          = Ok (new_linear n (features_emb_dim (EmbeddingPredictor.model_conf self))
                  (max_value conf)))
    /\ (forall n, ~ In n names -> dict_get heads n = dict_get acc n).
Proof.
  intros Hnd. revert acc. induction Hnd as [| name names Hnotin Hnd IH];
    intros acc Hconf.
  - exists acc. split; [reflexivity |]. split; [intros n conf [] | reflexivity].
  - cbn [init_embed_predictors_loop].
    destruct (Hconf name (or_introl eq_refl)) as [conf Hc]. rewrite Hc. cbn [bind].
    destruct (IH (dict_set acc name
                    (new_linear name
                       (features_emb_dim (EmbeddingPredictor.model_conf self))
                       (max_value conf))))
      as (heads & Hh & Hin & Hout).
    { intros n Hn. apply Hconf. right. exact Hn. }
    exists heads. split; [exact Hh |]. split.
    + intros n conf' [<- | Hn] Hc'.
      * rewrite Hc in Hc'. inversion Hc'; subst conf'.
        rewrite (Hout name Hnotin). apply dict_get_set_same.
      * apply Hin; assumption.
    + intros n Hn. rewrite Hout by (intros H; apply Hn; right; exact H).
      apply dict_get_set_other. intros ->. apply Hn. left. reflexivity.
Qed.

Lemma feature_block_of_prefix (d i c : nat) (v : tensor1) :
  (i * d + d <= c)%nat ->
  firstn d (skipn (i * d) (firstn c v)) = feature_block d i v.
Proof.
  intros H. unfold feature_block.
  rewrite skipn_firstn_comm, firstn_firstn.
  f_equal. lia.
Qed.

Lemma feature_block_length (d i : nat) (v : tensor1) :
  (i * d + d <= length v)%nat -> length (feature_block d i v) = d.
Proof.
  intros H. unfold feature_block. rewrite length_firstn, length_skipn. lia.
Qed.

Section Heads.
Variables (self : EmbeddingPredictor.t) (heads : dict Linear) (x_recon : tensor3).
Let d := features_emb_dim (EmbeddingPredictor.model_conf self).
Let n := EmbeddingPredictor.num_embeds self.
Let c := EmbeddingPredictor.categorical_len self.
Hypothesis Hc : c = (n * d)%nat.
Hypothesis Hwide : Forall (Forall (fun v : tensor1 => (c <= length v)%nat)) x_recon.

Lemma resized_ok :
  mapM (mapM (fun v : tensor1 => view_groups n d (firstn c v))) x_recon
  = Ok (map (map (fun v : tensor1 =>
                    map (fun i => firstn d (skipn (i * d) (firstn c v))) (seq 0 n)))
            x_recon).
Proof.
  apply mapM_pure_in. intros s Hs. apply mapM_pure_in. intros v Hv.
  rewrite Forall_forall in Hwide. specialize (Hwide s Hs).
  rewrite Forall_forall in Hwide. specialize (Hwide v Hv).
  unfold view_groups. rewrite length_firstn.
  assert (E : Nat.eqb (Nat.min c (length v)) (n * d) = true)
    by (apply Nat.eqb_eq; lia).
  rewrite E. reflexivity.
Qed.

Lemma slice_ok (i : nat) :
  (i < n)%nat ->
  mapM (mapM (fun groups : list tensor1 => list_get groups i))
       (map (map (fun v : tensor1 =>
                    map (fun i => firstn d (skipn (i * d) (firstn c v))) (seq 0 n)))
            x_recon)
  = Ok (map (map (feature_block d i)) x_recon).
Proof.
  intros Hi.
  assert (Hblock : (i * d + d <= c)%nat) by (rewrite Hc; nia).
  rewrite (mapM_pure_in _
             (map (fun groups : list tensor1 => nth i groups []))).
  - f_equal. rewrite map_map. apply map_ext. intros s.
    rewrite !map_map. apply map_ext. intros v.
    rewrite (nth_map_in _ (seq 0 n) i 0%nat []) by (rewrite length_seq; exact Hi).
    rewrite seq_nth by exact Hi. cbn [Nat.add].
    apply feature_block_of_prefix. exact Hblock.
  - intros s Hs. apply mapM_pure_in. intros groups Hg.
    apply list_get_nth.
    apply in_map_iff in Hs. destruct Hs as (s0 & <- & _).
    apply in_map_iff in Hg. destruct Hg as (v & <- & _).
    rewrite length_map, length_seq. exact Hi.
Qed.

Lemma head_ok (head : Linear) (i : nat) :
  (i < n)%nat -> in_features head = d ->
  Linear_forward3 head (map (map (feature_block d i)) x_recon)
  = Ok (map (map (fun v => affine head (feature_block d i v))) x_recon).
Proof.
  intros Hi Hin.
  assert (Hblock : (i * d + d <= c)%nat) by (rewrite Hc; nia).
  unfold Linear_forward3.
  rewrite (mapM_pure_in _ (map (affine head))).
  - f_equal. rewrite map_map. apply map_ext. intros s.
    rewrite !map_map. reflexivity.
  - intros s Hs. apply in_map_iff in Hs. destruct Hs as (s0 & <- & Hs0).
    unfold Linear_forward. apply mapM_pure_in. intros row Hrow.
    apply in_map_iff in Hrow. destruct Hrow as (v & <- & Hv).
    rewrite Forall_forall in Hwide. specialize (Hwide s0 Hs0).
    rewrite Forall_forall in Hwide. specialize (Hwide v Hv).
    rewrite feature_block_length by lia.
    rewrite Hin, Nat.eqb_refl. reflexivity.
Qed.

Lemma forward_loop_spec (names : list string) (s : nat)
  (acc : dict tensor3) :
  NoDup names ->
  (s + length names <= n)%nat ->
  (forall name, In name names -> ~ In name (keys acc)) ->
  (forall name, In name names ->
     exists head, dict_get heads name = Ok head /\ in_features head = d) ->
  exists dist,
    forward_loop self heads
      (map (map (fun v : tensor1 =>
                   map (fun i => firstn d (skipn (i * d) (firstn c v))) (seq 0 n)))
           x_recon)
      (combine (seq s (length names)) names) acc = Ok dist
    /\ keys dist = keys acc ++ names
    /\ (forall k name head,
          nth_error names k = Some name -> dict_get heads name = Ok head ->
          dict_get dist name
          = Ok (map (map (fun v => affine head (feature_block d (s + k) v))) x_recon))
    /\ (forall name, ~ In name names -> dict_get dist name = dict_get acc name).
Proof.
  intros Hnd. revert s acc.
  induction Hnd as [| name names Hnotin Hnd IH]; intros s acc Hlen Hfresh Hheads.
  - exists acc. split; [reflexivity |]. split; [symmetry; apply app_nil_r |].
    split; [intros [| k] ? ? H; discriminate | reflexivity].
  - cbn [length seq combine forward_loop].
    destruct (Hheads name (or_introl eq_refl)) as (head & Hhead & Hin).
    rewrite Hhead. cbn [bind].
    assert (Hs : (s < n)%nat) by (cbn [length] in Hlen; lia).
    fold n. assert (E : (s <? n)%nat = true) by (apply Nat.ltb_lt; exact Hs).
    rewrite E, (slice_ok s Hs). cbn [bind].
    rewrite (head_ok head s Hs Hin). cbn [bind].
    destruct (IH (S s)
                (dict_set acc name
                   (map (map (fun v => affine head (feature_block d s v))) x_recon)))
      as (dist & Hd & Hkeys & Hget & Hother).
    { cbn [length] in Hlen. lia. }
    { intros name' Hn' Hk. apply keys_dict_set_in in Hk.
      destruct Hk as [-> | Hk]; [contradiction |].
      apply (Hfresh name' (or_intror Hn') Hk). }
    { intros name' Hn'. apply Hheads. right. exact Hn'. }
    exists dist. split; [exact Hd |]. split; [| split].
    + rewrite Hkeys, keys_dict_set_new by (apply Hfresh; left; reflexivity).
      rewrite <- app_assoc. reflexivity.
    + intros [| k] name' head' Hk Hh'.
      * cbn in Hk. inversion Hk; subst name'.
        rewrite Hhead in Hh'. inversion Hh'; subst head'.
        rewrite (Hother name Hnotin), dict_get_set_same, Nat.add_0_r. reflexivity.
      * cbn [nth_error] in Hk.
        replace (s + S k)%nat with (S s + k)%nat by lia.
        apply (Hget k name' head' Hk Hh').
    + intros name' Hn'.
      rewrite Hother by (intros H; apply Hn'; right; exact H).
      apply dict_get_set_other. intros ->. apply Hn'. left. reflexivity.
Qed.

End Heads.

Lemma dict_get_nth_error {V : Type} (d : dict V) (i : nat) (k : string) (v : V) :
  NoDup (keys d) -> nth_error d i = Some (k, v) -> dict_get d k = Ok v.
Proof.
  revert i. induction d as [| [k0 v0] d IH]; intros i Hnd Hi;
    [destruct i; discriminate |].
  cbn [keys map fst] in Hnd. inversion Hnd as [| ? ? Hnotin Hnd']; subst.
  destruct i as [| i]; cbn [nth_error] in Hi; cbn [dict_get].
  - inversion Hi; subst. rewrite String.eqb_refl. reflexivity.
  - destruct (String.eqb k0 k) eqn:E.
    + apply String.eqb_eq in E. subst k0. exfalso. apply Hnotin.
      apply nth_error_In in Hi. unfold keys.
      apply in_map_iff. exists (k, v). split; [reflexivity | exact Hi].
    + eapply IH; eauto.
Qed.

Lemma forward_blocks (mc : ModelConf) (dc : DataConf)
  (new_linear : string -> nat -> nat -> Linear) (x_recon : tensor3) :
  Linear_constructor new_linear ->
  NoDup (keys (embeddings dc)) ->
  Forall (Forall (fun v : tensor1 =>
                    (EmbeddingPredictor.categorical_len (EmbeddingPredictor.init mc dc)
                     <= length v)%nat))
         x_recon ->
  exists heads dist,
    init_embed_predictors (EmbeddingPredictor.init mc dc) new_linear = Ok heads
    /\ EmbeddingPredictor_forward (EmbeddingPredictor.init mc dc) heads x_recon
       = Ok dist
    /\ keys dist = keys (embeddings dc)
    /\ forall i name conf,
         nth_error (embeddings dc) i = Some (name, conf) ->
         dict_get dist name
         = Ok (map (map (fun v =>
                           affine (new_linear name (features_emb_dim mc)
                                     (max_value conf))
                                  (feature_block (features_emb_dim mc) i v)))
                   x_recon).
Proof.
  intros Hlin Hnd Hwide.
  set (self := EmbeddingPredictor.init mc dc) in *.
  destruct (init_loop_heads self new_linear (keys (embeddings dc)) [] Hnd)
    as (heads & Hheads & Hget & _).
  { intros name Hn. apply dict_get_in_keys. exact Hn. }
  assert (Hhead : forall name, In name (keys (embeddings dc)) ->
            exists head, dict_get heads name = Ok head
                         /\ in_features head = features_emb_dim mc).
  { intros name Hn.
    destruct (proj1 (dict_get_in_keys _ _) Hn) as [conf Hc].
    eexists. split; [apply (Hget name conf Hn Hc) |].
    destruct (Hlin name (features_emb_dim mc) (max_value conf)) as (Hi & _).
    exact Hi. }
  destruct (forward_loop_spec self heads x_recon eq_refl Hwide
              (keys (embeddings dc)) 0 [] Hnd)
    as (dist & Hd & Hkeys & Hblocks & _).
  { cbn. lia. }
  { intros name _ []. }
  { exact Hhead. }
  exists heads, dist. split; [exact Hheads |]. split; [| split].
  - unfold EmbeddingPredictor_forward.
    rewrite (resized_ok self x_recon eq_refl Hwide). cbn [bind].
    exact Hd.
  - exact Hkeys.
  - intros i name conf Hi.
    assert (Hname : nth_error (keys (embeddings dc)) i = Some name).
    { unfold keys. rewrite nth_error_map, Hi. reflexivity. }
    assert (Hn : In name (keys (embeddings dc))) by (eapply nth_error_In; eauto).
    pose proof (dict_get_nth_error _ _ _ _ Hnd Hi) as Hc.
    rewrite (Hblocks i name _ Hname (Hget name conf Hn Hc)).
    reflexivity.
Qed.

(** X26: every classification head reads its own block of the predicted
    vector and nothing else.  For a predictor built by the constructor from
    a configuration whose embedding names are distinct, and predicted
    vectors at least [categorical_len] wide, [init_embed_predictors] and
    [forward] return; the distribution has the embedding names as keys, in
    configuration order; and the logits of the feature at position [i] are
    its head, a linear map from [features_emb_dim] to the feature's
    [max_value], applied to channels [i * d .. i * d + d - 1] of every
    vector, with [d = features_emb_dim]. *)
Theorem EmbeddingPredictor_forward_blocks (mc : ModelConf) (dc : DataConf)
  (new_linear : string -> nat -> nat -> Linear) (x_recon : tensor3) :
  Linear_constructor new_linear ->
  NoDup (keys (embeddings dc)) ->
  Forall (Forall (fun v : tensor1 =>
                    (EmbeddingPredictor.categorical_len (EmbeddingPredictor.init mc dc)
                     <= length v)%nat))
         x_recon ->
  exists heads dist,
    init_embed_predictors (EmbeddingPredictor.init mc dc) new_linear = Ok heads
    /\ EmbeddingPredictor_forward (EmbeddingPredictor.init mc dc) heads x_recon
       = Ok dist
    /\ keys dist = keys (embeddings dc)
    /\ forall i name conf,
         nth_error (embeddings dc) i = Some (name, conf) ->
         dict_get dist name
         = Ok (map (map (fun v =>
                           affine (new_linear name (features_emb_dim mc)
                                     (max_value conf))
                                  (feature_block (features_emb_dim mc) i v)))
                   x_recon).
Proof. exact (forward_blocks mc dc new_linear x_recon). Qed.

Lemma zero_head_constructor : Linear_constructor zero_head.
Proof. intros name n_in n_out. apply zero_linear_shaped. Qed.

Lemma two_cat_names : NoDup (keys (embeddings two_cat_data)).
Proof.
  cbn. constructor.
  - intros [H | []]. discriminate.
  - constructor; [intros [] | constructor].
Qed.

Lemma EmbeddingPredictor_forward_blocks_witness :
  exists heads dist,
    init_embed_predictors (EmbeddingPredictor.init plain_conf two_cat_data) zero_head
    = Ok heads
    /\ EmbeddingPredictor_forward (EmbeddingPredictor.init plain_conf two_cat_data)
         heads [[[Fin 1; Fin 2; Fin 3]]] = Ok dist
    /\ keys dist = keys (embeddings two_cat_data)
    /\ forall i name conf,
         nth_error (embeddings two_cat_data) i = Some (name, conf) ->
         dict_get dist name
         = Ok (map (map (fun v =>
                           affine (zero_head name (features_emb_dim plain_conf)
                                     (max_value conf))
                                  (feature_block (features_emb_dim plain_conf) i v)))
                   [[[Fin 1; Fin 2; Fin 3]]]).
Proof.
  apply (EmbeddingPredictor_forward_blocks plain_conf two_cat_data zero_head
           [[[Fin 1; Fin 2; Fin 3]]]).
  - exact zero_head_constructor.
  - exact two_cat_names.
  - repeat constructor.
Defined.

(** X27: a predicted vector narrower than the categorical block cannot be
    viewed as [num_embeds] groups of [features_emb_dim] channels: for a
    predictor built by the constructor, [forward] raises as soon as one
    vector has fewer than [categorical_len] channels. *)
Theorem EmbeddingPredictor_forward_narrow_raises (mc : ModelConf) (dc : DataConf)
  (heads : dict Linear) (x_recon : tensor3) :
  (exists s v, In s x_recon /\ In v s
               /\ (length v < EmbeddingPredictor.categorical_len
                                (EmbeddingPredictor.init mc dc))%nat) ->
  EmbeddingPredictor_forward (EmbeddingPredictor.init mc dc) heads x_recon
  = Err ShapeError.
Proof.
  intros (s & v & Hs & Hv & Hlen). unfold EmbeddingPredictor_forward.
  set (f := fun v0 : tensor1 =>
              view_groups (EmbeddingPredictor.num_embeds (EmbeddingPredictor.init mc dc))
                (features_emb_dim
                   (EmbeddingPredictor.model_conf (EmbeddingPredictor.init mc dc)))
                (firstn (EmbeddingPredictor.categorical_len
                           (EmbeddingPredictor.init mc dc)) v0)).
  assert (Hf : forall a, f a = Err ShapeError \/ exists b, f a = Ok b).
  { intros a. unfold f, view_groups. destruct (Nat.eqb _ _); eauto. }
  assert (Hm : mapM (mapM f) x_recon = Err ShapeError).
  { apply mapM_err_somewhere.
    - intros s' _. destruct (mapM f s') as [r | e] eqn:E; [eauto |].
      left. f_equal.
      clear - E Hf. induction s' as [| a s' IH]; [discriminate |].
      cbn [mapM] in E. destruct (Hf a) as [He | [b Hb]].
      + rewrite He in E. cbn in E. congruence.
      + rewrite Hb in E. cbn [bind] in E.
        destruct (mapM f s') as [r |] eqn:E'; cbn in E; [discriminate |].
        inversion E; subst. apply IH. reflexivity.
    - exists s. split; [exact Hs |].
      apply mapM_err_somewhere; [intros a _; apply Hf |].
      exists v. split; [exact Hv |].
      unfold f, view_groups. rewrite length_firstn.
      cbn [EmbeddingPredictor.init EmbeddingPredictor.num_embeds
           EmbeddingPredictor.categorical_len EmbeddingPredictor.model_conf] in *.
      destruct (Nat.eqb _ _) eqn:E; [| reflexivity].
      apply Nat.eqb_eq in E. lia. }
  rewrite Hm. reflexivity.
Qed.

Lemma EmbeddingPredictor_forward_narrow_raises_witness :
  EmbeddingPredictor_forward (EmbeddingPredictor.init plain_conf two_cat_data)
    [] [[[Fin 1]]] = Err ShapeError.
Proof.
  apply (EmbeddingPredictor_forward_narrow_raises plain_conf two_cat_data [] [[[Fin 1]]]).
  exists [[Fin 1]], [Fin 1].
  split; [left; reflexivity |]. split; [left; reflexivity |]. cbn. lia.
Defined.

(** ** The delta channel of the input *)

Lemma diff1_app_zero_nth (row : tensor1) (t : nat) :
  (t < length row)%nat ->
  nth t (diff1 row ++ [Fin 0]) NaN = delta_channel row t.
Proof.
  intros Ht. unfold delta_channel.
  destruct (Nat.ltb (S t) (length row)) eqn:E.
  - apply Nat.ltb_lt in E.
    rewrite app_nth1 by (rewrite diff1_length; lia).
    apply diff1_nth. lia.
  - apply Nat.ltb_ge in E.
    rewrite app_nth2 by (rewrite diff1_length; lia).
    rewrite diff1_length. replace (t - (length row - 1))%nat with 0%nat by lia.
    reflexivity.
Qed.

Lemma zipM_rows {X A B C : Type} (f : A -> B -> result C) (g : X -> C)
  (rows : list X) (a : X -> A) (b : X -> B) :
  (forall r, In r rows -> f (a r) (b r) = Ok (g r)) ->
  zipM f (map a rows) (map b rows) = Ok (map g rows).
Proof.
  induction rows as [| r rows IH]; intros H; [reflexivity |].
  cbn [map zipM]. rewrite (H r (or_introl eq_refl)). cbn [bind].
  rewrite IH by (intros; apply H; right; assumption). reflexivity.
Qed.

Lemma append_deltas_channel (mc : ModelConf) (x : tensor3)
  (time_steps : tensor2) (B T D : nat) :
  use_deltas mc = true ->
  (1 <= T)%nat ->
  shape3 B T D x ->
  shape2 B T time_steps ->
  SeqGen.append_deltas mc x time_steps = Ok (with_delta_channel x time_steps)
  /\ shape3 B T (S D) (with_delta_channel x time_steps).
Proof.
  intros Hd HT [HB Hx] [HBt Ht].
  assert (Hxb : forall b, (b < B)%nat ->
            length (nth b x []) = T
            /\ forall t, (t < T)%nat -> length (nth t (nth b x []) []) = D).
  { intros b Hb. rewrite Forall_forall in Hx.
    assert (Hbx : (b < length x)%nat) by lia.
    destruct (Hx (nth b x []) (nth_In x [] Hbx)) as [Hl Hw].
    split; [exact Hl |]. intros t Htt. rewrite Forall_forall in Hw.
    apply Hw, nth_In. lia. }
  assert (Htb : forall b, (b < B)%nat -> length (nth b time_steps []) = T).
  { intros b Hb. rewrite Forall_forall in Ht. apply Ht, nth_In. lia. }
  split.
  - unfold SeqGen.append_deltas. rewrite Hd. cbn zeta.
    rewrite (map_nth_seq time_steps []) at 1. rewrite HBt, map_map.
    rewrite HB.
    assert (Hz : zeros2 B 1 = map (fun _ : nat => [Fin 0]) (seq 0 B)).
    { pose proof (zeros2_rows (seq 0 B) (fun _ : nat => @nil tnum) 1) as Hrows.
      rewrite length_map, length_seq in Hrows. exact Hrows. }
    rewrite Hz, cat_last_rows. cbn [bind]. rewrite map_map.
    rewrite (map_nth_seq x []) at 1. rewrite HB.
    unfold with_delta_channel. rewrite HB.
    apply zipM_rows. intros b Hb. apply in_seq in Hb.
    destruct (Hxb b ltac:(lia)) as [Hl _].
    rewrite (map_nth_seq (nth b x []) []) at 1. rewrite Hl.
    assert (Hdf : view_column (diff1 (nth b time_steps []) ++ [Fin 0])
                  = map (fun t => [delta_channel (nth b time_steps []) t]) (seq 0 T)).
    { unfold view_column.
      rewrite (map_nth_seq (diff1 (nth b time_steps []) ++ [Fin 0]) NaN) at 1.
      rewrite length_app, diff1_length, (Htb b) by lia. cbn [length].
      replace (T - 1 + 1)%nat with T by lia.
      rewrite map_map. apply map_ext_in. intros t Htt. apply in_seq in Htt.
      f_equal. apply diff1_app_zero_nth. rewrite (Htb b) by lia. lia. }
    rewrite Hdf. apply cat_last_rows.
  - unfold with_delta_channel. split; [rewrite length_map, length_seq; exact HB |].
    apply Forall_map, Forall_forall. intros b Hb. apply in_seq in Hb.
    destruct (Hxb b ltac:(lia)) as [Hl Hw].
    split; [rewrite length_map, length_seq; exact Hl |].
    apply Forall_map, Forall_forall. intros t Htt. apply in_seq in Htt.
    rewrite length_app, Hw by lia. cbn [length]. lia.
Qed.

(** X28: with deltas in use, [SeqGen.forward] appends one channel to every
    vector of the processed input: on a batch of [B] sequences of [T >= 1]
    events the block returns, the widths grow by one, and the new last
    channel at step [t] is the time to the next event, [time_steps[t + 1] -
    time_steps[t]], and 0 at the last step; the other channels are kept. *)
Theorem SeqGen_append_deltas_channel (mc : ModelConf) (x : tensor3)
  (time_steps : tensor2) (B T D : nat) :
  use_deltas mc = true ->
  (1 <= T)%nat ->
  shape3 B T D x ->
  shape2 B T time_steps ->
  SeqGen.append_deltas mc x time_steps = Ok (with_delta_channel x time_steps)
  /\ shape3 B T (S D) (with_delta_channel x time_steps).
Proof. exact (append_deltas_channel mc x time_steps B T D). Qed.

Lemma SeqGen_append_deltas_channel_witness :
  SeqGen.append_deltas delta_conf two_events_x two_events_times
  = Ok (with_delta_channel two_events_x two_events_times)
  /\ shape3 1 2 2 (with_delta_channel two_events_x two_events_times).
Proof.
  apply (SeqGen_append_deltas_channel delta_conf two_events_x two_events_times 1 2 1).
  - reflexivity.
  - lia.
  - split; [reflexivity |]. repeat constructor.
  - split; [reflexivity |]. repeat constructor.
Defined.

Lemma removelast_map_seq {A : Type} (f : nat -> A) (n : nat) :
  removelast (map f (seq 0 (S n))) = map f (seq 0 n).
Proof.
  rewrite seq_S, map_app. cbn [map Nat.add]. apply removelast_last.
Qed.

Lemma input_delta_channel (x : tensor3) (time_steps : tensor2) (B T D : nat) :
  (1 <= T)%nat ->
  shape3 B T D x ->
  shape2 B T time_steps ->
  map (@removelast tnum) (channel D (with_delta_channel x time_steps))
  = map diff1 time_steps.
Proof.
  intros HT [HB Hx] [HBt Ht].
  assert (Hts : map diff1 time_steps
                = map (fun b => diff1 (nth b time_steps [])) (seq 0 B)).
  { rewrite <- HBt, <- (map_map (fun b => nth b time_steps []) diff1).
    rewrite <- map_nth_seq. reflexivity. }
  rewrite Hts.
  unfold channel, with_delta_channel. rewrite HB, !map_map.
  apply map_ext_in. intros b Hb. apply in_seq in Hb.
  assert (Hbx : (b < length x)%nat) by lia.
  rewrite Forall_forall in Hx.
  destruct (Hx (nth b x []) (nth_In x [] Hbx)) as [Hl Hw].
  assert (Hbt : length (nth b time_steps []) = T).
  { rewrite Forall_forall in Ht. apply Ht, nth_In. lia. }
  rewrite Hl, map_map.
  rewrite (map_ext_in _ (delta_channel (nth b time_steps []))).
  2:{ intros t Htt. apply in_seq in Htt.
      rewrite Forall_forall in Hw.
      assert (HD : length (nth t (nth b x []) []) = D) by (apply Hw, nth_In; lia).
      rewrite app_nth2 by lia. rewrite HD, Nat.sub_diag. reflexivity. }
  destruct T as [| T]; [lia |].
  rewrite removelast_map_seq.
  rewrite (map_nth_seq (diff1 (nth b time_steps [])) NaN).
  rewrite diff1_length, Hbt. replace (S T - 1)%nat with T by lia.
  apply map_ext_in. intros t Htt. apply in_seq in Htt.
  unfold delta_channel. rewrite Hbt.
  assert (E : (S t <? S T)%nat = true) by (apply Nat.ltb_lt; lia).
  rewrite E. symmetry. apply diff1_nth. lia.
Qed.

(** X29: the delta that the loss asks for at step [t] is an input of the
    same step.  With deltas in use, [SeqGen.forward] returns the decoder
    input with one more channel, and that last channel, cut by its final
    step, is exactly [time_steps.diff(1)], the ground truth of the delta
    loss: the vector the decoder reads at step [t] carries the value its
    prediction at step [t] is compared with. *)
Theorem delta_target_is_input_channel (mc : ModelConf) (x : tensor3)
  (time_steps : tensor2) (pred_delta : tensor12) (B T D : nat) :
  use_deltas mc = true ->
  (1 <= T)%nat ->
  shape3 B T D x ->
  shape2 B T time_steps ->
  exists decoder_input last_channel,
    SeqGen.append_deltas mc x time_steps = Ok decoder_input
    /\ select_last decoder_input (-1) = Ok last_channel
    /\ map (@removelast tnum) last_channel = map diff1 time_steps
    /\ BaseMixin.delta_loss time_steps pred_delta
       = (delta_mse <- mse_fn12 (map (@removelast tnum) last_channel) pred_delta ;;
          delta_masked <- ew2 mul_mask delta_mse (next_step_mask time_steps) ;;
          Ok (tdivn (sum_all delta_masked)
                (count_all (next_step_mask time_steps)))).
Proof.
  intros Hd HT Hx Ht.
  destruct (append_deltas_channel mc x time_steps B T D Hd HT Hx Ht) as [Happ Hsh].
  exists (with_delta_channel x time_steps),
         (channel D (with_delta_channel x time_steps)).
  assert (E : map (@removelast tnum) (channel D (with_delta_channel x time_steps))
              = map diff1 time_steps)
    by (apply (input_delta_channel x time_steps B T D); assumption).
  split; [exact Happ |]. split; [| split; [exact E |]].
  - assert (Hw : width3 (S D) (with_delta_channel x time_steps)).
    { destruct Hsh as [_ Hrows]. unfold width3.
      eapply Forall_impl; [| exact Hrows]. intros s [_ Hs]. exact Hs. }
    pose proof (select_last_trailing (S D) 1 _ Hw ltac:(lia)) as Hsel.
    change (- Z.of_nat 1)%Z with (-1)%Z in Hsel.
    replace (S D - 1)%nat with D in Hsel by lia. exact Hsel.
  - rewrite E. apply delta_loss_unfold.
Qed.

Lemma delta_target_is_input_channel_witness :
  exists decoder_input last_channel,
    SeqGen.append_deltas delta_conf two_events_x two_events_times = Ok decoder_input
    /\ select_last decoder_input (-1) = Ok last_channel
    /\ map (@removelast tnum) last_channel = map diff1 two_events_times
    /\ BaseMixin.delta_loss two_events_times (Rank2 [[Fin 3]])
       = (delta_mse <-
            mse_fn12 (map (@removelast tnum) last_channel) (Rank2 [[Fin 3]]) ;;
          delta_masked <- ew2 mul_mask delta_mse (next_step_mask two_events_times) ;;
          Ok (tdivn (sum_all delta_masked)
                (count_all (next_step_mask two_events_times)))).
Proof.
  apply (delta_target_is_input_channel delta_conf two_events_x two_events_times
           (Rank2 [[Fin 3]]) 1 2 1).
  - reflexivity.
  - lia.
  - split; [reflexivity |]. repeat constructor.
  - split; [reflexivity |]. repeat constructor.
Defined.

(** ** From the predicted vectors to the head losses *)

Lemma zipM_total {A B C : Type} (f : A -> B -> result C) xs ys :
  Forall2 (fun x y => exists c, f x y = Ok c) xs ys ->
  exists r, zipM f xs ys = Ok r.
Proof.
  induction 1 as [| x y xs ys [c Hc] _ [r Hr]]; [exists []; reflexivity |].
  cbn [zipM]. rewrite Hc. cbn [bind]. rewrite Hr. cbn [bind]. eauto.
Qed.

Lemma Forall2_nth {A B : Type} (P : A -> B -> Prop) (xs : list A) (ys : list B)
  (da : A) (db : B) :
  length xs = length ys ->
  (forall i, (i < length xs)%nat -> P (nth i xs da) (nth i ys db)) ->
  Forall2 P xs ys.
Proof.
  revert ys. induction xs as [| x xs IH]; intros [| y ys] Hlen H;
    cbn in Hlen; try discriminate; constructor.
  - apply (H 0%nat). cbn. lia.
  - apply IH; [lia |]. intros i Hi. apply (H (S i)). cbn. lia.
Qed.

Lemma cross_entropy_total (crit : CrossEntropyLoss) (logits : tensor3)
  (target : list (list Z)) :
  Forall2 (Forall2 (fun (lg : tensor1) (t : Z) =>
                      t = ignore_index crit
                      \/ (0 <= t < Z.of_nat (length lg))%Z))
          logits target ->
  exists v, cross_entropy crit logits target = Ok v.
Proof.
  intros H. unfold cross_entropy.
  destruct (zipM_total (zipM (ce_position crit)) logits target) as [rows Hrows].
  { eapply Forall2_impl; [| exact H]. intros lgs ts Hrow.
    apply zipM_total. eapply Forall2_impl; [| exact Hrow].
    intros lg t Ht. unfold ce_position.
    destruct (t =? ignore_index crit)%Z eqn:E; [eauto |].
    destruct Ht as [-> | Ht]; [rewrite Z.eqb_refl in E; discriminate |].
    assert (E2 : ((0 <=? t)%Z && (t <? Z.of_nat (length lg))%Z)%bool = true).
    { apply andb_true_iff. split; [apply Z.leb_le | apply Z.ltb_lt]; lia. }
    rewrite E2. eauto. }
  rewrite Hrows. cbn [bind].
  destruct (Rlt_dec 0 (label_smoothing crit)); eauto.
Qed.

Lemma loss_items_total (self : EmbeddingPredictor.t) (items : dict tensor3)
  (batch : PaddedBatch) (acc : dict tnum) :
  (forall name dist, In (name, dist) items ->
     exists values,
       dict_get (payload batch) name = Ok values
       /\ exists v, cross_entropy (EmbeddingPredictor.criterion self) dist
                      (drop_first2 (long values)) = Ok v) ->
  exists r, EmbeddingPredictor.loss_items self items batch acc = Ok r.
Proof.
  revert acc. induction items as [| [name dist] items IH]; intros acc H;
    [exists acc; reflexivity |].
  cbn [EmbeddingPredictor.loss_items].
  destruct (H name dist (or_introl eq_refl)) as (values & Hv & v & Hce).
  rewrite Hv. cbn [bind]. rewrite Hce. cbn [bind].
  apply IH. intros n d Hin. apply H. right. exact Hin.
Qed.

Lemma dict_get_In {V : Type} (d : dict V) (k : string) (v : V) :
  NoDup (keys d) -> In (k, v) d -> dict_get d k = Ok v.
Proof.
  intros Hnd Hin. destruct (In_nth_error _ _ Hin) as [i Hi].
  eapply dict_get_nth_error; eauto.
Qed.

Lemma In_keys_nth_error {V : Type} (d : dict V) (k : string) :
  In k (keys d) -> exists i v, nth_error d i = Some (k, v).
Proof.
  intros H. unfold keys in H. apply in_map_iff in H.
  destruct H as ([k0 v] & Hk & Hin). cbn in Hk. subst k0.
  destruct (In_nth_error _ _ Hin) as [i Hi]. eauto.
Qed.

(** X30: from the predicted vectors to the head losses nothing raises on
    well-formed labels.  For a predictor built by the constructor from
    distinct embedding names, a prediction of [B] sequences of [T] vectors
    at least [categorical_len] wide, and a batch that carries every
    categorical feature with [B] sequences of [T + 1] events whose labels
    after the first event are 0 or below the feature's [max_value]: the
    heads are built, [forward] returns a distribution, [loss] returns on it,
    and the losses have exactly the embedding names as keys. *)
Theorem head_losses_total (mc : ModelConf) (dc : DataConf)
  (new_linear : string -> nat -> nat -> Linear) (x_recon : tensor3)
  (batch : PaddedBatch) (B T : nat) :
  Linear_constructor new_linear ->
  NoDup (keys (embeddings dc)) ->
  length x_recon = B ->
  Forall (fun s : tensor2 => length s = T) x_recon ->
  Forall (Forall (fun v : tensor1 =>
                    (EmbeddingPredictor.categorical_len (EmbeddingPredictor.init mc dc)
                     <= length v)%nat))
         x_recon ->
  labels_fit dc batch B T ->
  exists heads dist losses,
    init_embed_predictors (EmbeddingPredictor.init mc dc) new_linear = Ok heads
    /\ EmbeddingPredictor_forward (EmbeddingPredictor.init mc dc) heads x_recon
       = Ok dist
    /\ EmbeddingPredictor.loss (EmbeddingPredictor.init mc dc) dist batch = Ok losses
    /\ forall k, In k (keys losses) <-> In k (keys (embeddings dc)).
Proof.
  intros Hlin Hnd HB HT Hwide Hfit.
  destruct (forward_blocks mc dc new_linear x_recon Hlin Hnd Hwide)
    as (heads & dist & Hheads & Hdist & Hkeys & Hblocks).
  assert (Hloss : exists losses,
            EmbeddingPredictor.loss (EmbeddingPredictor.init mc dc) dist batch
            = Ok losses).
  { unfold EmbeddingPredictor.loss. apply loss_items_total.
    intros name logits Hin.
    assert (Hndd : NoDup (keys dist)) by (rewrite Hkeys; exact Hnd).
    pose proof (dict_get_In dist name logits Hndd Hin) as Hget.
    assert (Hname : In name (keys (embeddings dc))).
    { rewrite <- Hkeys. unfold keys. apply in_map_iff.
      exists (name, logits). split; [reflexivity | exact Hin]. }
    destruct (In_keys_nth_error _ _ Hname) as (i & conf & Hi).
    rewrite (Hblocks i name conf Hi) in Hget. inversion Hget as [Hlogits].
    destruct (Hfit name conf (nth_error_In _ _ Hi)) as (values & Hv & HvB & Hrows).
    exists values. split; [exact Hv |].
    apply cross_entropy_total.
    apply (Forall2_nth _ _ _ [] []).
    { unfold drop_first2, long. rewrite !length_map. lia. }
    intros b Hb. rewrite !length_map in Hb.
    assert (Hbv : (b < length values)%nat) by lia.
    rewrite (nth_map_in _ x_recon b [] []) by exact Hb.
    unfold drop_first2, long. rewrite map_map.
    rewrite (nth_map_in (fun r => tl (map long1 r)) values b [] []) by exact Hbv.
    rewrite Forall_forall in HT, Hrows.
    pose proof (HT _ (nth_In x_recon [] Hb)) as HTb.
    destruct (Hrows _ (nth_In values [] Hbv)) as [Hlen Hlab].
    assert (Htl : tl (map long1 (nth b values [])) = map long1 (tl (nth b values [])))
      by (destruct (nth b values []); reflexivity).
    rewrite Htl.
    assert (Hltl : length (tl (nth b values [])) = T)
      by (destruct (nth b values []); cbn in *; lia).
    apply (Forall2_nth _ _ _ [] 0%Z).
    { rewrite !length_map. lia. }
    intros t Ht. rewrite length_map in Ht.
    rewrite (nth_map_in _ (nth b x_recon []) t [] []) by exact Ht.
    rewrite (nth_map_in long1 (tl (nth b values [])) t NaN 0%Z) by lia.
    pose proof (Hlin name (features_emb_dim mc) (max_value conf)) as Hshaped.
    rewrite (affine_length _ _ _ _ _ Hshaped).
    rewrite Forall_forall in Hlab.
    assert (Htt : (t < length (tl (nth b values [])))%nat) by lia.
    specialize (Hlab (nth t (tl (nth b values [])) NaN)
                  (nth_In (tl (nth b values [])) NaN Htt)).
    cbn [EmbeddingPredictor.init EmbeddingPredictor.criterion ignore_index].
    destruct (Z.eq_dec (long1 (nth t (tl (nth b values [])) NaN)) 0) as [E | E];
      [left; exact E | right; lia]. }
  destruct Hloss as [losses Hlosses].
  exists heads, dist, losses.
  split; [exact Hheads |]. split; [exact Hdist |]. split; [exact Hlosses |].
  intros k. rewrite (embedding_loss_keys _ _ _ _ Hlosses k), Hkeys. reflexivity.
Qed.

Lemma two_cat_labels_fit : labels_fit two_cat_data two_cat_batch 1 1.
Proof.
  intros name conf [E | [E | []]]; inversion E; subst name conf;
    eexists; (split; [reflexivity |]); (split; [reflexivity |]);
    constructor; [| constructor | | constructor];
    (split; [reflexivity |]); constructor; [| constructor | | constructor];
    cbn [long1 max_value]; rewrite trunc_R_IZR; cbn; lia.
Qed.

Lemma head_losses_total_witness :
  exists heads dist losses,
    init_embed_predictors (EmbeddingPredictor.init plain_conf two_cat_data) zero_head
    = Ok heads
    /\ EmbeddingPredictor_forward (EmbeddingPredictor.init plain_conf two_cat_data)
         heads [[[Fin 1; Fin 2; Fin 3]]] = Ok dist
    /\ EmbeddingPredictor.loss (EmbeddingPredictor.init plain_conf two_cat_data)
         dist two_cat_batch = Ok losses
    /\ forall k, In k (keys losses) <-> In k (keys (embeddings two_cat_data)).
Proof.
  apply (head_losses_total plain_conf two_cat_data zero_head
           [[[Fin 1; Fin 2; Fin 3]]] two_cat_batch 1 1).
  - exact zero_head_constructor.
  - exact two_cat_names.
  - reflexivity.
  - repeat constructor.
  - repeat constructor.
  - exact two_cat_labels_fit.
Defined.

Lemma padding_output_loss :
  exists d, BaseMixin.loss skew_model padding_output = Ok d.
Proof.
  unfold BaseMixin.loss, EmbeddingPredictor.loss.
  cbn [BaseMixin.split_delta skew_model BaseMixin.init BaseMixin.model_conf
       plain_conf use_deltas bind padding_output out_pred out_x out_input_batch
       out_emb_dist padding_batch payload BaseMixin.mse_loop BaseMixin.processor
       processor_emb_names mem existsb String.eqb Ascii.eqb Bool.eqb negb orb
       BaseMixin.delta_branch BaseMixin.embedding_predictor
       EmbeddingPredictor.loss_items dict_get].
  cbn [long drop_first2 map tl long1]. rewrite trunc_R_IZR.
  unfold cross_entropy. cbn. real_dec; eexists; reflexivity.
Qed.

(** ** One padded feature and the total *)

Lemma dict_get_value_In {V : Type} (d : dict V) (k : string) (v : V) :
  dict_get d k = Ok v -> In v (map snd d).
Proof.
  induction d as [| [k0 v0] d IH]; cbn [dict_get]; [discriminate |].
  destruct (String.eqb k0 k).
  - intros H. inversion H; subst. left. reflexivity.
  - intros H. right. apply IH. exact H.
Qed.

(** X2: one categorical feature without a valid label makes the whole
    objective NaN.  When the full model loss returns a breakdown and the
    labels of some categorical feature are the ignored index at every event
    after the first, the [total_loss] entry is NaN, whatever the weights and
    the other features are. *)
Theorem padded_feature_poisons_total (self : BaseMixin.t) (output : Output)
  (d : dict tnum) (name : string) (logits : tensor3) (values : tensor2) :
  BaseMixin.loss self output = Ok d ->
  NoDup (keys (out_emb_dist output)) ->
  In (name, logits) (out_emb_dist output) ->
  dict_get (payload (out_input_batch output)) name = Ok values ->
  Forall (fun row : tensor1 =>
            Forall (fun x =>
                      long1 x
                      = ignore_index
                          (EmbeddingPredictor.criterion
                             (BaseMixin.embedding_predictor self)))
                   (tl row))
         values ->
  dict_get d "total_loss"%string = Ok NaN.
Proof.
  intros H Hnd Hin Hget Hpad. unfold BaseMixin.loss in H.
  inv_bind H as sp Hsp. destruct sp as [[pd pred] gt].
  inv_bind H as mse Hmse. inv_bind H as delta Hdelta.
  inv_bind H as ce Hce. inv_bind H as ce_total Htotal.
  inv_bind H as mse_entry Hentry. inversion H; subst d; clear H.
  rewrite dict_get_set_same. do 2 f_equal.
  pose proof (padding_entry_nan _ _ _ _ name logits values Hce Hnd Hin Hget Hpad)
    as Hnan.
  apply sum_cat_ok in Htotal. destruct Htotal as [_ ->].
  rewrite (tsum_In_NaN (map snd ce)) by (eapply dict_get_value_In; exact Hnan).
  cbn [tmul]. rewrite tadd_NaN_r, tadd_NaN_l. reflexivity.
Qed.

Lemma padded_feature_poisons_total_witness :
  exists d,
    BaseMixin.loss skew_model padding_output = Ok d
    /\ dict_get d "total_loss"%string = Ok NaN.
Proof.
  destruct padding_output_loss as [d Hd].
  exists d. split; [exact Hd |].
  apply (padded_feature_poisons_total skew_model padding_output d "cat"%string
           [[[Fin 0; Fin 0]]] [[Fin 1; Fin 0]] Hd).
  - repeat constructor. intros H. exact H.
  - left. reflexivity.
  - reflexivity.
  - repeat constructor. cbn [long1]. apply trunc_R_IZR.
Defined.
